(** * logo_analyzer: a shallow embedding of [functions.py] and [main.py]

    The development follows the two Python modules of the repository.
    Pure helpers (brand extraction, the difference hash, the broad-colour
    classifiers) are Rocq functions.  Code that talks to the file system or
    to the hash registry threads an explicit state; code that may raise
    returns a [result].  Calls into third-party libraries (PIL, OpenCV,
    scikit-learn, requests) are Section variables: the theorems hold for
    every behaviour of those libraries.  The one exception is the histogram
    correlation of OpenCV, which is also written out over the reals to
    compare an image with itself. *)

From Stdlib Require Import ZArith QArith Reals Psatz Ascii.
From stdpp Require Import gmap strings list fin_maps.

Local Open Scope Z_scope.
#[local] Set Warnings "-clear-no-such-hyp".
#[local] Set Default Proof Using "Type".

(** ** Python exceptions *)

Inductive exception : Type :=
  | FileNotFoundError
  | KeyError
  | ZeroDivisionError
  | OtherException (msg : string).

Inductive result (A : Type) : Type :=
  | Ok (a : A)
  | Raised (e : exception).
Arguments Ok {A} a.
Arguments Raised {A} e.

Definition rbind {A B : Type} (r : result A) (k : A → result B) : result B :=
  match r with
  | Ok a => k a
  | Raised e => Raised e
  end.

Global Instance result_ret : MRet result := @Ok.
Global Instance result_bind : MBind result := fun A B k r => rbind r k.

(** [try: body except Exception: handler] *)
Definition try_except {A : Type} (body : result A) (handler : exception → result A)
  : result A :=
  match body with
  | Ok a => Ok a
  | Raised e => handler e
  end.

(** ** Broad colours ([functions.py], lines 19-37) *)

Inductive broad_color : Type :=
  | Red | Orange | Yellow | Green | Blue | White | Black.

Global Instance broad_color_eq_dec : EqDecision broad_color.
Proof. solve_decision. Defined.

Definition rgb : Type := Z * Z * Z.

(** The dictionary literal, in its insertion (hence iteration) order. *)
Definition BROAD_COLORS : list (broad_color * rgb) :=
  [ (Red,    (220, 20, 60));
    (Orange, (255, 165, 0));
    (Yellow, (255, 255, 0));
    (Green,  (34, 139, 34));
    (Blue,   (30, 144, 255));
    (White,  (255, 255, 255));
    (Black,  (0, 0, 0)) ].

Definition COLOR_WARMTH : list (broad_color * Z) :=
  [ (Red, 1); (Orange, 1); (Yellow, 1); (Green, -1); (Blue, -1);
    (White, 0); (Black, 0) ].

(** Lookup in an insertion-ordered dictionary given as an association list. *)
Fixpoint dict_get {K V : Type} `{EqDecision K} (d : list (K * V)) (k : K)
  : option V :=
  match d with
  | [] => None
  | (k', v) :: d' => if decide (k' = k) then Some v else dict_get d' k
  end.

(** ** [closest_broad_color] ([functions.py], lines 140-151)

    The source compares [np.sqrt] of the sum of squares.  The sums are
    integers below 2^18 for channels in 0..255, where the correctly rounded
    square root is strictly increasing, so the comparison of the roots is
    the comparison of the sums; [distance2] is that sum.  [min_distance] is
    [None] while it still holds [float("inf")]. *)

Definition distance2 (c p : rgb) : Z :=
  let '(r, g, b) := c in
  let '(pr, pg, pb) := p in
  (r - pr) ^ 2 + (g - pg) ^ 2 + (b - pb) ^ 2.

Definition closest_step (c : rgb)
    (acc : option Z * option broad_color) (entry : broad_color * rgb)
  : option Z * option broad_color :=
  let '(color_name, color_rgb) := entry in
  let distance := distance2 c color_rgb in
  match acc.1 with
  | None => (Some distance, Some color_name)
  | Some min_distance =>
      if distance <? min_distance then (Some distance, Some color_name) else acc
  end.

Definition closest_in (palette : list (broad_color * rgb)) (c : rgb)
  : option broad_color :=
  (fold_left (closest_step c) palette (None, None)).2.

Definition closest_broad_color (c : rgb) : option broad_color :=
  closest_in BROAD_COLORS c.

(** [sum(l)] on integers *)
Definition sum_Z (l : list Z) : Z := foldr Z.add 0 l.

(** ** [collections.Counter] and [most_common]

    A [Counter] is a dictionary in first-occurrence order; [most_common n]
    sorts the items by decreasing count, keeping the dictionary order among
    equal counts, and returns the first [n]. *)

Section Counter.
Context {K : Type} `{EqDecision K}.

Fixpoint counter_incr (k : K) (c : list (K * Z)) : list (K * Z) :=
  match c with
  | [] => [(k, 1)]
  | (k', n) :: c' =>
      if decide (k' = k) then (k', n + 1) :: c'
      else (k', n) :: counter_incr k c'
  end.

Definition Counter (l : list K) : list (K * Z) :=
  fold_left (fun c k => counter_incr k c) l [].

Fixpoint insert_by_count (x : K * Z) (l : list (K * Z)) : list (K * Z) :=
  match l with
  | [] => [x]
  | y :: l' =>
      if x.2 <? y.2 then y :: insert_by_count x l' else x :: y :: l'
  end.

Definition sort_by_count (l : list (K * Z)) : list (K * Z) :=
  foldr insert_by_count [] l.

Definition most_common (n : nat) (c : list (K * Z)) : list (K * Z) :=
  take n (sort_by_count c).

(** [sum(f(key) * count for key, count in c)] *)
Definition weighted (f : K → Z) (c : list (K * Z)) : Z :=
  sum_Z (map (fun kn => f kn.1 * kn.2) c).
End Counter.

(** ** [describe_logo_colors] ([functions.py], lines 207-217) *)

Definition describe_logo_colors (rgb_colors : list rgb) : bool :=
  let color_counts := Counter (map closest_broad_color rgb_colors) in
  let color_groups := most_common 8 color_counts in
  if bool_decide (length color_groups ≤ 2)%nat then true else false.

(** ** The two classifiers in the words of the specification

    Every cluster colour falls into one broad-colour bucket; the minimalism
    test counts the distinct buckets, the emotion score adds the warmth of
    each bucket weighted by its size and divides by the number of distinct
    buckets. *)

Definition warmth (c : broad_color) : Z :=
  match c with
  | Red | Orange | Yellow => 1
  | Green | Blue => -1
  | White | Black => 0
  end.

Definition buckets (colors : list rgb) : list broad_color :=
  omap closest_broad_color colors.

Definition distinct_buckets (colors : list rgb) : list broad_color :=
  remove_dups (buckets colors).

Definition bucket_size (b : broad_color) (colors : list rgb) : Z :=
  Z.of_nat (length (filter (fun x => x = b) (buckets colors))).

Definition classifyEmotion_score (colors : list rgb) : Q :=
  let total :=
    sum_Z (map (fun b => warmth b * bucket_size b colors)
               (distinct_buckets colors)) in
  let present := Z.of_nat (length (distinct_buckets colors)) in
  (inject_Z total / inject_Z present)%Q.

(** ** Rational arithmetic for Python floats

    The scores compared in the source are quotients of small integers or
    values handed back by OpenCV; the thresholds (0.5, 0, -0.5, 49) are
    exactly representable, and a quotient [a / b] with [b <= 7] never lies
    within rounding distance of one of them, so the comparisons are modelled
    on exact rationals. *)

Definition Qltb (x y : Q) : bool := negb (Qle_bool y x).

(** [a / b] on Python integers *)
Definition truediv (a b : Z) : result Q :=
  if b =? 0 then Raised ZeroDivisionError
  else Ok (inject_Z a / inject_Z b)%Q.

(** [COLOR_WARMTH[color]], where [color] is whatever [closest_broad_color]
    returned ([None] is not a key). *)
Definition COLOR_WARMTH_item (color : option broad_color) : result Z :=
  match color with
  | Some c =>
      match dict_get COLOR_WARMTH c with
      | Some w => Ok w
      | None => Raised KeyError
      end
  | None => Raised KeyError
  end.

Definition emotion_label (warmth_score : Q) : string :=
  if Qltb (1 # 2) warmth_score then "Energetic & Passionate"
  else if Qltb 0 warmth_score then "Warm & Friendly"
  else if Qltb warmth_score (- (1 # 2)) then "Cool & Professional"
  else if Qltb warmth_score 0 then "Calm & Trustworthy"
  else "Balanced & Neutral".

(** ** [extract_brand] ([functions.py], lines 41-44)

    [str.split(".")] and [re.split(r"[-_]", _)] both cut at every occurrence
    of a one-character separator and keep empty pieces. *)

Fixpoint split_at (sep : ascii → bool) (s : string) : list string :=
  match s with
  | EmptyString => [EmptyString]
  | String c s' =>
      if sep c then EmptyString :: split_at sep s'
      else match split_at sep s' with
           | w :: ws => String c w :: ws
           | [] => [String c EmptyString]
           end
  end.

(** [xs[0]]; every list indexed this way in the source is non-empty
    (lemmas [split_at_nonempty] and [brand_dict_values_nonempty]). *)
Definition item0 (xs : list string) : string := default EmptyString (head xs).

Definition is_dot (c : ascii) : bool := bool_decide (c = "."%char).
Definition is_dash_or_underscore (c : ascii) : bool :=
  bool_decide (c = "-"%char) || bool_decide (c = "_"%char).

Definition extract_brand (domain : string) : string :=
  let domain := item0 (split_at is_dot domain) in
  let words := split_at is_dash_or_underscore domain in
  item0 words.

(** The characters at which [extract_brand] cuts. *)
Definition separator (c : ascii) : Prop :=
  c = "."%char ∨ c = "-"%char ∨ c = "_"%char.

(** [domain] belongs to brand [k]. *)
Definition of_brand (k : string) (domain : string) : Prop :=
  extract_brand domain = k.

Global Instance of_brand_dec k domain : Decision (of_brand k domain).
Proof. unfold of_brand. apply _. Defined.

(** ** Brand selection in [download_logos] ([main.py], lines 89-96) *)

(** [brand_dict[brand].append(domain)] on a [defaultdict(list)] *)
Fixpoint defaultdict_append (brand_dict : list (string * list string))
    (brand domain : string) : list (string * list string) :=
  match brand_dict with
  | [] => [(brand, [domain])]
  | (b, domains) :: rest =>
      if decide (b = brand) then (b, domains ++ [domain]) :: rest
      else (b, domains) :: defaultdict_append rest brand domain
  end.

Definition brand_dict (df_domain : list string) : list (string * list string) :=
  fold_left (fun d domain => defaultdict_append d (extract_brand domain) domain)
            df_domain [].

Definition selected_domains (df_domain : list string) : list string :=
  map (fun kv => item0 kv.2) (brand_dict df_domain).

(** ** Hash characters *)

Definition bit_string (d : bool) : string := if d then "1" else "0".
Definition bit_char (d : bool) : ascii := if d then "1"%char else "0"%char.

(** ** Paths *)

(** [os.path.join(folder, name)] for a relative [name] and a folder name
    without a trailing separator. *)
Definition os_path_join (folder name : string) : string :=
  folder +:+ "/" +:+ name.

(** [f"{domain.split(".")[0]}.png"] *)
Definition logo_filename (domain : string) : string :=
  item0 (split_at is_dot domain) +:+ ".png".

(** ** Histogram correlation in exact real arithmetic

    [cv2.compareHist(_, _, HISTCMP_CORREL)] accumulates the sums below and
    returns 1 when the denominator is not above [DBL_EPSILON]; the floating
    point operations are idealised as real ones. *)

Definition Rsum (l : list R) : R := foldr Rplus 0%R l.

Definition DBL_EPSILON : R := (/ 2 ^ 52)%R.

Definition compareHist_CORREL (h1 h2 : list R) : R :=
  let s1 := Rsum h1 in
  let s2 := Rsum h2 in
  let s11 := Rsum (zip_with Rmult h1 h1) in
  let s12 := Rsum (zip_with Rmult h1 h2) in
  let s22 := Rsum (zip_with Rmult h2 h2) in
  let scale := (1 / INR (length h1))%R in
  let num := (s12 - s1 * s2 * scale)%R in
  let denom2 := ((s11 - s1 * s1 * scale) * (s22 - s2 * s2 * scale))%R in
  if Rlt_dec DBL_EPSILON (Rabs denom2) then (num / sqrt denom2)%R else 1%R.

(** The last two statements of [calculate_histogram_similarity], on the two
    normalised, flattened histograms. *)
Definition histogram_similarity (hist1 hist2 : list R) : R :=
  let similarity := compareHist_CORREL hist1 hist2 in
  ((similarity + 1) / 2 * 100)%R.

(** ** State shared by the two de-duplication phases *)

(** The file system is the set of paths that exist; [hashes] is the global
    registry of [main.py], line 15. *)
Record world : Type := World {
  fs : gset string;
  hashes : gmap string string
}.

(** [os.remove(path)] *)
Definition os_remove (path : string) (files : gset string) : result (gset string) :=
  if decide (path ∈ files) then Ok (files ∖ {[path]})
  else Raised FileNotFoundError.

(** [shutil.move(src, dst)] on two file paths *)
Definition shutil_move (src dst : string) (files : gset string)
  : result (gset string) :=
  if decide (src ∈ files) then Ok ({[dst]} ∪ files ∖ {[src]})
  else Raised FileNotFoundError.

Definition duplicates_folder : string := "duplicates".

(** A comparison task of the thread pool of [move_similar_logos]: submitted
    (the comparison has not read the files yet), past a positive test and
    about to call [shutil.move], or finished. *)
Inductive task : Type :=
  | Submitted (image1 image2 : string)
  | Moving (image1 image2 : string)
  | Finished.

Global Instance task_eq_dec : EqDecision task.
Proof. solve_decision. Defined.

Definition task_weight (t : task) : nat :=
  match t with
  | Submitted _ _ => 2
  | Moving _ _ => 1
  | Finished => 0
  end.

(** The submission loop of [move_similar_logos] ([main.py], lines 66-71);
    [files[i + 1:]] is the rest of the listing. *)
Fixpoint submitted_pairs (files : list string) (checked_files : gset string)
  : list (string * string) :=
  match files with
  | [] => []
  | file1 :: rest =>
      if decide (file1 ∈ checked_files) then submitted_pairs rest checked_files
      else map (fun file2 => (file1, file2)) rest
           ++ submitted_pairs rest ({[file1]} ∪ checked_files)
  end.

(** [image1] comes before [image2] in the listing. *)
Definition listed_before (listing : list string) (image1 image2 : string) : Prop :=
  ∃ a b : nat, (a < b)%nat ∧ listing !! a = Some image1 ∧ listing !! b = Some image2.

(** [image[:3]] *)
Definition prefix3 (image : string) : string := String.substring 0 3 image.

(** ** A small world for the examples

    Two logos of one brand whose histograms correlate at 0.2 (score 60);
    every file decodes, every image is uniformly grey. *)

Definition example_decodes (path : string) : bool := true.

Definition example_compareHist (img1 img2 : string) : result Q := Ok (1 # 5)%Q.

Definition example_listing : list string := ["abc_1.png"; "abc_2.png"].

Definition example_files : gset string :=
  {[ "logos/abc_1.png"; "logos/abc_2.png" ]}.

(** The folder after the second logo has been moved. *)
Definition example_files_after : gset string :=
  {[ "duplicates/abc_2.png" ]} ∪ example_files ∖ {[ "logos/abc_2.png" ]}.

(** Three logos of one brand: the first two and the last two are close
    (score 60), the first and the last are not (score 10). *)
Definition example_compareHist3 (img1 img2 : string) : result Q :=
  if bool_decide (img1 = "logos/abc_1.png" ∧ img2 = "logos/abc_3.png")
  then Ok (- (4 # 5))%Q else Ok (1 # 5)%Q.

Definition example_listing3 : list string :=
  ["abc_1.png"; "abc_2.png"; "abc_3.png"].

Definition example_files3 : gset string :=
  {[ "logos/abc_1.png"; "logos/abc_2.png"; "logos/abc_3.png" ]}.

Definition example_convert_L (img : unit) : unit := img.

Definition example_resize (img : unit) (size : nat * nat) : unit := img.

Definition example_getpixel (img : unit) (xy : nat * nat) : Z := 128.

Definition example_Image_open (path : string) : result unit := Ok tt.

Definition example_fetch_ok (domain : string) : bool := true.

Section External.

(** *** PIL *)
Variable image : Type.
Variable convert_L : image → image.
Variable resize_LANCZOS : image → nat * nat → image.
Variable getpixel : image → nat * nat → Z.
(** [Image.open(path)] followed by reading the pixels *)
Variable Image_open : string → result image.

(** *** requests, scikit-learn, OpenCV *)
(** [download_logo(domain)] got a 200 response and wrote the file. *)
Variable fetch_ok : string → bool.
Variable extract_main_colors : string → list rgb.
(** the bytes at this path decode ([cv2.imread] is not [None]) *)
Variable cv2_decodes : string → bool.
(** [cv2.compareHist] of the normalised HSV histograms of two decoded
    files, or the error raised on the way *)
Variable compareHist : string → string → result Q.

(** Proof scripts start from the external functions their statement
    mentions; the automation would otherwise go through all of them. *)
Ltac drop_unused :=
  try clear compareHist; try clear cv2_decodes; try clear extract_main_colors;
  try clear fetch_ok; try clear Image_open; try clear getpixel;
  try clear resize_LANCZOS; try clear convert_L; try clear image.

(** *** [dhash] ([functions.py], lines 88-92) *)

Definition dhash_diff (img : image) (hash_size : nat) : list bool :=
  flat_map (fun y =>
    map (fun x => getpixel img (x, y) >? getpixel img (x + 1, y)%nat)
        (seq 0 hash_size))
    (seq 0 hash_size).

Definition dhash (img : image) (hash_size : nat) : string :=
  let img := resize_LANCZOS (convert_L img) (hash_size + 1, hash_size)%nat in
  let diff := dhash_diff img hash_size in
  foldr String.append EmptyString
        (map (fun d : bool => if d then "1" else "0") diff).

(** *** [analyze_emotion] ([functions.py], lines 221-241) *)

Definition warmth_terms (color_groups : list (option broad_color * Z))
  : result (list Z) :=
  mapM (fun '(color, count) =>
          w ← COLOR_WARMTH_item color; Ok (w * count)) color_groups.

Definition analyze_emotion (image_path : string) : result string :=
  let rgb_list := extract_main_colors image_path in
  let color_counts := Counter (map closest_broad_color rgb_list) in
  let color_groups := most_common 8 color_counts in
  terms ← warmth_terms color_groups;
  let warmth_score := sum_Z terms in
  warmth_score ← truediv warmth_score (Z.of_nat (length color_groups));
  Ok (emotion_label warmth_score).

(** *** [download_logo] and [process_logo] *)

Definition download_logo (domain : string) (files : gset string) : gset string :=
  if fetch_ok domain
  then {[os_path_join "logos" (logo_filename domain)]} ∪ files
  else files.

(** [main.py], lines 18-41.  The body runs without interleaving: the
    registry is only touched under [hash_lock], and the domains handed to
    the pool have pairwise different paths. *)
Definition process_logo (domain output_folder : string) (w : world)
  : result world :=
  let logo_path := os_path_join output_folder (logo_filename domain) in
  let files := download_logo domain (fs w) in
  if decide (logo_path ∉ files) then Ok (World files (hashes w))
  else
    try_except
      (img ← Image_open logo_path;
       let hash_value := dhash img 8 in
       if decide (is_Some (hashes w !! hash_value))
       then files' ← os_remove logo_path files; Ok (World files' (hashes w))
       else Ok (World files (<[hash_value := logo_path]> (hashes w))))
      (fun _ => files' ← os_remove logo_path files; Ok (World files' (hashes w))).

(** The fetch pool over the selected domains, in the order in which the
    tasks run. *)
Fixpoint process_all (domains : list string) (output_folder : string)
    (w : world) : result world :=
  match domains with
  | [] => Ok w
  | domain :: rest =>
      w' ← process_logo domain output_folder w;
      process_all rest output_folder w'
  end.

(** The [hash_value] that [process_logo] computes for [domain] in state
    [w], when the file is there and opens. *)
Definition hash_value_of (domain output_folder : string) (w : world)
  : option string :=
  let logo_path := os_path_join output_folder (logo_filename domain) in
  if decide (logo_path ∈ download_logo domain (fs w)) then
    match Image_open logo_path with
    | Ok img => Some (dhash img 8)
    | Raised _ => None
    end
  else None.

(** The hashes computed along a run of the fetch pool, each with the path
    of the file it was computed from, in the order of the run. *)
Fixpoint hashes_seen (domains : list string) (output_folder : string)
    (w : world) : list (string * string) :=
  match domains with
  | [] => []
  | domain :: rest =>
      match process_logo domain output_folder w with
      | Ok w' =>
          match hash_value_of domain output_folder w with
          | Some h =>
              (h, os_path_join output_folder (logo_filename domain))
              :: hashes_seen rest output_folder w'
          | None => hashes_seen rest output_folder w'
          end
      | Raised _ => []
      end
  end.

(** Every processed file still on disk is the registered holder of its
    own hash. *)
Definition holders (processed : list string) (w : world) : Prop :=
  ∀ domain, domain ∈ processed →
    os_path_join "logos" (logo_filename domain) ∈ fs w →
    ∃ img, Image_open (os_path_join "logos" (logo_filename domain)) = Ok img ∧
           hashes w !! dhash img 8
           = Some (os_path_join "logos" (logo_filename domain)).

(** *** [calculate_histogram_similarity] ([functions.py], lines 94-116) *)

Definition cv2_imread (files : gset string) (path : string) : option string :=
  if decide (path ∈ files) then
    if cv2_decodes path then Some path else None
  else None.

Definition calculate_histogram_similarity (files : gset string)
    (image1 image2 : string) : result Q :=
  match cv2_imread files image1 with
  | None => Raised FileNotFoundError
  | Some img1 =>
      match cv2_imread files image2 with
      | None => Raised FileNotFoundError
      | Some img2 =>
          similarity ← compareHist img1 img2;
          Ok ((similarity + 1) / 2 * 100)%Q
      end
  end.

(** *** [check_similarity] ([main.py], lines 51-62) *)

Definition near_duplicate (similarity : Q) (image1 image2 : string) : bool :=
  Qltb 49 similarity && bool_decide (prefix3 image1 = prefix3 image2).

Definition check_similarity (output_folder image1 image2 : string)
    (files : gset string) : result (gset string) :=
  let file1_path := os_path_join output_folder image1 in
  let file2_path := os_path_join output_folder image2 in
  try_except
    (similarity ← calculate_histogram_similarity files file1_path file2_path;
     if near_duplicate similarity image1 image2
     then shutil_move file2_path (os_path_join duplicates_folder image2) files
     else Ok files)
    (fun _ => Ok files).

(** The same body cut at its two accesses to the file system, for runs in
    which other tasks act between the comparison and the move. *)
Definition task_step (output_folder : string) (files : gset string) (t : task)
  : gset string * task :=
  match t with
  | Submitted image1 image2 =>
      match calculate_histogram_similarity files
              (os_path_join output_folder image1)
              (os_path_join output_folder image2) with
      | Ok similarity =>
          if near_duplicate similarity image1 image2
          then (files, Moving image1 image2)
          else (files, Finished)
      | Raised _ => (files, Finished)
      end
  | Moving image1 image2 =>
      match shutil_move (os_path_join output_folder image2)
              (os_path_join duplicates_folder image2) files with
      | Ok files' => (files', Finished)
      | Raised _ => (files, Finished)
      end
  | Finished => (files, Finished)
  end.

(** One worker advances one unfinished task. *)
Inductive pool_step (output_folder : string)
  : gset string * list task → gset string * list task → Prop :=
  | pool_step_task files pool k t files' t' :
      pool !! k = Some t →
      t ≠ Finished →
      task_step output_folder files t = (files', t') →
      pool_step output_folder (files, pool) (files', <[k := t']> pool).

(** [move_similar_logos] ([main.py], lines 43-71): the pool right after the
    submission loop, for the listing [files] of [output_folder]. *)
Definition submitted_pool (files : list string) : list task :=
  map (fun p => Submitted p.1 p.2) (submitted_pairs files ∅).

(** The run in which every task finishes before the next one starts. *)
Definition move_similar_logos_fifo (output_folder : string)
    (listing : list string) (files : gset string) : result (gset string) :=
  foldl (fun acc p =>
           files ← acc; check_similarity output_folder p.1 p.2 files)
        (Ok files) (submitted_pairs listing ∅).

(** What is left to do in a pool: two file-system accesses for a
    submitted task, one for a task about to move. *)
Definition unfinished (pool : list task) : nat :=
  sum_list (map task_weight pool).

(** A task in the pool belongs to a submitted pair, and has passed the
    prefix test once it is about to move. *)
Definition task_ok (pairs : list (string * string)) (t : task) : Prop :=
  match t with
  | Submitted i j => (i, j) ∈ pairs
  | Moving i j => (i, j) ∈ pairs ∧ prefix3 i = prefix3 j
  | Finished => True
  end.

(** A path that has left the folder is the second file of a submitted pair
    with equal prefixes. *)
Definition only_seconds_gone (output_folder : string)
    (pairs : list (string * string)) (files0 files : gset string) : Prop :=
  ∀ p, p ∈ files0 → p ∉ files →
    ∃ i j, (i, j) ∈ pairs ∧ prefix3 i = prefix3 j ∧ p = os_path_join output_folder j.

(** ** Further definitions

    Counts and integer forms used to state what the classifiers compute. *)

(** Clusters falling into a warm bucket (Red, Orange, Yellow) and into a cool
    one (Green, Blue). *)
Definition warm_clusters (colors : list rgb) : Z :=
  Z.of_nat (length (filter (fun b => warmth b = 1) (buckets colors))).

Definition cool_clusters (colors : list rgb) : Z :=
  Z.of_nat (length (filter (fun b => warmth b = -1) (buckets colors))).

(** The bands of [analyze_emotion] on the quotient [s / k], written with
    integer comparisons. *)
Definition emotion_label_Z (s k : Z) : string :=
  if k <? 2 * s then "Energetic & Passionate"
  else if 0 <? s then "Warm & Friendly"
  else if 2 * s <? - k then "Cool & Professional"
  else if s <? 0 then "Calm & Trustworthy"
  else "Balanced & Neutral".

(** Every registry entry points to a processed file that is on disk and has
    the registered hash. *)
Definition registry_sound (processed : list string) (w : world) : Prop :=
  ∀ h p, hashes w !! h = Some p →
    p ∈ fs w ∧
    (∃ img, Image_open p = Ok img ∧ dhash img 8 = h) ∧
    ∃ domain, domain ∈ processed ∧ p = os_path_join "logos" (logo_filename domain).

(** Files only go from the scanned folder [logos/] to the duplicates folder:
    a path of [files0] missing from [files] is a listed logo whose copy is
    in the duplicates folder, and a path new in [files] is such a copy. *)
Definition moved_only (names : list string) (files0 files : gset string) : Prop :=
  (∀ p, p ∈ files0 →
        p ∈ files ∨
        ∃ j, j ∈ names ∧ p = os_path_join "logos" j ∧
             os_path_join duplicates_folder j ∈ files) ∧
  (∀ p, p ∈ files →
        p ∈ files0 ∨
        ∃ j, j ∈ names ∧ p = os_path_join duplicates_folder j ∧
             os_path_join "logos" j ∈ files0).

(** The test of [check_similarity] on two files that are both in the scanned
    folder: both decode, the comparison returns, the score is above 49 and
    the names agree on three characters. *)
Definition near_pair (output_folder image1 image2 : string) : bool :=
  cv2_decodes (os_path_join output_folder image1)
  && cv2_decodes (os_path_join output_folder image2)
  && match compareHist (os_path_join output_folder image1)
                       (os_path_join output_folder image2) with
     | Ok similarity =>
         near_duplicate ((similarity + 1) / 2 * 100)%Q image1 image2
     | Raised _ => false
     end.

(** What one comparison task does to the folders, exceptions swallowed. *)
Definition check_effect (output_folder image1 image2 : string)
    (files : gset string) : gset string :=
  if decide (os_path_join output_folder image1 ∈ files
             ∧ os_path_join output_folder image2 ∈ files)
  then if near_pair output_folder image1 image2
       then {[os_path_join duplicates_folder image2]}
            ∪ files ∖ {[os_path_join output_folder image2]}
       else files
  else files.

(** The folders after a list of comparisons run one after the other. *)
Definition check_effects (output_folder : string)
    (pairs : list (string * string)) (files : gset string) : gset string :=
  foldl (fun fs0 p => check_effect output_folder p.1 p.2 fs0) files pairs.

(** *** The score in double precision ([functions.py], line 116)

    Python evaluates [(similarity + 1) / 2 * 100] on doubles: each of the
    three operations returns its exact result rounded to the nearest double.
    [fl] is that rounding, on the rationals. *)

(** Rationals that are doubles: [m / 2^k] with a significand [m] of at most
    53 bits and [k] within the exponent range. *)
Definition double (x : Q) : Prop :=
  ∃ (m : Z) (k : nat),
    Z.abs m < 2 ^ 53 ∧ (k ≤ 1074)%nat ∧
    (x == inject_Z m / inject_Z (2 ^ Z.of_nat k))%Q.

Section Doubles.

Variable fl : Q → Q.

Definition remap_double (similarity : Q) : Q :=
  fl (fl (fl (similarity + 1) / 2) * 100)%Q.

Definition calculate_histogram_similarity_double (files : gset string)
    (image1 image2 : string) : result Q :=
  match cv2_imread files image1 with
  | None => Raised FileNotFoundError
  | Some img1 =>
      match cv2_imread files image2 with
      | None => Raised FileNotFoundError
      | Some img2 =>
          similarity ← compareHist img1 img2;
          Ok (remap_double similarity)
      end
  end.

End Doubles.

(** *** [delete_corrupted_images] ([main.py], lines 73-81) *)

(** The error of [open] and of [os.remove] on a directory
    ([IsADirectoryError] on Linux; [PermissionError], another [OSError], on
    other systems). *)
Definition directory_error : exception := OtherException "IsADirectoryError".

Section Sweep.

(** [with Image.open(filepath): pass] on a file that exists: the header
    parses, or an error is raised. *)
Variable Image_open_header : string → result unit.

Definition Image_open_at (files : gset string) (path : string) : result unit :=
  if decide (path ∈ files) then Image_open_header path
  else Raised FileNotFoundError.

(** The entries of the file system that are directories.  [os.listdir]
    names them like files. *)
Variable isdir : string → bool.

(** [Image.open(path)] on an entry of a listing: a directory cannot be
    opened for reading. *)
Definition Image_open_entry (files : gset string) (path : string) : result unit :=
  if isdir path && bool_decide (path ∈ files) then Raised directory_error
  else Image_open_at files path.

(** [os.remove(path)] on an entry of a listing: it refuses a directory. *)
Definition os_remove_entry (path : string) (files : gset string)
  : result (gset string) :=
  if isdir path && bool_decide (path ∈ files) then Raised directory_error
  else os_remove path files.

(** The loop over [os.listdir(output_folder)], given as [listing].  The
    [os.remove] of the handler is not guarded: an error it raises leaves the
    function. *)
Fixpoint delete_corrupted_images (output_folder : string)
    (listing : list string) (files : gset string) : result (gset string) :=
  match listing with
  | [] => Ok files
  | filename :: rest =>
      let filepath := os_path_join output_folder filename in
      files' ← try_except
                 (_ ← Image_open_entry files filepath; Ok files)
                 (fun _ => os_remove_entry filepath files);
      delete_corrupted_images output_folder rest files'
  end.

(** A listed file that does not open. *)
Definition corrupted (output_folder : string) (listing : list string)
    (p : string) : Prop :=
  ∃ filename, filename ∈ listing ∧ p = os_path_join output_folder filename ∧
              ∃ e, Image_open_header p = Raised e.

(** *** [download_logos] ([main.py], lines 83-113)

    [listdir folder files] is [os.listdir(folder)] on the file system
    [files], in whatever order the system returns the names. *)
Variable listdir : string → gset string → list string.

(** The run in which the tasks of each pool run one after the other, in the
    order of submission. *)
Definition download_logos_fifo (df_domain : list string) (w : world)
  : result world :=
  let selected_domains := selected_domains df_domain in
  let output_folder := "logos" in
  w1 ← process_all selected_domains output_folder w;
  files2 ← move_similar_logos_fifo output_folder
              (listdir output_folder (fs w1)) (fs w1);
  files3 ← delete_corrupted_images output_folder
              (listdir output_folder files2) files2;
  Ok (World files3 (hashes w1)).

(** The runs of [download_logos] under every schedule of its two pools.

    A fetch task touches the file of its own domain, and the registry only
    under [hash_lock]; the files of the selected domains are pairwise
    different, so a run of the fetch pool is the run of [process_logo] over
    the selected domains in some order [order]: the order in which the tasks
    take the lock, a task that ends before the lock standing anywhere.  The comparison pool is run by [pool_step] in any interleaving
    until every task has finished (the [with] block waits for them), and the
    sweep follows on the folder as it is then. *)
Inductive download_logos (df_domain : list string) (w : world)
  : result world → Prop :=
  | download_logos_intro order w1 files2 pool :
      order ≡ₚ selected_domains df_domain →
      process_all order "logos" w = Ok w1 →
      rtc (pool_step "logos")
          (fs w1, submitted_pool (listdir "logos" (fs w1))) (files2, pool) →
      Forall (fun t => t = Finished) pool →
      download_logos df_domain w
        (files3 ← delete_corrupted_images "logos"
                    (listdir "logos" files2) files2;
         Ok (World files3 (hashes w1))).

End Sweep.

(** A directory listing that can be run: the names [n] with [folder/n] in
    the file system, in the order of [elements]. *)
Fixpoint strip_prefix (pre s : string) : option string :=
  match pre with
  | EmptyString => Some s
  | String c pre' =>
      match s with
      | EmptyString => None
      | String c' s' => if decide (c = c') then strip_prefix pre' s' else None
      end
  end.

Definition listdir_elements (folder : string) (files : gset string) : list string :=
  omap (strip_prefix (folder +:+ "/")) (elements files).

(** ** The colour reports ([functions.py], lines 120-191; [main.py],
    lines 115-149) *)

(** [d[k] = v] on an insertion-ordered dictionary *)
Fixpoint dict_set {V : Type} (d : list (string * V)) (k : string) (v : V)
  : list (string * V) :=
  match d with
  | [] => [(k, v)]
  | (k', v') :: d' =>
      if decide (k' = k) then (k', v) :: d' else (k', v') :: dict_set d' k v
  end.

(** [min(d, key=d.get)]: the first key whose value is minimal *)
Fixpoint min_key_from (best : string * Z) (d : list (string * Z)) : string :=
  match d with
  | [] => best.1
  | (k, v) :: d' =>
      if v <? best.2 then min_key_from (k, v) d' else min_key_from best d'
  end.

Definition min_key (d : list (string * Z)) : result string :=
  match d with
  | [] => Raised (OtherException "ValueError")
  | kv :: d' => Ok (min_key_from kv d')
  end.

(** [color_groups[broad_color].append(logo)] *)
Fixpoint groups_append (color_groups : list (broad_color * list string))
    (color : option broad_color) (logo : string)
  : result (list (broad_color * list string)) :=
  match color_groups with
  | [] => Raised KeyError
  | (c, logos) :: rest =>
      if decide (Some c = color) then Ok ((c, logos ++ [logo]) :: rest)
      else rest' ← groups_append rest color logo; Ok ((c, logos) :: rest')
  end.

Inductive method : Type := Color | Minimalism | Emotion.

(** A tuple appended to [analysis_results]. *)
Inductive analysis_row : Type :=
  | ColorRow (logo : string) (main_color : option rgb) (color_group : string)
  | MinimalismRow (logo : string) (is_minimalist : bool)
  | EmotionRow (logo : string) (emotion : string).

(** The report files of [analyze_logos]; [None] is a file that does not
    exist.  A colour row of the CSV holds the cells Logo, Main_Color_RGB and
    Color_Group as text. *)
Record reports : Type := Reports {
  analysis_color_csv : option (list (string * string * string));
  analysis_minimalism_csv : option (list (string * bool));
  analysis_emotion_csv : option (list (string * string));
  color_analysis_md : option (list (broad_color * list string))
}.

Section ColorReports.

(** *** webcolors, ColorThief, pandas *)
Variable webcolors_names : list string.
Variable name_to_rgb : string → rgb.
(** [webcolors.rgb_to_name]; [None] is its [ValueError] *)
Variable rgb_to_name : rgb → option string.
(** [get_main_color]: the dominant colour, [None] when ColorThief fails *)
Variable get_main_color : string → option rgb.
(** the text pandas writes for a Main_Color_RGB cell *)
Variable str_of_color : option rgb → string.
(** [ast.literal_eval] of a cell, as far as [closest_broad_color] can use
    the value: the first three items of the literal, or the error raised by
    either of them *)
Variable literal_eval : string → result rgb.
Variable Image_open_header : string → result unit.
(** The error of a call of [extract_main_colors], where OpenCV cannot read
    the file or k-means cannot be fitted to its pixels; where there is none
    the call returns the clusters [extract_main_colors]. *)
Variable extract_main_colors_error : string → option exception.

Definition extract_main_colors_call (image_path : string) : result (list rgb) :=
  match extract_main_colors_error image_path with
  | Some e => Raised e
  | None => Ok (extract_main_colors image_path)
  end.

(** [closest_colour] ([functions.py], lines 129-138) *)
Definition distances (requested_colour : rgb) : list (string * Z) :=
  fold_left
    (fun d name => dict_set d name (distance2 (name_to_rgb name) requested_colour))
    webcolors_names [].

Definition closest_colour (requested_colour : rgb) : result string :=
  min_key (distances requested_colour).

(** [get_colour_name] ([functions.py], lines 153-160); on [None] the call
    of [webcolors.rgb_to_name] raises a [TypeError], which is not caught
    here. *)
Definition get_colour_name (requested_colour : option rgb)
  : result (option string * string) :=
  match requested_colour with
  | None => Raised (OtherException "TypeError")
  | Some c =>
      let actual_name := rgb_to_name c in
      closest_name ← closest_colour c;
      Ok (actual_name, closest_name)
  end.

(** [display_color_analysis] ([functions.py], lines 162-191): the groups
    built from the rows [(Logo, Main_Color_RGB)] of the CSV. *)
Definition color_groups_init : list (broad_color * list string) :=
  map (fun kv => (kv.1, [])) BROAD_COLORS.

Definition display_groups (rows : list (string * string))
  : list (broad_color * list string) :=
  fold_left
    (fun color_groups row =>
       match (rgb_tuple ← literal_eval row.2;
              groups_append color_groups (closest_broad_color rgb_tuple) row.1) with
       | Ok color_groups' => color_groups'
       | Raised _ => color_groups
       end)
    rows color_groups_init.

(** The broad colour under which a row is listed, if any. *)
Definition row_color (row : string * string) : option broad_color :=
  match literal_eval row.2 with
  | Ok rgb_tuple => closest_broad_color rgb_tuple
  | Raised _ => None
  end.

(** [pd.read_csv(csv_path)] at the head of [display_color_analysis], and the
    Markdown file it writes. *)
Definition display_color_analysis (st : reports) : result reports :=
  match analysis_color_csv st with
  | None => Raised FileNotFoundError
  | Some csv_file =>
      let rows := map (fun r => (r.1.1, r.1.2)) csv_file in
      Ok (Reports (analysis_color_csv st) (analysis_minimalism_csv st)
                  (analysis_emotion_csv st) (Some (display_groups rows)))
  end.

(** The body of the [try] in the loop of [analyze_logos]. *)
Definition analyze_file (m : method) (files : gset string) (filename : string)
  : result analysis_row :=
  let filepath := os_path_join "logos" filename in
  _ ← Image_open_at Image_open_header files filepath;
  match m with
  | Color =>
      let main_color := get_main_color filepath in
      names ← get_colour_name main_color;
      Ok (ColorRow filename main_color names.2)
  | Minimalism =>
      rgb_colors ← extract_main_colors_call filepath;
      let is_minimalist := describe_logo_colors rgb_colors in
      Ok (MinimalismRow filename is_minimalist)
  | Emotion =>
      _ ← extract_main_colors_call filepath;
      emotion ← analyze_emotion filepath;
      Ok (EmotionRow filename emotion)
  end.

(** The file is in the folder and [Image.open] accepts it. *)
Definition opens (files : gset string) (filename : string) : bool :=
  match Image_open_at Image_open_header files (os_path_join "logos" filename) with
  | Ok _ => true
  | Raised _ => false
  end.

(** [extract_main_colors] returns on the file. *)
Definition clusters (filename : string) : bool :=
  match extract_main_colors_error (os_path_join "logos" filename) with
  | Some _ => false
  | None => true
  end.

Definition analysis_results (m : method) (files : gset string)
    (listing : list string) : list analysis_row :=
  fold_left
    (fun results filename =>
       match analyze_file m files filename with
       | Ok row => results ++ [row]
       | Raised _ => results
       end)
    listing [].

Definition color_cells (row : analysis_row) : option (string * string * string) :=
  match row with
  | ColorRow logo main_color color_group =>
      Some (logo, str_of_color main_color, color_group)
  | _ => None
  end.

Definition minimalism_cells (row : analysis_row) : option (string * bool) :=
  match row with
  | MinimalismRow logo is_minimalist => Some (logo, is_minimalist)
  | _ => None
  end.

Definition emotion_cells (row : analysis_row) : option (string * string) :=
  match row with
  | EmotionRow logo emotion => Some (logo, emotion)
  | _ => None
  end.

(** [analyze_logos] ([main.py], lines 115-149); [listing] is
    [os.listdir("logos")].  For the colour method the Markdown report is
    produced from [analysis_color.csv] before that file is written. *)
Definition analyze_logos (m : method) (files : gset string)
    (listing : list string) (st : reports) : result reports :=
  let results := analysis_results m files listing in
  match m with
  | Color =>
      st' ← display_color_analysis st;
      Ok (Reports (Some (omap color_cells results))
                  (analysis_minimalism_csv st') (analysis_emotion_csv st')
                  (color_analysis_md st'))
  | Minimalism =>
      Ok (Reports (analysis_color_csv st) (Some (omap minimalism_cells results))
                  (analysis_emotion_csv st) (color_analysis_md st))
  | Emotion =>
      Ok (Reports (analysis_color_csv st) (analysis_minimalism_csv st)
                  (Some (omap emotion_cells results)) (color_analysis_md st))
  end.

End ColorReports.

(** ** Small instances of the external functions *)

Definition example_extract_main_colors (image_path : string) : list rgb :=
  if bool_decide (image_path = "logos/abc_1.png")
  then [(220, 20, 60); (255, 165, 0); (250, 10, 50)]
  else [(220, 20, 60); (30, 144, 255); (250, 250, 250)].

(** Images that are one grey level, darker by one towards the right. *)
Definition example_convert_ramp (img : Z) : Z := img.

Definition example_resize_ramp (img : Z) (size : nat * nat) : Z := img.

Definition example_getpixel_ramp (img : Z) (xy : nat * nat) : Z :=
  img - Z.of_nat xy.1.

(** The second logo of the example folder does not open. *)
Definition example_Image_open_header (path : string) : result unit :=
  if bool_decide (path = "logos/abc_2.png")
  then Raised (OtherException "UnidentifiedImageError")
  else Ok tt.

(** The folder [logos/sub] is a directory; no other entry is. *)
Definition example_isdir (path : string) : bool :=
  bool_decide (path = "logos/sub").

Definition example_no_dirs (path : string) : bool := false.

(** Arithmetic in which no operation has to round. *)
Definition example_fl (x : Q) : Q := x.

(** * Theorems *)

(** ** Nearest palette entry *)

Lemma closest_fold_first_min (c : rgb) (l : list (broad_color * rgb)) :
  l ≠ [] →
  ∃ (i : nat) (name : broad_color) (p : rgb),
    l !! i = Some (name, p) ∧
    fold_left (closest_step c) l (None, None)
      = (Some (distance2 c p), Some name) ∧
    ∀ (j : nat) (e : broad_color * rgb), l !! j = Some e →
      distance2 c p ≤ distance2 c e.2 ∧
      ((j < i)%nat → distance2 c p < distance2 c e.2).
Proof.
  induction l as [|x l IH] using rev_ind; [done|]. intros _.
  rewrite fold_left_app. simpl.
  destruct (decide (l = [])) as [->|Hne].
  - destruct x as [name p]. exists 0%nat, name, p. simpl.
    split_and!; [done..|].
    intros [|j] e He; simplify_eq/=. split; lia.
  - destruct (IH Hne) as (i & name & p & Hi & -> & Hmin).
    destruct x as [name' p']. unfold closest_step at 1. simpl.
    destruct (Z.ltb_spec (distance2 c p') (distance2 c p)) as [Hlt|Hge].
    + exists (length l), name', p'. split_and!.
      * by rewrite lookup_app_r, Nat.sub_diag.
      * done.
      * intros j e He. apply lookup_app_Some in He as [He|[Hj He]].
        -- destruct (Hmin j e He) as [Hle _]. split; lia.
        -- apply list_lookup_singleton_Some in He as [_ <-]. simpl.
           split; lia.
    + exists i, name, p. split_and!.
      * by apply lookup_app_l_Some.
      * done.
      * intros j e He. apply lookup_app_Some in He as [He|[Hj He]].
        -- by apply Hmin.
        -- apply list_lookup_singleton_Some in He as [Hj' <-]. simpl.
           apply lookup_lt_Some in Hi. split; lia.
Qed.

(** C8. [closest_broad_color] is total on the channel range 0..255: it
    returns one of the seven keys of [BROAD_COLORS], the returned entry is at
    minimal distance from the input, and an entry at the same distance is
    never listed before it, so a tie goes to the entry met first in the
    iteration order of the palette. *)
Theorem closest_broad_color_total (r g b : Z) :
  0 ≤ r ≤ 255 → 0 ≤ g ≤ 255 → 0 ≤ b ≤ 255 →
  ∃ (i : nat) (name : broad_color) (p : rgb),
    closest_broad_color (r, g, b) = Some name ∧
    name ∈ [Red; Orange; Yellow; Green; Blue; White; Black] ∧
    BROAD_COLORS !! i = Some (name, p) ∧
    ∀ (j : nat) (name' : broad_color) (p' : rgb),
      BROAD_COLORS !! j = Some (name', p') →
      distance2 (r, g, b) p ≤ distance2 (r, g, b) p' ∧
      (distance2 (r, g, b) p' = distance2 (r, g, b) p → (i ≤ j)%nat).
Proof.
  intros _ _ _.
  destruct (closest_fold_first_min (r, g, b) BROAD_COLORS) as
    (i & name & p & Hi & Hfold & Hmin); [done|].
  exists i, name, p. split_and!.
  - unfold closest_broad_color, closest_in. by rewrite Hfold.
  - clear. destruct name; rewrite !elem_of_cons; naive_solver.
  - done.
  - intros j name' p' Hj. destruct (Hmin j _ Hj) as [Hle Hlt]. simpl in *.
    split; [done|]. intros Heq.
    destruct (decide (i ≤ j)%nat); [done|]. lia.
Qed.

Lemma closest_broad_color_is_Some (c : rgb) : is_Some (closest_broad_color c).
Proof.
  destruct (closest_fold_first_min c BROAD_COLORS) as
    (i & name & p & _ & Hfold & _); [done|].
  exists name. unfold closest_broad_color, closest_in. by rewrite Hfold.
Qed.

(** ** Counters *)

Section CounterFacts.
Context {K : Type} `{EqDecision K}.
Implicit Types (c : list (K * Z)) (l : list K).

Lemma counter_incr_keys k c :
  (counter_incr k c).*1 = if decide (k ∈ c.*1) then c.*1 else c.*1 ++ [k].
Proof.
  induction c as [|[k' n] c IH].
  - rewrite decide_False; [done|]. apply not_elem_of_nil.
  - cbn [counter_incr fmap list_fmap fst].
    destruct (decide (k' = k)) as [->|Hne]; cbn [fmap list_fmap fst].
    + rewrite decide_True; [done|]. apply list_elem_of_here.
    + rewrite IH. destruct (decide (k ∈ c.*1)) as [Hin|Hnin].
      * rewrite decide_True; [done|]. by apply list_elem_of_further.
      * rewrite decide_False; [done|].
        rewrite elem_of_cons. naive_solver.
Qed.

Lemma counter_incr_weighted f k c :
  weighted f (counter_incr k c) = weighted f c + f k.
Proof.
  unfold weighted.
  induction c as [|[k' n] c IH]; simpl; [lia|].
  destruct (decide (k' = k)) as [->|Hne]; simpl; lia.
Qed.

Lemma Counter_fold_keys l c :
  NoDup c.*1 →
  NoDup (fold_left (fun c k => counter_incr k c) l c).*1 ∧
  ∀ x, x ∈ (fold_left (fun c k => counter_incr k c) l c).*1
       ↔ x ∈ c.*1 ∨ x ∈ l.
Proof.
  revert c. induction l as [|k l IH]; intros c Hnd; simpl.
  - split; [done|]. intros x. rewrite elem_of_nil. tauto.
  - assert (NoDup (counter_incr k c).*1) as Hnd'.
    { rewrite counter_incr_keys. case_decide; [done|].
      apply NoDup_app. split_and!; [done| |apply NoDup_singleton].
      intros x Hx ->%list_elem_of_singleton. done. }
    destruct (IH _ Hnd') as [Hnd'' Hel]. split; [done|].
    intros x. rewrite Hel, counter_incr_keys, elem_of_cons.
    case_decide as Hk.
    + split; [naive_solver|]. intros [?|[->|?]]; auto.
    + rewrite elem_of_app, list_elem_of_singleton. naive_solver.
Qed.

Lemma Counter_keys_NoDup l : NoDup (Counter l).*1.
Proof. apply Counter_fold_keys. constructor. Qed.

Lemma Counter_keys_elem_of l x : x ∈ (Counter l).*1 ↔ x ∈ l.
Proof.
  unfold Counter. destruct (Counter_fold_keys l []) as [_ ->]; [constructor|].
  simpl. rewrite elem_of_nil. tauto.
Qed.

Lemma Counter_length l : length (Counter l) = length (remove_dups l).
Proof.
  rewrite <-(length_fmap fst). apply Permutation_length, NoDup_Permutation.
  - apply Counter_keys_NoDup.
  - apply NoDup_remove_dups.
  - intros x. by rewrite Counter_keys_elem_of, elem_of_remove_dups.
Qed.

Lemma Counter_weighted f l : weighted f (Counter l) = sum_Z (map f l).
Proof.
  unfold Counter.
  assert (∀ c, weighted f (fold_left (fun c k => counter_incr k c) l c)
               = weighted f c + sum_Z (map f l)) as Hgen.
  { induction l as [|k l IH]; intros c; simpl; [lia|].
    rewrite IH, counter_incr_weighted. lia. }
  rewrite Hgen. unfold weighted. simpl. lia.
Qed.

Lemma insert_by_count_perm (x : K * Z) c : insert_by_count x c ≡ₚ x :: c.
Proof.
  induction c as [|y c IH]; simpl; [done|].
  destruct (x.2 <? y.2); [|done].
  rewrite IH. apply Permutation_swap.
Qed.

Lemma sort_by_count_perm c : sort_by_count c ≡ₚ c.
Proof.
  induction c as [|x c IH]; simpl; [done|].
  by rewrite insert_by_count_perm, IH.
Qed.

Lemma weighted_perm f c c' : c ≡ₚ c' → weighted f c = weighted f c'.
Proof.
  unfold weighted. induction 1; simpl; lia.
Qed.

Lemma most_common_all (n : nat) c :
  (length c ≤ n)%nat → most_common n c = sort_by_count c.
Proof.
  intros Hlen. unfold most_common. apply take_ge.
  by rewrite (Permutation_length (sort_by_count_perm c)).
Qed.

(** Counting the clusters bucket by bucket adds up to counting them all. *)
Lemma sum_indicator (f : K → Z) (a : K) (d : list K) :
  NoDup d → a ∈ d →
  sum_Z (map (fun b => f b * (if decide (b = a) then 1 else 0)) d) = f a.
Proof.
  induction 1 as [|b d Hb Hnd IH]; intros Ha; [by apply elem_of_nil in Ha|].
  simpl. apply elem_of_cons in Ha as [->|Ha].
  - rewrite decide_True by done.
    assert (sum_Z (map (fun x => f x * (if decide (x = b) then 1 else 0)) d) = 0)
      as ->; [|lia].
    clear IH Hnd. induction d as [|x d IHd]; simpl; [done|].
    rewrite not_elem_of_cons in Hb. destruct Hb as [Hne Hb].
    rewrite decide_False by done. rewrite IHd by done. lia.
  - rewrite decide_False by (intros ->; done). rewrite IH by done. lia.
Qed.

Lemma sum_by_bucket (f : K → Z) (l d : list K) :
  NoDup d → (∀ x, x ∈ l → x ∈ d) →
  sum_Z (map (fun b => f b * Z.of_nat (length (filter (fun x => x = b) l))) d)
  = sum_Z (map f l).
Proof.
  intros Hnd. induction l as [|a l IH]; intros Hsub; simpl.
  - induction d as [|b d IHd]; simpl; [done|].
    apply NoDup_cons in Hnd as [_ Hnd]. rewrite IHd; [lia|done|].
    intros x Hx. by apply elem_of_nil in Hx.
  - rewrite <-IH by (intros x Hx; apply Hsub; by right).
    rewrite <-(sum_indicator f a d Hnd) at 1 by (apply Hsub; by left).
    clear. induction d as [|b d IHd]; simpl; [done|].
    rewrite filter_cons. destruct (decide (a = b)) as [->|Hne].
    + rewrite decide_True by done. simpl length. lia.
    + rewrite (decide_False (P := b = a)) by done. lia.
Qed.
End CounterFacts.

(** ** Minimalism and emotion *)

Lemma buckets_Some (colors : list rgb) :
  map closest_broad_color colors = Some <$> buckets colors.
Proof.
  unfold buckets. induction colors as [|c colors IH]; [done|].
  destruct (closest_broad_color_is_Some c) as [name Hname].
  cbn [map omap list_omap]. rewrite Hname. cbn [fmap list_fmap].
  f_equal. exact IH.
Qed.

Lemma remove_dups_Some_length (l : list broad_color) :
  length (remove_dups (Some <$> l)) = length (remove_dups l).
Proof.
  rewrite <-(length_fmap Some (remove_dups l)).
  apply Permutation_length, NoDup_Permutation.
  - apply NoDup_remove_dups.
  - apply (NoDup_fmap_2 _), NoDup_remove_dups.
  - intros x. rewrite elem_of_remove_dups, !list_elem_of_fmap.
    by setoid_rewrite elem_of_remove_dups.
Qed.

Lemma distinct_buckets_length (colors : list rgb) :
  (length (distinct_buckets colors) ≤ 7)%nat.
Proof.
  change 7%nat with (length [Red; Orange; Yellow; Green; Blue; White; Black]).
  apply submseteq_length, NoDup_submseteq; [apply NoDup_remove_dups|].
  intros x _. destruct x; rewrite !elem_of_cons; naive_solver.
Qed.

Lemma color_groups_length (colors : list rgb) :
  length (Counter (map closest_broad_color colors))
  = length (distinct_buckets colors).
Proof.
  by rewrite Counter_length, buckets_Some, remove_dups_Some_length.
Qed.

Lemma most_common_8_colors (colors : list rgb) :
  most_common 8 (Counter (map closest_broad_color colors))
  = sort_by_count (Counter (map closest_broad_color colors)).
Proof.
  apply most_common_all. rewrite color_groups_length.
  pose proof (distinct_buckets_length colors). lia.
Qed.

(** C6. [describe_logo_colors] answers [True] exactly when the cluster
    colours fall into at most two distinct broad-colour buckets (the eight
    most common buckets are all of them, there being seven); five clusters
    over two buckets give [True], five clusters over four buckets [False]. *)
Theorem describe_logo_colors_iff (rgb_colors : list rgb) :
  (describe_logo_colors rgb_colors = true
   ↔ (length (distinct_buckets rgb_colors) ≤ 2)%nat) ∧
  (length rgb_colors = 5%nat → length (distinct_buckets rgb_colors) = 2%nat →
   describe_logo_colors rgb_colors = true) ∧
  (length rgb_colors = 5%nat → length (distinct_buckets rgb_colors) = 4%nat →
   describe_logo_colors rgb_colors = false).
Proof.
  assert (describe_logo_colors rgb_colors
          = bool_decide (length (distinct_buckets rgb_colors) ≤ 2)%nat) as Heq.
  { unfold describe_logo_colors.
    rewrite most_common_8_colors.
    rewrite (Permutation_length (sort_by_count_perm _)), color_groups_length.
    by destruct (bool_decide _). }
  rewrite Heq. split_and!.
  - apply bool_decide_eq_true.
  - intros _ ->. done.
  - intros _ ->. done.
Qed.

Lemma COLOR_WARMTH_item_Some (c : broad_color) :
  COLOR_WARMTH_item (Some c) = Ok (warmth c).
Proof. by destruct c. Qed.

Lemma warmth_terms_Ok (color_groups : list (option broad_color * Z)) :
  Forall (fun kn => is_Some kn.1) color_groups →
  warmth_terms color_groups
  = Ok (map (fun kn => from_option warmth 0 kn.1 * kn.2) color_groups).
Proof.
  unfold warmth_terms.
  induction 1 as [|[color count] l Hc _ IH]; [done|].
  simpl in Hc. destruct Hc as [c ->].
  cbn [mapM]. rewrite COLOR_WARMTH_item_Some, IH. done.
Qed.

Lemma emotion_label_bands (s : Q) :
  ((1 # 2 < s)%Q → emotion_label s = "Energetic & Passionate") ∧
  ((0 < s)%Q → (s <= 1 # 2)%Q → emotion_label s = "Warm & Friendly") ∧
  ((s < - (1 # 2))%Q → emotion_label s = "Cool & Professional") ∧
  ((- (1 # 2) <= s)%Q → (s < 0)%Q → emotion_label s = "Calm & Trustworthy") ∧
  ((s == 0)%Q → emotion_label s = "Balanced & Neutral").
Proof.
  assert (∀ x y, Qltb x y = true ↔ (x < y)%Q) as Hlt.
  { intros x y. unfold Qltb. rewrite negb_true_iff.
    rewrite <-not_true_iff_false, Qle_bool_iff. split; [apply Qnot_le_lt|apply Qlt_not_le]. }
  assert (∀ x y, Qltb x y = false ↔ (y <= x)%Q) as Hge.
  { intros x y. unfold Qltb. by rewrite negb_false_iff, Qle_bool_iff. }
  unfold emotion_label. split_and!.
  - intros H1. apply Hlt in H1. by rewrite H1.
  - intros H1 H2. apply Hlt in H1. apply Hge in H2. by rewrite H2, H1.
  - intros H1.
    assert (Qltb (1 # 2) s = false) as -> by (apply Hge; lra).
    assert (Qltb 0 s = false) as -> by (apply Hge; lra).
    apply Hlt in H1. by rewrite H1.
  - intros H1 H2.
    assert (Qltb (1 # 2) s = false) as -> by (apply Hge; lra).
    assert (Qltb 0 s = false) as -> by (apply Hge; lra).
    apply Hge in H1. apply Hlt in H2. by rewrite H1, H2.
  - intros H0.
    assert (Qltb (1 # 2) s = false) as -> by (apply Hge; lra).
    assert (Qltb 0 s = false) as -> by (apply Hge; lra).
    assert (Qltb s (- (1 # 2)) = false) as -> by (apply Hge; lra).
    assert (Qltb s 0 = false) as -> by (apply Hge; lra).
    done.
Qed.

(** C4. [analyze_emotion] weights every broad-colour bucket of the image's
    cluster colours by its warmth (Red, Orange, Yellow +1; Green, Blue -1;
    White, Black 0) times its size, divides by the number of distinct buckets
    present, and maps the score to one of the five labels through the bands
    > 0.5, > 0, < -0.5, < 0, otherwise neutral.  With no cluster colour at
    all the division raises. *)
Theorem analyze_emotion_spec (image_path : string) :
  analyze_emotion image_path
  = match extract_main_colors image_path with
    | [] => Raised ZeroDivisionError
    | _ :: _ =>
        Ok (emotion_label (classifyEmotion_score (extract_main_colors image_path)))
    end ∧
  ∀ s : Q,
    ((1 # 2 < s)%Q → emotion_label s = "Energetic & Passionate") ∧
    ((0 < s)%Q → (s <= 1 # 2)%Q → emotion_label s = "Warm & Friendly") ∧
    ((s < - (1 # 2))%Q → emotion_label s = "Cool & Professional") ∧
    ((- (1 # 2) <= s)%Q → (s < 0)%Q → emotion_label s = "Calm & Trustworthy") ∧
    ((s == 0)%Q → emotion_label s = "Balanced & Neutral").
Proof.
  split; [|apply emotion_label_bands].
  unfold analyze_emotion.
  set (colors := extract_main_colors image_path).
  rewrite most_common_8_colors.
  set (groups := sort_by_count (Counter (map closest_broad_color colors))).
  assert (groups ≡ₚ Counter (map closest_broad_color colors)) as Hperm
    by apply sort_by_count_perm.
  rewrite warmth_terms_Ok; last first.
  { apply Forall_forall. intros [k n] Hin. simpl.
    assert (k ∈ (Counter (map closest_broad_color colors)).*1) as Hk.
    { rewrite <-Hperm. apply list_elem_of_fmap. by exists (k, n). }
    apply (proj1 (Counter_keys_elem_of _ _)) in Hk. rewrite buckets_Some in Hk.
    apply list_elem_of_fmap in Hk as (c & -> & _). by eexists. }
  cbn [mbind result_bind rbind].
  assert (sum_Z (map (fun kn => from_option warmth 0 kn.1 * kn.2) groups)
          = sum_Z (map (fun b => warmth b * bucket_size b colors)
                               (distinct_buckets colors))) as ->.
  { change (sum_Z (map ?g groups)) with (weighted (from_option warmth 0) groups).
    rewrite (weighted_perm _ _ _ Hperm), Counter_weighted, buckets_Some.
    rewrite <-list_fmap_compose. unfold compose. simpl.
    symmetry. apply (sum_by_bucket warmth); [apply NoDup_remove_dups|].
    intros x Hx. by apply elem_of_remove_dups. }
  rewrite (Permutation_length Hperm), color_groups_length.
  unfold truediv.
  destruct colors as [|c colors'] eqn:Hcolors; [done|].
  destruct (Z.eqb_spec (Z.of_nat (length (distinct_buckets (c :: colors')))) 0)
    as [Hz|Hnz]; [|done].
  exfalso. apply Nat2Z.inj_iff with (m := 0%nat), length_zero_iff_nil in Hz.
  assert (∃ b, b ∈ buckets (c :: colors')) as [b Hb].
  { destruct (closest_broad_color_is_Some c) as [b Hb]. exists b.
    unfold buckets. cbn [omap list_omap]. rewrite Hb. left. }
  apply elem_of_remove_dups in Hb. unfold distinct_buckets in Hz.
  rewrite Hz in Hb. by apply elem_of_nil in Hb.
Qed.

(** ** Brand extraction and brand selection *)

Lemma split_at_nonempty (sep : ascii → bool) (s : string) : split_at sep s ≠ [].
Proof. destruct s as [|c s]; simpl; [done|]. by repeat case_match. Qed.

(** The first piece of a split is the longest prefix free of separators. *)
Lemma split_at_first (sep : ascii → bool) (s : string) :
  ∃ rest : string,
    s = item0 (split_at sep s) +:+ rest ∧
    Forall (fun c => sep c = false) (String.list_ascii_of_string (item0 (split_at sep s))) ∧
    (rest = EmptyString ∨ ∃ c r, rest = String c r ∧ sep c = true).
Proof.
  induction s as [|c s (rest & Hs & Hfree & Hrest)]; simpl.
  - exists EmptyString. split_and!; [done|constructor|by left].
  - destruct (sep c) eqn:Hc.
    + exists (String c s). split_and!; [done|constructor|right; eauto].
    + destruct (split_at sep s) as [|w ws] eqn:Hsplit.
      { by apply split_at_nonempty in Hsplit. }
      exists rest. unfold item0 in *. simpl in *. split_and!.
      * by rewrite Hs at 1.
      * by constructor.
      * done.
Qed.

Lemma list_ascii_of_string_app (s t : string) :
  String.list_ascii_of_string (s +:+ t) = String.list_ascii_of_string s ++ String.list_ascii_of_string t.
Proof.
  induction s as [|c s IH]; [done|].
  change (c :: String.list_ascii_of_string (s +:+ t)
          = c :: (String.list_ascii_of_string s ++ String.list_ascii_of_string t)).
  by f_equal.
Qed.

Lemma string_app_assoc (s t u : string) : (s +:+ t) +:+ u = s +:+ (t +:+ u).
Proof.
  induction s as [|c s IH]; [done|].
  change (String c ((s +:+ t) +:+ u) = String c (s +:+ t +:+ u)). by f_equal.
Qed.

Lemma extract_brand_prefix (domain : string) :
  ∃ rest : string,
    domain = extract_brand domain +:+ rest ∧
    Forall (fun c => ¬ separator c) (String.list_ascii_of_string (extract_brand domain)) ∧
    (rest = EmptyString ∨ ∃ c r, rest = String c r ∧ separator c).
Proof.
  unfold extract_brand.
  destruct (split_at_first is_dot domain) as (r1 & H1 & Hfree1 & Hr1).
  set (label := item0 (split_at is_dot domain)) in H1, Hfree1 |- *.
  destruct (split_at_first is_dash_or_underscore label) as (r2 & H2 & Hfree2 & Hr2).
  set (brand := item0 (split_at is_dash_or_underscore label)) in H2, Hfree2 |- *.
  exists (r2 +:+ r1). split_and!.
  - by rewrite <-string_app_assoc, <-H2.
  - rewrite H2, list_ascii_of_string_app, Forall_app in Hfree1.
    destruct Hfree1 as [Hfree1 _].
    rewrite Forall_forall in Hfree1, Hfree2. apply Forall_forall. intros c Hc.
    specialize (Hfree1 c Hc). specialize (Hfree2 c Hc).
    unfold is_dot in Hfree1. unfold is_dash_or_underscore in Hfree2.
    apply bool_decide_eq_false in Hfree1.
    apply orb_false_iff in Hfree2 as [Ha%bool_decide_eq_false Hb%bool_decide_eq_false].
    unfold separator. intros [?|[?|?]]; done.
  - destruct Hr2 as [->|(c & r & -> & Hc)].
    + destruct Hr1 as [->|(c & r & -> & Hc)]; [by left|right].
      exists c, r. split; [done|]. left. by apply bool_decide_eq_true in Hc.
    + right. exists c, (r +:+ r1). split; [done|]. right.
      unfold is_dash_or_underscore in Hc.
      apply orb_true_iff in Hc as [Hc%bool_decide_eq_true|Hc%bool_decide_eq_true]; auto.
Qed.

Section Dict.
Context {V : Type}.
Implicit Types (d : list (string * V)).

Lemma dict_get_elem_of d k v : dict_get d k = Some v → (k, v) ∈ d.
Proof.
  induction d as [|[k' v'] d IH]; simpl; [done|].
  destruct (decide (k' = k)) as [->|Hne].
  - intros [= ->]. left.
  - intros H. right. by apply IH.
Qed.

Lemma dict_get_NoDup d k v : NoDup d.*1 → (k, v) ∈ d → dict_get d k = Some v.
Proof.
  induction d as [|[k' v'] d IH]; simpl; intros Hnd Hin.
  - by apply elem_of_nil in Hin.
  - apply NoDup_cons in Hnd as [Hk' Hnd].
    apply elem_of_cons in Hin as [[= -> ->]|Hin].
    + by rewrite decide_True.
    + rewrite decide_False; [by apply IH|].
      intros ->. apply Hk'. apply list_elem_of_fmap. by exists (k, v).
Qed.
End Dict.

Lemma defaultdict_append_keys d brand domain :
  (defaultdict_append d brand domain).*1
  = if decide (brand ∈ d.*1) then d.*1 else d.*1 ++ [brand].
Proof.
  induction d as [|[b ds] d IH].
  - rewrite decide_False; [done|]. apply not_elem_of_nil.
  - cbn [defaultdict_append fmap list_fmap fst].
    destruct (decide (b = brand)) as [->|Hne]; cbn [fmap list_fmap fst].
    + rewrite decide_True; [done|]. left.
    + rewrite IH. destruct (decide (brand ∈ d.*1)) as [Hin|Hnin].
      * rewrite decide_True; [done|]. by right.
      * rewrite decide_False; [done|]. rewrite elem_of_cons.
        intros [?|?]; congruence.
Qed.

Lemma defaultdict_append_get d brand domain k :
  dict_get (defaultdict_append d brand domain) k
  = if decide (k = brand)
    then Some (default [] (dict_get d brand) ++ [domain])
    else dict_get d k.
Proof.
  induction d as [|[b ds] d IH]; cbn [defaultdict_append dict_get].
  - destruct (decide (k = brand)) as [->|Hne].
    + by rewrite decide_True.
    + by rewrite decide_False.
  - destruct (decide (b = brand)) as [->|Hne]; cbn [dict_get].
    + destruct (decide (brand = k)) as [->|Hne'].
      * by rewrite decide_True.
      * by rewrite decide_False.
    + destruct (decide (b = k)) as [->|Hne'].
      * by rewrite decide_False.
      * rewrite IH. done.
Qed.

(** After the grouping loop, each brand is mapped to its domains in input
    order, and to nothing else. *)
Lemma brand_dict_fold (domains : list string) :
  ∀ (d : list (string * list string)) (seen : list string),
    NoDup d.*1 →
    (∀ k, dict_get d k
          = match filter (of_brand k) seen with [] => None | ds => Some ds end) →
    let d' := fold_left (fun d domain =>
                defaultdict_append d (extract_brand domain) domain) domains d in
    NoDup d'.*1 ∧
    ∀ k, dict_get d' k
         = match filter (of_brand k) (seen ++ domains) with
           | [] => None
           | ds => Some ds
           end.
Proof.
  induction domains as [|domain domains IH]; intros d seen Hnd Hget; simpl.
  - by rewrite app_nil_r.
  - replace (seen ++ domain :: domains) with ((seen ++ [domain]) ++ domains)
      by by rewrite <-app_assoc.
    apply IH.
    + rewrite defaultdict_append_keys. case_decide; [done|].
      apply NoDup_app. split_and!; [done| |apply NoDup_singleton].
      intros x Hx ->%list_elem_of_singleton. done.
    + intros k. rewrite defaultdict_append_get, filter_app.
      destruct (decide (k = extract_brand domain)) as [->|Hne].
      * rewrite Hget.
        rewrite (filter_cons_True _ domain) by done. rewrite filter_nil.
        destruct (filter _ seen); done.
      * rewrite filter_cons_False by (unfold of_brand; congruence).
        rewrite filter_nil, app_nil_r. apply Hget.
Qed.

Lemma brand_dict_spec (df_domain : list string) :
  NoDup (brand_dict df_domain).*1 ∧
  ∀ k, dict_get (brand_dict df_domain) k
       = match filter (of_brand k) df_domain with [] => None | ds => Some ds end.
Proof.
  apply (brand_dict_fold df_domain [] []); [constructor|done].
Qed.

Lemma brand_dict_values_nonempty (df_domain : list string) k ds :
  (k, ds) ∈ brand_dict df_domain → ds ≠ [].
Proof.
  destruct (brand_dict_spec df_domain) as [Hnd Hget]. intros Hin.
  apply (dict_get_NoDup _ _ _ Hnd) in Hin. rewrite Hget in Hin.
  destruct (filter _ df_domain); [done|]. by injection Hin as <-.
Qed.

Lemma filter_head_first {A} (P : A → Prop) `{∀ x, Decision (P x)} (l : list A) x ds :
  filter P l = x :: ds →
  P x ∧ ∃ l1 l2, l = l1 ++ x :: l2 ∧ Forall (fun y => ¬ P y) l1.
Proof.
  induction l as [|a l IH]; [done|].
  rewrite filter_cons. destruct (decide (P a)) as [Ha|Hna].
  - intros [= -> <-]. split; [done|]. exists [], l. by split.
  - intros Hf. destruct (IH Hf) as (Hx & l1 & l2 & -> & Hl1).
    split; [done|]. exists (a :: l1), l2. split; [done|]. by constructor.
Qed.

(** X25. [extract_brand] keeps the longest prefix of the domain free of the
    characters '.', '-' and '_': everything from the first dot on and
    everything from the first dash or underscore on is dropped;
    "foo-bar.com" and "foobaz.net" give "foo" and "foobaz", and both domains
    are selected.  The selection of [download_logos] keeps, for each brand
    among the input domains, the domain that came first, so no two selected
    domains share a brand. *)
Theorem selected_domains_one_per_brand (df_domain : list string) :
  (∀ domain, ∃ rest : string,
      domain = extract_brand domain +:+ rest ∧
      Forall (fun c => ¬ separator c) (String.list_ascii_of_string (extract_brand domain)) ∧
      (rest = EmptyString ∨ ∃ c r, rest = String c r ∧ separator c)) ∧
  extract_brand "foo-bar.com" = "foo" ∧
  extract_brand "foobaz.net" = "foobaz" ∧
  selected_domains ["foo-bar.com"; "foobaz.net"] = ["foo-bar.com"; "foobaz.net"] ∧
  NoDup (map extract_brand (selected_domains df_domain)) ∧
  (∀ domain, domain ∈ selected_domains df_domain →
     ∃ before after, df_domain = before ++ domain :: after ∧
       Forall (fun d => extract_brand d ≠ extract_brand domain) before) ∧
  (∀ domain, domain ∈ df_domain →
     ∃ kept, kept ∈ selected_domains df_domain ∧
             extract_brand kept = extract_brand domain).
Proof.
  destruct (brand_dict_spec df_domain) as [Hnd Hget].
  assert (∀ k ds, (k, ds) ∈ brand_dict df_domain →
            ∃ x ds', ds = x :: ds' ∧ filter (of_brand k) df_domain = x :: ds')
    as Hentry.
  { intros k ds Hin. apply (dict_get_NoDup _ _ _ Hnd) in Hin.
    rewrite Hget in Hin. destruct (filter _ df_domain) as [|x ds'] eqn:Hf; [done|].
    injection Hin as <-. eauto. }
  split_and!; [apply extract_brand_prefix|done|done|done| | |].
  - unfold selected_domains.
    assert (map extract_brand (map (fun kv => item0 kv.2) (brand_dict df_domain))
            = (brand_dict df_domain).*1) as ->; [|done].
    rewrite map_map. apply map_ext_in. intros [k ds] Hin%list_elem_of_In.
    destruct (Hentry k ds Hin) as (x & ds' & -> & Hf). simpl.
    by apply filter_head_first in Hf as [Hx _].
  - intros domain Hin. unfold selected_domains in Hin.
    apply list_elem_of_fmap in Hin as ([k ds] & -> & Hin).
    destruct (Hentry k ds Hin) as (x & ds' & -> & Hf). simpl.
    apply filter_head_first in Hf as (Hx & l1 & l2 & -> & Hl1).
    exists l1, l2. split; [done|].
    eapply Forall_impl; [exact Hl1|]. simpl.
    intros d Hd Heq. apply Hd. unfold of_brand, item0 in *. simpl in Heq.
    congruence.
  - intros domain Hin.
    specialize (Hget (extract_brand domain)).
    destruct (filter (of_brand (extract_brand domain)) df_domain) as [|x ds] eqn:Hf.
    { exfalso. assert (domain ∈ filter (of_brand (extract_brand domain)) df_domain)
        as Hd by by apply list_elem_of_filter.
      rewrite Hf in Hd. by apply elem_of_nil in Hd. }
    apply dict_get_elem_of in Hget. exists x. split.
    + unfold selected_domains. apply list_elem_of_fmap.
      by exists (extract_brand domain, x :: ds).
    + by apply filter_head_first in Hf as [Hx _].
Qed.

(** C5. On a domain with more than one dot [extract_brand] does not remove
    the top-level suffix only: it returns what stands before the first dot.
    "www.foo.com" and "www.bar.com" both get the brand "www", so
    [download_logos] takes them for one brand, selects the first and never
    fetches the second. *)
Theorem extract_brand_first_label :
  extract_brand "www.foo.com" = "www" ∧
  extract_brand "www.bar.com" = "www" ∧
  selected_domains ["www.foo.com"; "www.bar.com"] = ["www.foo.com"].
Proof. by vm_compute. Qed.

(** ** The difference hash *)

Lemma join_bits_length (bits : list bool) :
  String.length (foldr String.append EmptyString (map bit_string bits))
  = length bits.
Proof. induction bits as [|[] bits IH]; simpl; by f_equal. Qed.

Lemma join_bits_get (bits : list bool) (i : nat) :
  String.get i (foldr String.append EmptyString (map bit_string bits))
  = bit_char <$> bits !! i.
Proof.
  revert i. induction bits as [|d bits IH]; intros i; [by destruct i|].
  destruct i as [|i]; [by destruct d|]. destruct d; apply IH.
Qed.

Lemma flat_map_rows_length {A B} (f : A → list B) (n : nat) (rows : list A) :
  (∀ a, length (f a) = n) → length (flat_map f rows) = (length rows * n)%nat.
Proof.
  intros Hrow. induction rows as [|a rows IH]; simpl; [done|].
  rewrite length_app, Hrow, IH. done.
Qed.

Lemma flat_map_rows_lookup {A B} (f : A → list B) (n : nat) (rows : list A)
    (k x : nat) (a : A) :
  (∀ a, length (f a) = n) → (x < n)%nat → rows !! k = Some a →
  flat_map f rows !! (k * n + x)%nat = f a !! x.
Proof.
  intros Hrow Hx. revert k. induction rows as [|b rows IH]; intros k Hk; [done|].
  simpl. destruct k as [|k]; simpl in *.
  - injection Hk as ->. apply lookup_app_l. by rewrite Hrow.
  - rewrite lookup_app_r by (rewrite Hrow; lia).
    rewrite Hrow. replace (n + k * n + x - n)%nat with (k * n + x)%nat by lia.
    by apply IH.
Qed.

Lemma flat_map_ext_elem_of {A B} (f g : A → list B) (l : list A) :
  (∀ a, a ∈ l → f a = g a) → flat_map f l = flat_map g l.
Proof.
  induction l as [|a l IH]; intros Hfg; simpl; [done|].
  rewrite Hfg by left. rewrite IH; [done|]. intros b Hb. apply Hfg. by right.
Qed.

Lemma dhash_diff_length (img : image) (n : nat) :
  length (dhash_diff img n) = (n * n)%nat.
Proof.
  unfold dhash_diff. rewrite (flat_map_rows_length _ n).
  - by rewrite length_seq.
  - intros y. by rewrite length_map, length_seq.
Qed.

Lemma dhash_diff_lookup (img : image) (n x y : nat) :
  (x < n)%nat → (y < n)%nat →
  dhash_diff img n !! (y * n + x)%nat
  = Some (getpixel img (x, y) >? getpixel img (x + 1, y)%nat).
Proof.
  intros Hx Hy. unfold dhash_diff.
  rewrite (flat_map_rows_lookup _ n _ y x y).
  - change (map ?f ?l) with (f <$> l).
    by rewrite list_lookup_fmap, lookup_seq_lt.
  - intros a. by rewrite length_map, length_seq.
  - done.
  - by rewrite lookup_seq_lt.
Qed.

Lemma dhash_diff_ext (img img' : image) (n : nat) :
  (∀ x y, (x ≤ n)%nat → (y < n)%nat → getpixel img' (x, y) = getpixel img (x, y)) →
  dhash_diff img' n = dhash_diff img n.
Proof.
  intros Hpx. unfold dhash_diff. apply flat_map_ext_elem_of.
  intros y [_ Hy]%elem_of_seq. apply map_ext_in.
  intros x [_ Hx]%list_elem_of_In%elem_of_seq.
  rewrite !Hpx by lia. done.
Qed.

(** C2. [dhash] turns the image into luminance, resizes it to
    (N+1) x N, and writes one character per pair of horizontal neighbours,
    row by row: the character at position [y * N + x] is "1" exactly when
    the pixel at (x, y) is strictly brighter than the one at (x + 1, y).  The
    hash has N * N characters, 64 for the default N = 8, and it is a
    function of the N rows of N + 1 resized pixels only: two images with the
    same resized pixels have the same hash. *)
Theorem dhash_bits (img : image) (hash_size : nat) :
  let small (i : image) :=
    resize_LANCZOS (convert_L i) (hash_size + 1, hash_size)%nat in
  String.length (dhash img hash_size) = (hash_size * hash_size)%nat ∧
  (∀ x y : nat, (x < hash_size)%nat → (y < hash_size)%nat →
     String.get (y * hash_size + x) (dhash img hash_size)
     = Some (if bool_decide (getpixel (small img) (x + 1, y)%nat
                             < getpixel (small img) (x, y))
             then "1"%char else "0"%char)) ∧
  String.length (dhash img 8) = 64%nat ∧
  (∀ img' : image,
     (∀ x y : nat, (x ≤ hash_size)%nat → (y < hash_size)%nat →
        getpixel (small img') (x, y) = getpixel (small img) (x, y)) →
     dhash img' hash_size = dhash img hash_size).
Proof.
  intros small. split_and!.
  - unfold dhash. by rewrite join_bits_length, dhash_diff_length.
  - intros x y Hx Hy. unfold dhash.
    change (map (fun d : bool => if d then "1" else "0")) with (map bit_string).
    rewrite join_bits_get, dhash_diff_lookup by done. simpl. f_equal.
    fold (small img). unfold bit_char.
    destruct (Z.gtb_spec (getpixel (small img) (x, y))
                         (getpixel (small img) (x + 1, y)%nat)).
    + by rewrite bool_decide_eq_true_2.
    + by rewrite bool_decide_eq_false_2 by lia.
  - unfold dhash. by rewrite join_bits_length, dhash_diff_length.
  - intros img' Hpx. unfold dhash. f_equal. f_equal.
    by apply dhash_diff_ext.
Qed.

(** ** Histogram correlation of an image with itself *)

Lemma Rsum_sq_shift (h : list R) (m : R) :
  Rsum (map (fun a => (a - m) * (a - m))%R h)
  = (Rsum (zip_with Rmult h h) - 2 * m * Rsum h + INR (length h) * m * m)%R.
Proof.
  induction h as [|a h IH].
  - simpl. ring.
  - cbn [map zip_with Rsum foldr length]. fold (Rsum (map (fun a => (a - m) * (a - m))%R h)).
    fold (Rsum (zip_with Rmult h h)). fold (Rsum h).
    rewrite IH, S_INR. ring.
Qed.

Lemma Rsum_sq_nonneg (h : list R) (m : R) :
  (0 <= Rsum (map (fun a => (a - m) * (a - m))%R h))%R.
Proof.
  induction h as [|a h IH]; simpl; [lra|].
  fold (Rsum (map (fun a => (a - m) * (a - m))%R h)).
  pose proof (Rle_0_sqr (a - m)) as Hsq. unfold Rsqr in Hsq. lra.
Qed.

Lemma variance_nonneg (h : list R) :
  (0 <= Rsum (zip_with Rmult h h) - Rsum h * Rsum h * (1 / INR (length h)))%R.
Proof.
  destruct h as [|a h].
  - simpl. lra.
  - set (l := a :: h).
    assert (INR (length l) <> 0)%R as Hn.
    { apply not_0_INR. done. }
    pose proof (Rsum_sq_nonneg l (Rsum l / INR (length l))) as Hpos.
    rewrite Rsum_sq_shift in Hpos.
    replace (Rsum (zip_with Rmult l l) - Rsum l * Rsum l * (1 / INR (length l)))%R
      with (Rsum (zip_with Rmult l l)
            - 2 * (Rsum l / INR (length l)) * Rsum l
            + INR (length l) * (Rsum l / INR (length l)) * (Rsum l / INR (length l)))%R;
      [done|].
    field. done.
Qed.

Lemma DBL_EPSILON_pos : (0 < DBL_EPSILON)%R.
Proof. unfold DBL_EPSILON. apply Rinv_0_lt_compat, pow_lt. lra. Qed.


(** ** The exact-duplicate phase *)

Section ExactDedup.
Implicit Types (w : world) (domain : string).


Lemma download_logo_elem_of domain (files : gset string) p :
  p ∈ download_logo domain files →
  p = os_path_join "logos" (logo_filename domain) ∨ p ∈ files.
Proof. drop_unused. unfold download_logo. case_match; set_solver. Qed.

Lemma hash_value_of_Some domain w h :
  hash_value_of domain "logos" w = Some h →
  os_path_join "logos" (logo_filename domain) ∈ download_logo domain (fs w) ∧
  ∃ img, Image_open (os_path_join "logos" (logo_filename domain)) = Ok img ∧
         h = dhash img 8.
Proof.
  unfold hash_value_of.
  destruct (decide (os_path_join "logos" (logo_filename domain) ∈ _))
    as [Hin|]; [|done].
  destruct (Image_open (os_path_join "logos" (logo_filename domain)))
    as [img|] eqn:Himg; [|done].
  intros [= <-]. eauto.
Qed.

(** What one task of the fetch pool does to the state. *)
Lemma process_logo_eq domain w :
  process_logo domain "logos" w
  = Ok (match hash_value_of domain "logos" w with
        | Some h =>
            if decide (is_Some (hashes w !! h))
            then World (download_logo domain (fs w)
                          ∖ {[os_path_join "logos" (logo_filename domain)]})
                       (hashes w)
            else World (download_logo domain (fs w))
                       (<[h := os_path_join "logos" (logo_filename domain)]>
                          (hashes w))
        | None =>
            World (download_logo domain (fs w)
                     ∖ {[os_path_join "logos" (logo_filename domain)]})
                  (hashes w)
        end).
Proof.
  drop_unused.
  unfold process_logo, hash_value_of.
  set (files := download_logo domain (fs w)).
  destruct (decide (os_path_join "logos" (logo_filename domain) ∉ files))
    as [Hnin|Hin].
  - rewrite decide_False by done. f_equal. f_equal. set_solver.
  - apply dec_stable in Hin. rewrite decide_True by done.
    unfold os_remove. rewrite decide_True by done.
    destruct (Image_open (os_path_join "logos" (logo_filename domain)))
      as [img|e]; simpl; [|done].
    destruct (decide (is_Some (hashes w !! dhash img 8))); done.
Qed.

Lemma process_all_cons domain rest w :
  process_all (domain :: rest) "logos" w
  = match process_logo domain "logos" w with
    | Ok w' => process_all rest "logos" w'
    | Raised e => Raised e
    end.
Proof. done. Qed.

(** The registry never forgets or overwrites: a hash already registered
    keeps its path, a new one gets the path it was first computed from. *)
Lemma process_all_registry (domains : list string) w0 :
  ∃ w, process_all domains "logos" w0 = Ok w ∧
    ∀ h, hashes w !! h
         = match hashes w0 !! h with
           | Some p => Some p
           | None => dict_get (hashes_seen domains "logos" w0) h
           end.
Proof.
  revert w0. induction domains as [|domain rest IH]; intros w0.
  - exists w0. split; [done|]. intros h. simpl. by destruct (hashes w0 !! h).
  - rewrite process_all_cons. cbn [hashes_seen].
    rewrite process_logo_eq.
    set (w1 := match hash_value_of domain "logos" w0 with
               | Some h => _ | None => _ end).
    destruct (IH w1) as (w & Hw & Hreg). exists w. split; [done|].
    intros k. rewrite Hreg. subst w1.
    destruct (hash_value_of domain "logos" w0) as [h|]; [|done].
    destruct (decide (is_Some (hashes w0 !! h))) as [[p Hp]|Hnone]; simpl.
    + destruct (hashes w0 !! k) as [q|] eqn:Hk; [done|].
      rewrite decide_False; [done|]. intros ->. congruence.
    + apply eq_None_not_Some in Hnone.
      destruct (decide (h = k)) as [->|Hne].
      * by rewrite lookup_insert_eq, Hnone.
      * by rewrite lookup_insert_ne.
Qed.

Lemma process_logo_holders processed domain w w' :
  holders processed w →
  process_logo domain "logos" w = Ok w' →
  holders (domain :: processed) w'.
Proof.
  intros Hinv. rewrite process_logo_eq. intros [= <-].
  destruct (hash_value_of domain "logos" w) as [h|] eqn:Hh.
  - apply hash_value_of_Some in Hh as (Hin & img & Himg & ->).
    destruct (decide (is_Some (hashes w !! dhash img 8))) as [Hsome|Hnone].
    + intros d Hd Hfs. simpl in *.
      apply elem_of_difference in Hfs as [Hfs Hne].
      rewrite not_elem_of_singleton in Hne.
      apply download_logo_elem_of in Hfs as [?|Hfs]; [done|].
      apply elem_of_cons in Hd as [->|Hd]; [done|]. by apply Hinv.
    + apply eq_None_not_Some in Hnone.
      intros d Hd Hfs. simpl in *.
      destruct (decide (os_path_join "logos" (logo_filename d)
                        = os_path_join "logos" (logo_filename domain))) as [Heq|Hne].
      * rewrite Heq. exists img. by rewrite lookup_insert_eq.
      * apply download_logo_elem_of in Hfs as [?|Hfs]; [done|].
        apply elem_of_cons in Hd as [->|Hd]; [done|].
        destruct (Hinv d Hd Hfs) as (img' & Himg' & Hreg).
        exists img'. split; [done|].
        rewrite lookup_insert_ne; [done|]. intros Heq. congruence.
  - intros d Hd Hfs. simpl in *.
    apply elem_of_difference in Hfs as [Hfs Hne].
    rewrite not_elem_of_singleton in Hne.
    apply download_logo_elem_of in Hfs as [?|Hfs]; [done|].
    apply elem_of_cons in Hd as [->|Hd]; [done|]. by apply Hinv.
Qed.

Lemma process_all_holders (domains processed : list string) w0 w :
  holders processed w0 →
  process_all domains "logos" w0 = Ok w →
  holders (domains ++ processed) w.
Proof.
  drop_unused.
  revert processed w0. induction domains as [|domain rest IH];
    intros processed w0 Hinv Hrun.
  - by injection Hrun as <-.
  - rewrite process_all_cons in Hrun.
    destruct (process_logo domain "logos" w0) as [w1|] eqn:Hstep; [|done].
    pose proof (process_logo_holders _ _ _ _ Hinv Hstep) as Hinv1.
    pose proof (IH _ _ Hinv1 Hrun) as Hfinal.
    intros d Hd. apply Hfinal.
    rewrite elem_of_app, elem_of_cons in *. tauto.
Qed.

(** C3. One task of the fetch pool whose image was fetched and hashed
    deletes the file when the hash is already in the registry and
    otherwise records the file's path under the hash.  Over a whole run
    that starts with an empty registry, no task raises, the registry maps
    every hash to the path it was first computed from, and two files that
    are still on disk after the run and have the same hash are the same
    file. *)
Theorem process_logo_registry (domains : list string) (w0 : world) :
  hashes w0 = ∅ →
  (∀ w domain h,
     hash_value_of domain "logos" w = Some h →
     process_logo domain "logos" w
     = Ok (if decide (is_Some (hashes w !! h))
           then World (download_logo domain (fs w)
                         ∖ {[os_path_join "logos" (logo_filename domain)]})
                      (hashes w)
           else World (download_logo domain (fs w))
                      (<[h := os_path_join "logos" (logo_filename domain)]>
                         (hashes w)))) ∧
  ∃ w, process_all domains "logos" w0 = Ok w ∧
    (∀ h, hashes w !! h = dict_get (hashes_seen domains "logos" w0) h) ∧
    (∀ d1 d2 img1 img2,
       d1 ∈ domains → d2 ∈ domains →
       os_path_join "logos" (logo_filename d1) ∈ fs w →
       os_path_join "logos" (logo_filename d2) ∈ fs w →
       Image_open (os_path_join "logos" (logo_filename d1)) = Ok img1 →
       Image_open (os_path_join "logos" (logo_filename d2)) = Ok img2 →
       dhash img1 8 = dhash img2 8 →
       os_path_join "logos" (logo_filename d1)
       = os_path_join "logos" (logo_filename d2)).
Proof.
  intros Hempty. split.
  { intros w domain h Hh. rewrite process_logo_eq, Hh. done. }
  destruct (process_all_registry domains w0) as (w & Hrun & Hreg).
  exists w. split_and!; [done| |].
  - intros h. rewrite Hreg, Hempty, lookup_empty. done.
  - intros d1 d2 img1 img2 Hd1 Hd2 Hfs1 Hfs2 Himg1 Himg2 Hhash.
    assert (holders (domains ++ []) w) as Hinv.
    { eapply process_all_holders; [|exact Hrun]. intros d Hd.
      by apply elem_of_nil in Hd. }
    rewrite app_nil_r in Hinv.
    destruct (Hinv d1 Hd1 Hfs1) as (i1 & Hi1 & Hr1).
    destruct (Hinv d2 Hd2 Hfs2) as (i2 & Hi2 & Hr2).
    simplify_eq. congruence.
Qed.
End ExactDedup.

(** ** The near-duplicate phase *)

Lemma Qltb_lt (x y : Q) : Qltb x y = true ↔ (x < y)%Q.
Proof.
  unfold Qltb. rewrite negb_true_iff, <-not_true_iff_false, Qle_bool_iff.
  split; [apply Qnot_le_lt|apply Qlt_not_le].
Qed.

Lemma string_app_inv_tail (s1 s2 t : string) : s1 +:+ t = s2 +:+ t → s1 = s2.
Proof.
  intros Heq.
  apply (f_equal String.list_ascii_of_string) in Heq.
  rewrite !list_ascii_of_string_app in Heq. apply app_inv_tail in Heq.
  rewrite <-(String.string_of_list_ascii_of_string s1).
  rewrite <-(String.string_of_list_ascii_of_string s2). by rewrite Heq.
Qed.

Lemma os_path_join_inj_name (folder name1 name2 : string) :
  os_path_join folder name1 = os_path_join folder name2 → name1 = name2.
Proof.
  unfold os_path_join. intros Heq.
  apply (inj (String.append folder)) in Heq.
  by apply (inj (String.append "/")) in Heq.
Qed.

Lemma os_path_join_inj_folder (folder1 folder2 name : string) :
  os_path_join folder1 name = os_path_join folder2 name → folder1 = folder2.
Proof.
  unfold os_path_join. intros Heq. by apply string_app_inv_tail in Heq.
Qed.

Lemma near_duplicate_iff (similarity : Q) (image1 image2 : string) :
  near_duplicate similarity image1 image2 = true
  ↔ (49 < similarity)%Q ∧ prefix3 image1 = prefix3 image2.
Proof.
  unfold near_duplicate.
  by rewrite andb_true_iff, Qltb_lt, bool_decide_eq_true.
Qed.

Lemma calculate_histogram_similarity_Ok files p1 p2 similarity :
  calculate_histogram_similarity files p1 p2 = Ok similarity →
  p1 ∈ files ∧ p2 ∈ files.
Proof.
  unfold calculate_histogram_similarity, cv2_imread.
  destruct (decide (p1 ∈ files)); [|done].
  destruct (decide (p2 ∈ files)); [done|].
  by destruct (cv2_decodes p1).
Qed.

Lemma submitted_pairs_sound (files : list string) (checked : gset string) i j :
  (i, j) ∈ submitted_pairs files checked → listed_before files i j.
Proof.
  revert checked. induction files as [|f rest IH]; intros checked; simpl.
  - by intros ?%elem_of_nil.
  - assert (listed_before rest i j → listed_before (f :: rest) i j) as Hshift.
    { intros (a & b & Hab & Ha & Hb). exists (S a), (S b). split_and!; [lia|done..]. }
    destruct (decide (f ∈ checked)); [by intros ?%IH; auto|].
    rewrite elem_of_app. intros [Hin|Hin]; [|by apply IH in Hin; auto].
    apply list_elem_of_fmap in Hin as (file2 & [= -> ->] & Hin).
    apply list_elem_of_lookup in Hin as [b Hb].
    exists 0%nat, (S b). split_and!; [lia|done..].
Qed.

Lemma submitted_pairs_complete (files : list string) (checked : gset string) i j :
  NoDup files → (∀ x, x ∈ checked → x ∉ files) →
  listed_before files i j → (i, j) ∈ submitted_pairs files checked.
Proof.
  revert checked. induction files as [|f rest IH]; intros checked Hnd Hfresh.
  - by intros (a & b & _ & Ha & _).
  - apply NoDup_cons in Hnd as [Hf Hnd].
    intros (a & b & Hab & Ha & Hb). simpl.
    rewrite decide_False; last first.
    { intros Hin. apply (Hfresh f Hin). left. }
    apply elem_of_app. destruct a as [|a]; simpl in Ha.
    + injection Ha as ->. left. destruct b as [|b]; [lia|]. simpl in Hb.
      apply list_elem_of_fmap. exists j. split; [done|].
      by apply list_elem_of_lookup_2 in Hb.
    + right. destruct b as [|b]; [lia|]. simpl in Hb. apply IH; [done| |].
      * intros x [->%elem_of_singleton|Hx]%elem_of_union; [done|].
        intros Hin. apply (Hfresh x Hx). by right.
      * exists a, b. split_and!; [lia|done..].
Qed.

(** C1. For a pair of listed files with the first before the second, the
    comparison task is submitted, and when the comparison returns a score
    (both files are still in the folder and decode) the task moves the second
    file from the scanned folder to the duplicates folder exactly when the
    score is above 49 and the two names agree on their first three
    characters.  So "abc_1.png"/"abc_2.png" at score 60 is relocated and
    "abc_1.png"/"xyz_1.png" at score 90 is left alone. *)
Theorem check_similarity_moves (listing : list string)
    (output_folder image1 image2 : string) (files : gset string)
    (similarity : Q) :
  NoDup listing →
  listed_before listing image1 image2 →
  output_folder ≠ duplicates_folder →
  calculate_histogram_similarity files
    (os_path_join output_folder image1) (os_path_join output_folder image2)
  = Ok similarity →
  (image1, image2) ∈ submitted_pairs listing ∅ ∧
  (((49 < similarity)%Q ∧ prefix3 image1 = prefix3 image2)
   ↔ (∃ files', check_similarity output_folder image1 image2 files = Ok files' ∧
                (os_path_join output_folder image2 ∉ files') ∧
                os_path_join duplicates_folder image2 ∈ files')) ∧
  check_similarity output_folder image1 image2 files
  = Ok (if near_duplicate similarity image1 image2
        then {[os_path_join duplicates_folder image2]}
             ∪ files ∖ {[os_path_join output_folder image2]}
        else files) ∧
  ((similarity == 60)%Q → image1 = "abc_1.png" → image2 = "abc_2.png" →
   check_similarity output_folder image1 image2 files
   = Ok ({[os_path_join duplicates_folder image2]}
         ∪ files ∖ {[os_path_join output_folder image2]})) ∧
  ((similarity == 90)%Q → image1 = "abc_1.png" → image2 = "xyz_1.png" →
   check_similarity output_folder image1 image2 files = Ok files).
Proof.
  drop_unused.
  intros Hnd Hbefore Hfolder Hsim.
  pose proof (calculate_histogram_similarity_Ok _ _ _ _ Hsim) as [Hin1 Hin2].
  assert (check_similarity output_folder image1 image2 files
          = Ok (if near_duplicate similarity image1 image2
                then {[os_path_join duplicates_folder image2]}
                     ∪ files ∖ {[os_path_join output_folder image2]}
                else files)) as Hcheck.
  { unfold check_similarity. rewrite Hsim. simpl.
    destruct (near_duplicate similarity image1 image2); [|done].
    unfold shutil_move. by rewrite decide_True. }
  split_and!.
  - apply submitted_pairs_complete; [done|set_solver|done].
  - rewrite <-near_duplicate_iff, Hcheck. split.
    + intros ->. eexists. split; [done|].
      assert (os_path_join output_folder image2
              ≠ os_path_join duplicates_folder image2) as Hne.
      { intros Heq. by apply os_path_join_inj_folder in Heq. }
      set_solver.
    + intros (files' & Hfiles' & Hgone & _).
      destruct (near_duplicate similarity image1 image2); [done|].
      by injection Hfiles' as <-.
  - done.
  - intros Hs -> ->. rewrite Hcheck.
    assert (near_duplicate similarity "abc_1.png" "abc_2.png" = true) as ->; [|done].
    apply near_duplicate_iff. split; [by rewrite Hs|done].
  - intros Hs -> ->. rewrite Hcheck.
    assert (near_duplicate similarity "abc_1.png" "xyz_1.png" = false) as ->; [|done].
    unfold near_duplicate. apply andb_false_iff. right. done.
Qed.

(** ** Runs of the comparison pool *)

Lemma unfinished_insert (pool : list task) (k : nat) (t t' : task) :
  pool !! k = Some t →
  (unfinished (<[k := t']> pool) + task_weight t
   = unfinished pool + task_weight t')%nat.
Proof.
  unfold unfinished.
  revert k. induction pool as [|x pool IH]; intros k Hk; [done|].
  destruct k as [|k]; simpl in *.
  - injection Hk as ->. lia.
  - specialize (IH k Hk). lia.
Qed.

Lemma task_step_weight (output_folder : string) files t files' t' :
  t ≠ Finished →
  task_step output_folder files t = (files', t') →
  (task_weight t' < task_weight t)%nat.
Proof.
  intros Hne Hstep. destruct t as [i j|i j|]; [| |done]; simpl in Hstep.
  - repeat case_match; injection Hstep as <- <-; simpl; lia.
  - repeat case_match; injection Hstep as <- <-; simpl; lia.
Qed.

Lemma pool_step_decreases (output_folder : string) cfg cfg' :
  pool_step output_folder cfg cfg' → (unfinished cfg'.2 < unfinished cfg.2)%nat.
Proof.
  destruct 1 as [files pool k t files' t' Hk Hne Hstep]. simpl.
  pose proof (unfinished_insert pool k t t' Hk).
  pose proof (task_step_weight _ _ _ _ _ Hne Hstep). lia.
Qed.

Lemma pool_nsteps_bound (output_folder : string) n cfg cfg' :
  nsteps (pool_step output_folder) n cfg cfg' →
  (unfinished cfg'.2 + n ≤ unfinished cfg.2)%nat.
Proof.
  induction 1 as [|n x y z Hstep _ IH]; [lia|].
  apply pool_step_decreases in Hstep. lia.
Qed.

Lemma unfinished_submitted_pool (listing : list string) :
  unfinished (submitted_pool listing)
  = (2 * length (submitted_pairs listing ∅))%nat.
Proof.
  unfold submitted_pool, unfinished.
  induction (submitted_pairs listing ∅) as [|p l IH]; simpl; [done|].
  rewrite IH. lia.
Qed.

Lemma pool_progress (output_folder : string) files (pool : list task) :
  Forall (fun t => t = Finished) pool
  ∨ ∃ cfg', pool_step output_folder (files, pool) cfg'.
Proof.
  destruct (decide (Forall (fun t => t = Finished) pool)) as [Hall|Hex];
    [by left|].
  right. apply not_Forall_Exists in Hex; [|apply _].
  apply Exists_exists in Hex as (t & Hin & Hne).
  apply list_elem_of_lookup in Hin as [k Hk].
  destruct (task_step output_folder files t) as [files' t'] eqn:Hstep.
  exists (files', <[k := t']> pool). by econstructor.
Qed.

Lemma check_similarity_Ok (output_folder image1 image2 : string)
    (files : gset string) :
  ∃ files', check_similarity output_folder image1 image2 files = Ok files' ∧
    (files' = files
     ∨ files' = {[os_path_join duplicates_folder image2]}
                ∪ files ∖ {[os_path_join output_folder image2]}).
Proof.
  unfold check_similarity.
  destruct (calculate_histogram_similarity _ _ _) as [s|e]; simpl; [|eauto].
  destruct (near_duplicate s image1 image2); [|eauto].
  unfold shutil_move. case_decide; simpl; eauto.
Qed.

Lemma move_similar_logos_fifo_Ok (output_folder : string)
    (listing : list string) (files : gset string) :
  ∃ files', move_similar_logos_fifo output_folder listing files = Ok files'.
Proof.
  unfold move_similar_logos_fifo. generalize (submitted_pairs listing ∅).
  intros pairs. revert files.
  induction pairs as [|p pairs IH]; intros files; simpl; [eauto|].
  destruct (check_similarity_Ok output_folder p.1 p.2 files) as (files1 & -> & _).
  apply IH.
Qed.

(** C9. A comparison task never raises: when the comparison or the move
    fails, in particular because one of the two files is gone, it leaves the
    folders as they were.  The phase completes over every listing: the run
    that takes the tasks one after the other returns, and in every interleaved
    run of the pool each step finishes part of a task, so the run cannot be
    longer than twice the number of submitted pairs, and a pool that cannot
    move has all its tasks finished. *)
Theorem near_dedup_never_raises (output_folder : string)
    (listing : list string) (files : gset string) :
  (∀ image1 image2 (fs0 : gset string),
     ∃ fs1, check_similarity output_folder image1 image2 fs0 = Ok fs1 ∧
       ((∃ e, calculate_histogram_similarity fs0
                (os_path_join output_folder image1)
                (os_path_join output_folder image2) = Raised e) → fs1 = fs0) ∧
       (os_path_join output_folder image1 ∉ fs0
        ∨ os_path_join output_folder image2 ∉ fs0 → fs1 = fs0)) ∧
  (∀ image1 image2 (fs0 : gset string),
     os_path_join output_folder image2 ∉ fs0 →
     task_step output_folder fs0 (Moving image1 image2) = (fs0, Finished) ∧
     task_step output_folder fs0 (Submitted image1 image2) = (fs0, Finished)) ∧
  (∃ files', move_similar_logos_fifo output_folder listing files = Ok files') ∧
  (∀ n cfg,
     nsteps (pool_step output_folder) n (files, submitted_pool listing) cfg →
     (n ≤ 2 * length (submitted_pairs listing ∅))%nat ∧
     (Forall (fun t => t = Finished) cfg.2
      ∨ ∃ cfg', pool_step output_folder cfg cfg')).
Proof.
  drop_unused.
  assert (∀ p1 p2 (fs0 : gset string), p1 ∉ fs0 ∨ p2 ∉ fs0 →
            calculate_histogram_similarity fs0 p1 p2 = Raised FileNotFoundError)
    as Hgone.
  { intros p1 p2 fs0 Hor. unfold calculate_histogram_similarity, cv2_imread.
    destruct (decide (p1 ∈ fs0)); [|done].
    destruct (decide (p2 ∈ fs0)); [tauto|]. by destruct (cv2_decodes p1). }
  split_and!.
  - intros image1 image2 fs0.
    assert (∀ e, calculate_histogram_similarity fs0
                   (os_path_join output_folder image1)
                   (os_path_join output_folder image2) = Raised e →
                 check_similarity output_folder image1 image2 fs0 = Ok fs0)
      as Hraise.
    { intros e He. unfold check_similarity. by rewrite He. }
    destruct (check_similarity_Ok output_folder image1 image2 fs0)
      as (fs1 & Hfs1 & _).
    exists fs1. split_and!; [done| |].
    + intros [e He]. rewrite (Hraise e He) in Hfs1. by injection Hfs1.
    + intros Hor. apply Hgone in Hor.
      rewrite (Hraise _ Hor) in Hfs1. by injection Hfs1.
  - intros image1 image2 fs0 Hnin. split.
    + simpl. unfold shutil_move. by rewrite decide_False.
    + simpl. rewrite Hgone; [done|by right].
  - apply move_similar_logos_fifo_Ok.
  - intros n cfg Hrun. split.
    + apply pool_nsteps_bound in Hrun. simpl in Hrun.
      rewrite unfinished_submitted_pool in Hrun. lia.
    + destruct cfg as [fs1 pool]. apply pool_progress.
Qed.

(** ** Which files the comparison pool can move *)

Lemma pool_step_invariant (output_folder : string)
    (pairs : list (string * string)) (files0 : gset string) cfg cfg' :
  pool_step output_folder cfg cfg' →
  Forall (task_ok pairs) cfg.2 ∧ only_seconds_gone output_folder pairs files0 cfg.1 →
  Forall (task_ok pairs) cfg'.2 ∧ only_seconds_gone output_folder pairs files0 cfg'.1.
Proof.
  drop_unused.
  destruct 1 as [files pool k t files' t' Hk Hne Hstep]. simpl.
  intros [Hpool Hgone].
  pose proof (Forall_lookup_1 _ _ _ _ Hpool Hk) as Ht.
  destruct t as [i j|i j|]; [| |done]; simpl in Hstep, Ht.
  - assert (files' = files ∧ task_ok pairs t') as [-> Ht'].
    { destruct (calculate_histogram_similarity _ _ _) as [s|e].
      - destruct (near_duplicate s i j) eqn:Hnear; injection Hstep as <- <-.
        + apply near_duplicate_iff in Hnear as [_ Hprefix]. done.
        + done.
      - by injection Hstep as <- <-. }
    split; [by apply Forall_insert|done].
  - destruct Ht as [Hpair Hprefix].
    unfold shutil_move in Hstep.
    destruct (decide (os_path_join output_folder j ∈ files));
      injection Hstep as <- <-.
    + split; [by apply Forall_insert|].
      intros p Hp0 Hp.
      destruct (decide (p = os_path_join output_folder j)) as [->|Hneq].
      * by exists i, j.
      * apply Hgone; [done|]. set_solver.
    + split; [by apply Forall_insert|done].
Qed.

Lemma pool_run_invariant (output_folder : string)
    (pairs : list (string * string)) (files0 : gset string) cfg cfg' :
  rtc (pool_step output_folder) cfg cfg' →
  Forall (task_ok pairs) cfg.2 ∧ only_seconds_gone output_folder pairs files0 cfg.1 →
  Forall (task_ok pairs) cfg'.2 ∧ only_seconds_gone output_folder pairs files0 cfg'.1.
Proof.
  induction 1 as [|x y z Hstep _ IH]; [done|].
  intros Hinv. apply IH. by eapply pool_step_invariant.
Qed.

(** The run that takes the tasks one after the other is a run of the pool. *)
Lemma check_similarity_pool_steps (output_folder i j : string)
    (files : gset string) (pool : list task) (k : nat) :
  pool !! k = Some (Submitted i j) →
  ∃ files', check_similarity output_folder i j files = Ok files' ∧
    rtc (pool_step output_folder) (files, pool) (files', <[k := Finished]> pool).
Proof.
  intros Hk. unfold check_similarity.
  assert (∀ fs1 t1, task_step output_folder files (Submitted i j) = (fs1, t1) →
            pool_step output_folder (files, pool) (fs1, <[k := t1]> pool))
    as Hfirst by (intros; by econstructor).
  simpl in Hfirst.
  destruct (calculate_histogram_similarity _ _ _) as [s|e]; simpl.
  - destruct (near_duplicate s i j).
    + specialize (Hfirst _ _ eq_refl).
      assert (<[k := Moving i j]> pool !! k = Some (Moving i j)) as Hk'.
      { apply list_lookup_insert_eq. by apply lookup_lt_Some in Hk. }
      destruct (shutil_move _ _ files) as [files'|e] eqn:Hmove; simpl.
      * exists files'. split; [done|].
        eapply rtc_l; [exact Hfirst|].
        replace (<[k := Finished]> pool)
          with (<[k := Finished]> (<[k := Moving i j]> pool))
          by apply list_insert_insert_eq.
        apply rtc_once. econstructor; [exact Hk'|done|].
        simpl. by rewrite Hmove.
      * exists files. split; [done|].
        eapply rtc_l; [exact Hfirst|].
        replace (<[k := Finished]> pool)
          with (<[k := Finished]> (<[k := Moving i j]> pool))
          by apply list_insert_insert_eq.
        apply rtc_once. econstructor; [exact Hk'|done|].
        simpl. by rewrite Hmove.
    + exists files. split; [done|]. apply rtc_once. by apply Hfirst.
  - exists files. split; [done|]. apply rtc_once. by apply Hfirst.
Qed.

Lemma fifo_pool_run (output_folder : string) (pairs : list (string * string))
    (n : nat) (files : gset string) :
  ∃ files',
    foldl (fun acc p => fs0 ← acc; check_similarity output_folder p.1 p.2 fs0)
          (Ok files) pairs = Ok files' ∧
    rtc (pool_step output_folder)
        (files, replicate n Finished ++ map (fun p => Submitted p.1 p.2) pairs)
        (files', replicate (n + length pairs) Finished).
Proof.
  revert n files. induction pairs as [|p pairs IH]; intros n files.
  - exists files. simpl. rewrite app_nil_r, Nat.add_0_r. done.
  - simpl.
    destruct (check_similarity_pool_steps output_folder p.1 p.2 files
                (replicate n Finished
                 ++ Submitted p.1 p.2 :: map (fun p => Submitted p.1 p.2) pairs) n)
      as (files1 & Hcheck & Hrun1).
    { rewrite lookup_app_r by (rewrite length_replicate; lia).
      by rewrite length_replicate, Nat.sub_diag. }
    rewrite Hcheck.
    destruct (IH (S n) files1) as (files' & Hfold & Hrun).
    exists files'. split; [done|].
    replace (n + S (length pairs))%nat with (S n + length pairs)%nat by lia.
    etrans; [exact Hrun1|].
    rewrite insert_app_r_alt by (rewrite length_replicate; lia).
    rewrite length_replicate, Nat.sub_diag. simpl.
    replace (replicate n Finished ++ Finished :: map (fun p => Submitted p.1 p.2) pairs)
      with (replicate (S n) Finished ++ map (fun p => Submitted p.1 p.2) pairs);
      [done|].
    rewrite replicate_S_end, <-app_assoc. done.
Qed.

(** C10. Whatever the order in which the pool runs its tasks, a file leaves
    the scanned folder only as the second file of a pair whose first file is
    listed earlier and has the same first three characters.  Hence the
    earliest listed file of every prefix group stays in the folder, also in
    the run that takes the tasks one after the other. *)
Theorem earliest_of_prefix_group_survives (output_folder : string)
    (listing : list string) (files : gset string)
    (cfg : gset string * list task) :
  NoDup listing →
  rtc (pool_step output_folder) (files, submitted_pool listing) cfg →
  (∀ j, os_path_join output_folder j ∈ files →
        os_path_join output_folder j ∉ cfg.1 →
        ∃ i, listed_before listing i j ∧ prefix3 i = prefix3 j) ∧
  (∀ b f, listing !! b = Some f →
          (∀ a g, (a < b)%nat → listing !! a = Some g → prefix3 g ≠ prefix3 f) →
          os_path_join output_folder f ∈ files →
          os_path_join output_folder f ∈ cfg.1) ∧
  (∃ files', move_similar_logos_fifo output_folder listing files = Ok files' ∧
     rtc (pool_step output_folder) (files, submitted_pool listing)
         (files', replicate (length (submitted_pairs listing ∅)) Finished)).
Proof.
  intros Hnd Hrun.
  assert (∀ j, os_path_join output_folder j ∈ files →
               os_path_join output_folder j ∉ cfg.1 →
               ∃ i, listed_before listing i j ∧ prefix3 i = prefix3 j) as Hmoved.
  { destruct (pool_run_invariant output_folder (submitted_pairs listing ∅)
                files _ _ Hrun) as [_ Hgone].
    { split; simpl.
      - unfold submitted_pool. apply Forall_forall.
        intros t ([i j] & -> & Hin)%list_elem_of_fmap. done.
      - intros p Hp Hnp. done. }
    intros j Hj0 Hj. destruct (Hgone _ Hj0 Hj) as (i & j' & Hpair & Hprefix & Heq).
    apply os_path_join_inj_name in Heq as ->.
    exists i. split; [|done]. by eapply submitted_pairs_sound. }
  split_and!; [exact Hmoved| |].
  - intros b f Hb Hfirst Hf0.
    destruct (decide (os_path_join output_folder f ∈ cfg.1)) as [|Hgone]; [done|].
    destruct (Hmoved f Hf0 Hgone) as (i & (a' & b' & Hlt & Ha' & Hb') & Hprefix).
    assert (b' = b) as -> by (eapply NoDup_lookup; eauto).
    by destruct (Hfirst a' i Hlt Ha').
  - destruct (fifo_pool_run output_folder (submitted_pairs listing ∅) 0 files)
      as (files' & Hfold & Hfifo).
    exists files'. split; [exact Hfold|]. exact Hfifo.
Qed.

(** * Further properties *)

(** ** Broad colours *)

Lemma distance2_nonneg (c p : rgb) : 0 ≤ distance2 c p.
Proof.
  destruct c as [[r g] b], p as [[pr pg] pb]. unfold distance2.
  rewrite !Z.pow_2_r.
  pose proof (Z.square_nonneg (r - pr)). pose proof (Z.square_nonneg (g - pg)).
  pose proof (Z.square_nonneg (b - pb)). lia.
Qed.

Lemma distance2_zero (c p : rgb) : distance2 c p = 0 → p = c.
Proof.
  destruct c as [[r g] b], p as [[pr pg] pb]. unfold distance2.
  rewrite !Z.pow_2_r. intros Hz.
  pose proof (Z.square_nonneg (r - pr)). pose proof (Z.square_nonneg (g - pg)).
  pose proof (Z.square_nonneg (b - pb)).
  assert (r - pr = 0) by nia. assert (g - pg = 0) by nia.
  assert (b - pb = 0) by nia. repeat f_equal; lia.
Qed.

Lemma closest_in_palette_entry (palette : list (broad_color * rgb))
    (i : nat) (name : broad_color) (p : rgb) :
  palette !! i = Some (name, p) →
  (∀ j e, (j < i)%nat → palette !! j = Some e → e.2 ≠ p) →
  closest_in palette p = Some name.
Proof.
  intros Hi Hfirst.
  destruct (closest_fold_first_min p palette) as
    (i' & name' & p' & Hi' & Hfold & Hmin).
  { intros ->. done. }
  unfold closest_in. rewrite Hfold. simpl.
  destruct (Hmin i _ Hi) as [Hle Hlt]. simpl in Hle, Hlt.
  assert (distance2 p p = 0) as Hpp.
  { destruct p as [[r g] b]. unfold distance2. rewrite !Z.sub_diag. done. }
  pose proof (distance2_nonneg p p') as Hnn.
  assert (p' = p) as -> by (apply distance2_zero; lia).
  destruct (lt_eq_lt_dec i i') as [[Hlt'|<-]|Hgt].
  - specialize (Hlt Hlt'). lia.
  - by simplify_eq.
  - by destruct (Hfirst i' _ Hgt Hi').
Qed.

(** X1. Each colour of the palette is classified as its own category: the
    seven reference colours are pairwise different, so the entry itself is
    the first one at distance zero. *)
Theorem closest_broad_color_palette (name : broad_color) (p : rgb) :
  (name, p) ∈ BROAD_COLORS → closest_broad_color p = Some name.
Proof.
  intros Hin. apply list_elem_of_lookup in Hin as [i Hi].
  unfold closest_broad_color. apply (closest_in_palette_entry _ i); [done|].
  intros j e Hj He.
  do 7 (destruct i as [|i]; [simplify_eq/=;
        do 7 (destruct j as [|j]; [simplify_eq/=; done || lia|]); lia|]).
  done.
Qed.

(** ** Minimalism *)

Lemma describe_logo_colors_decide (rgb_colors : list rgb) :
  describe_logo_colors rgb_colors
  = bool_decide (length (distinct_buckets rgb_colors) ≤ 2)%nat.
Proof.
  unfold describe_logo_colors. rewrite most_common_8_colors.
  rewrite (Permutation_length (sort_by_count_perm _)), color_groups_length.
  by destruct (bool_decide _).
Qed.

Lemma buckets_length (colors : list rgb) : length (buckets colors) = length colors.
Proof.
  rewrite <-(length_fmap Some), <-buckets_Some. apply length_map.
Qed.

Lemma distinct_buckets_subset (l1 l2 : list rgb) :
  (∀ b, b ∈ buckets l1 → b ∈ buckets l2) →
  (length (distinct_buckets l1) ≤ length (distinct_buckets l2))%nat.
Proof.
  intros Hsub. unfold distinct_buckets.
  apply submseteq_length, NoDup_submseteq; [apply NoDup_remove_dups|].
  intros b. rewrite !elem_of_remove_dups. apply Hsub.
Qed.

(** X2. The minimalism verdict depends only on which broad colours occur
    among the clusters, not on their order or multiplicity; dropping
    clusters never turns a minimalist logo into a non-minimalist one, and a
    logo with at most two clusters is always minimalist. *)
Theorem describe_logo_colors_buckets (l1 l2 : list rgb) :
  ((∀ b, b ∈ buckets l1 ↔ b ∈ buckets l2) →
   describe_logo_colors l1 = describe_logo_colors l2) ∧
  ((∀ b, b ∈ buckets l1 → b ∈ buckets l2) →
   describe_logo_colors l2 = true → describe_logo_colors l1 = true) ∧
  ((length l1 ≤ 2)%nat → describe_logo_colors l1 = true).
Proof.
  rewrite !describe_logo_colors_decide. split_and!.
  - intros Heq.
    assert (length (distinct_buckets l1) = length (distinct_buckets l2)) as ->;
      [|done].
    apply Nat.le_antisymm; apply distinct_buckets_subset; intros b; apply Heq.
  - intros Hsub Hmin%bool_decide_eq_true. apply bool_decide_eq_true.
    pose proof (distinct_buckets_subset l1 l2 Hsub). lia.
  - intros Hlen. apply bool_decide_eq_true.
    assert (length (distinct_buckets l1) ≤ length (buckets l1))%nat as Hle.
    { unfold distinct_buckets. apply submseteq_length, NoDup_submseteq;
        [apply NoDup_remove_dups|]. intros b. by rewrite elem_of_remove_dups. }
    rewrite buckets_length in Hle. lia.
Qed.

(** ** Emotion *)

(** The numerator of the score is the warmth summed over all clusters. *)
Lemma analyze_emotion_sum (image_path : string) :
  analyze_emotion image_path
  = match extract_main_colors image_path with
    | [] => Raised ZeroDivisionError
    | colors =>
        Ok (emotion_label
              (inject_Z (sum_Z (map warmth (buckets colors)))
               / inject_Z (Z.of_nat (length (distinct_buckets colors)))))
    end.
Proof.
  unfold analyze_emotion.
  set (colors := extract_main_colors image_path).
  rewrite most_common_8_colors.
  set (groups := sort_by_count (Counter (map closest_broad_color colors))).
  assert (groups ≡ₚ Counter (map closest_broad_color colors)) as Hperm
    by apply sort_by_count_perm.
  rewrite warmth_terms_Ok; last first.
  { apply Forall_forall. intros [k n] Hin. simpl.
    assert (k ∈ (Counter (map closest_broad_color colors)).*1) as Hk.
    { rewrite <-Hperm. apply list_elem_of_fmap. by exists (k, n). }
    apply (proj1 (Counter_keys_elem_of _ _)) in Hk. rewrite buckets_Some in Hk.
    apply list_elem_of_fmap in Hk as (c & -> & _). by eexists. }
  cbn [mbind result_bind rbind].
  assert (sum_Z (map (fun kn => from_option warmth 0 kn.1 * kn.2) groups)
          = sum_Z (map warmth (buckets colors))) as ->.
  { change (sum_Z (map ?g groups)) with (weighted (from_option warmth 0) groups).
    rewrite (weighted_perm _ _ _ Hperm), Counter_weighted, buckets_Some.
    rewrite <-list_fmap_compose. done. }
  rewrite (Permutation_length Hperm), color_groups_length.
  unfold truediv.
  destruct colors as [|c colors'] eqn:Hcolors; [done|].
  destruct (Z.eqb_spec (Z.of_nat (length (distinct_buckets (c :: colors')))) 0)
    as [Hz|Hnz]; [|done].
  exfalso. apply Nat2Z.inj_iff with (m := 0%nat), length_zero_iff_nil in Hz.
  assert (∃ b, b ∈ buckets (c :: colors')) as [b Hb].
  { destruct (closest_broad_color_is_Some c) as [b Hb]. exists b.
    unfold buckets. cbn [omap list_omap]. rewrite Hb. left. }
  apply elem_of_remove_dups in Hb. unfold distinct_buckets in Hz.
  rewrite Hz in Hb. by apply elem_of_nil in Hb.
Qed.

Lemma sum_warmth_counts (bs : list broad_color) :
  sum_Z (map warmth bs)
  = Z.of_nat (length (filter (fun b => warmth b = 1) bs))
    - Z.of_nat (length (filter (fun b => warmth b = -1) bs)).
Proof.
  induction bs as [|b bs IH]; [done|].
  cbn [map sum_Z foldr]. fold (sum_Z (map warmth bs)). rewrite IH.
  rewrite !filter_cons. destruct b; simpl; lia.
Qed.

Lemma Qltb_quotient_l (q : Q) (s k : Z) :
  0 < k → Qltb q (inject_Z s / inject_Z k) = (Qnum q * k <? s * Zpos (Qden q)).
Proof.
  intros Hk. destruct k as [|k|k]; [lia| |lia].
  destruct (Z.ltb_spec (Qnum q * Z.pos k) (s * Z.pos (Qden q))) as [Hlt|Hge].
  - apply Qltb_lt. unfold Qlt, Qdiv, Qmult, Qinv, inject_Z. simpl. lia.
  - apply not_true_iff_false. rewrite Qltb_lt.
    unfold Qlt, Qdiv, Qmult, Qinv, inject_Z. simpl. lia.
Qed.

Lemma Qltb_quotient_r (q : Q) (s k : Z) :
  0 < k → Qltb (inject_Z s / inject_Z k) q = (s * Zpos (Qden q) <? Qnum q * k).
Proof.
  intros Hk. destruct k as [|k|k]; [lia| |lia].
  destruct (Z.ltb_spec (s * Z.pos (Qden q)) (Qnum q * Z.pos k)) as [Hlt|Hge].
  - apply Qltb_lt. unfold Qlt, Qdiv, Qmult, Qinv, inject_Z. simpl. lia.
  - apply not_true_iff_false. rewrite Qltb_lt.
    unfold Qlt, Qdiv, Qmult, Qinv, inject_Z. simpl. lia.
Qed.

Lemma emotion_label_quotient (s k : Z) :
  0 < k → emotion_label (inject_Z s / inject_Z k) = emotion_label_Z s k.
Proof.
  intros Hk. unfold emotion_label, emotion_label_Z.
  rewrite !Qltb_quotient_l, !Qltb_quotient_r by done. simpl.
  replace (1 * k) with k by lia. replace (s * 2) with (2 * s) by lia.
  replace (s * 1) with s by lia. replace (-1 * k) with (- k) by lia.
  done.
Qed.

Lemma distinct_buckets_pos (colors : list rgb) :
  colors ≠ [] → 0 < Z.of_nat (length (distinct_buckets colors)).
Proof.
  intros Hne. destruct colors as [|c colors]; [done|].
  destruct (closest_broad_color_is_Some c) as [b Hb].
  assert (b ∈ distinct_buckets (c :: colors)) as Hin.
  { apply elem_of_remove_dups. unfold buckets. cbn [omap list_omap].
    rewrite Hb. left. }
  destruct (distinct_buckets (c :: colors)); [by apply elem_of_nil in Hin|].
  simpl. lia.
Qed.

(** X3. For an image with at least one cluster colour, the emotion label is
    decided by integer comparisons: with [s] the number of warm clusters
    minus the number of cool ones and [k] the number of distinct broad
    colours, the label is energetic when 2s > k, warm when 0 < s, cool when
    2s < -k, calm when s < 0, and neutral when s = 0. *)
Theorem analyze_emotion_counts (image_path : string) :
  extract_main_colors image_path ≠ [] →
  analyze_emotion image_path
  = Ok (emotion_label_Z
          (warm_clusters (extract_main_colors image_path)
           - cool_clusters (extract_main_colors image_path))
          (Z.of_nat (length (distinct_buckets (extract_main_colors image_path))))).
Proof.
  intros Hne. rewrite analyze_emotion_sum.
  destruct (extract_main_colors image_path) as [|c colors] eqn:Hcolors; [done|].
  cbv beta iota zeta.
  rewrite emotion_label_quotient by by apply distinct_buckets_pos.
  by rewrite sum_warmth_counts.
Qed.

Lemma filter_all {A} (P : A → Prop) `{∀ x, Decision (P x)} (l : list A) :
  Forall P l → filter P l = l.
Proof.
  induction 1 as [|x l Hx _ IH]; [done|].
  by rewrite filter_cons_True, IH.
Qed.

Lemma filter_none {A} (P : A → Prop) `{∀ x, Decision (P x)} (l : list A) :
  Forall (fun x => ¬ P x) l → filter P l = [].
Proof.
  induction 1 as [|x l Hx _ IH]; [done|].
  by rewrite filter_cons_False, IH.
Qed.

Lemma distinct_buckets_le (colors : list rgb) :
  (length (distinct_buckets colors) ≤ length colors)%nat.
Proof.
  rewrite <-buckets_length. unfold distinct_buckets.
  apply submseteq_length, NoDup_submseteq; [apply NoDup_remove_dups|].
  intros b. by rewrite elem_of_remove_dups.
Qed.

(** X4. Uniform palettes: an image all of whose clusters are warm (Red,
    Orange or Yellow) is "Energetic & Passionate", one all of whose clusters
    are cool (Green or Blue) is "Cool & Professional", and one with only
    White and Black clusters is "Balanced & Neutral", whatever the number of
    clusters. *)
Theorem analyze_emotion_uniform (image_path : string) :
  extract_main_colors image_path ≠ [] →
  (Forall (fun b => warmth b = 1) (buckets (extract_main_colors image_path)) →
   analyze_emotion image_path = Ok "Energetic & Passionate") ∧
  (Forall (fun b => warmth b = -1) (buckets (extract_main_colors image_path)) →
   analyze_emotion image_path = Ok "Cool & Professional") ∧
  (Forall (fun b => warmth b = 0) (buckets (extract_main_colors image_path)) →
   analyze_emotion image_path = Ok "Balanced & Neutral").
Proof.
  intros Hne. rewrite analyze_emotion_sum.
  destruct (extract_main_colors image_path) as [|c colors] eqn:Hcolors; [done|].
  cbv beta iota zeta. set (l := c :: colors) in Hne |- *.
  rewrite emotion_label_quotient by by apply distinct_buckets_pos.
  rewrite sum_warmth_counts.
  pose proof (distinct_buckets_pos l Hne) as Hpos.
  pose proof (distinct_buckets_le l) as Hle.
  pose proof (buckets_length l) as Hlen.
  assert (∀ a b : Z, (a <? b) = true ↔ a < b) as Hlt by (intros; apply Z.ltb_lt).
  assert (∀ a b : Z, (a <? b) = false ↔ b ≤ a) as Hge by (intros; apply Z.ltb_ge).
  unfold emotion_label_Z. split_and!; intros Hall.
  - rewrite (filter_all _ _ Hall), filter_none; last first.
    { eapply Forall_impl; [exact Hall|]. simpl. lia. }
    rewrite Hlen. cbn [length].
    assert ((Z.of_nat (length (distinct_buckets l))
            <? 2 * (Z.of_nat (length l) - Z.of_nat 0)) = true) as ->; [|done].
    apply Hlt. lia.
  - rewrite (filter_all (fun b => warmth b = -1) _ Hall), filter_none; last first.
    { eapply Forall_impl; [exact Hall|]. simpl. lia. }
    rewrite Hlen. cbn [length].
    assert ((Z.of_nat (length (distinct_buckets l))
            <? 2 * (Z.of_nat 0 - Z.of_nat (length l))) = false) as ->
      by (apply Hge; lia).
    assert ((0 <? Z.of_nat 0 - Z.of_nat (length l)) = false) as ->
      by (apply Hge; lia).
    assert ((2 * (Z.of_nat 0 - Z.of_nat (length l))
            <? - Z.of_nat (length (distinct_buckets l))) = true) as ->; [|done].
    apply Hlt. lia.
  - rewrite !filter_none.
    2,3: (eapply Forall_impl; [exact Hall|]; simpl; lia).
    cbn [length].
    assert ((Z.of_nat (length (distinct_buckets l))
            <? 2 * (Z.of_nat 0 - Z.of_nat 0)) = false) as -> by (apply Hge; lia).
    assert ((2 * (Z.of_nat 0 - Z.of_nat 0)
            <? - Z.of_nat (length (distinct_buckets l))) = false) as ->
      by (apply Hge; lia).
    done.
Qed.

(** ** More on the difference hash *)

Lemma dhash_diff_elem_of (img : image) (n : nat) (d : bool) :
  d ∈ dhash_diff img n →
  ∃ x y, (x < n)%nat ∧ (y < n)%nat ∧
         d = (getpixel img (x, y) >? getpixel img (x + 1, y)%nat).
Proof.
  unfold dhash_diff. intros Hin%list_elem_of_In%in_flat_map.
  destruct Hin as (y & [_ Hy]%list_elem_of_In%elem_of_seq & Hin).
  apply list_elem_of_In, list_elem_of_fmap in Hin
    as (x & -> & [_ Hx]%elem_of_seq).
  exists x, y. split_and!; [lia|lia|done].
Qed.

Lemma dhash_diff_bit_ext (img img' : image) (n : nat) :
  (∀ x y, (x < n)%nat → (y < n)%nat →
     (getpixel img' (x, y) >? getpixel img' (x + 1, y)%nat)
     = (getpixel img (x, y) >? getpixel img (x + 1, y)%nat)) →
  dhash_diff img' n = dhash_diff img n.
Proof.
  intros Hbit. unfold dhash_diff. apply flat_map_ext_elem_of.
  intros y [_ Hy]%elem_of_seq. apply map_ext_in.
  intros x [_ Hx]%list_elem_of_In%elem_of_seq. apply Hbit; lia.
Qed.

(** X5. An image whose resized luminance never decreases from left to right
    along a row (a flat image in particular) hashes to the string of N * N
    zeros, so all such images have the same hash. *)
Theorem dhash_nondecreasing_rows (img : image) (hash_size : nat) :
  (∀ x y, (x < hash_size)%nat → (y < hash_size)%nat →
     getpixel (resize_LANCZOS (convert_L img) (hash_size + 1, hash_size)%nat) (x, y)
     ≤ getpixel (resize_LANCZOS (convert_L img) (hash_size + 1, hash_size)%nat)
                (x + 1, y)%nat) →
  dhash img hash_size
  = foldr String.append EmptyString (replicate (hash_size * hash_size) "0").
Proof.
  intros Hrows. unfold dhash.
  set (small := resize_LANCZOS (convert_L img) (hash_size + 1, hash_size)%nat)
    in Hrows |- *.
  assert (dhash_diff small hash_size = replicate (hash_size * hash_size) false)
    as ->.
  { symmetry. apply replicate_as_Forall. split; [apply dhash_diff_length|].
    apply Forall_forall. intros d (x & y & Hx & Hy & ->)%dhash_diff_elem_of.
    symmetry. rewrite Z.gtb_ltb. apply Z.ltb_ge. by apply Hrows. }
  change (map ?f ?l) with (f <$> l). by rewrite fmap_replicate.
Qed.

(** X6. The hash only looks at the order of horizontally adjacent pixels:
    applying a strictly increasing map to the luminance values (a brightness
    or contrast change) leaves the hash unchanged. *)
Theorem dhash_order_invariant (img img' : image) (hash_size : nat) (f : Z → Z) :
  (∀ a b, a < b → f a < f b) →
  (∀ x y, (x ≤ hash_size)%nat → (y < hash_size)%nat →
     getpixel (resize_LANCZOS (convert_L img') (hash_size + 1, hash_size)%nat) (x, y)
     = f (getpixel (resize_LANCZOS (convert_L img) (hash_size + 1, hash_size)%nat)
                   (x, y))) →
  dhash img' hash_size = dhash img hash_size.
Proof.
  intros Hmono Hpx. unfold dhash. f_equal. f_equal.
  apply dhash_diff_bit_ext. intros x y Hx Hy.
  rewrite !Hpx by lia.
  set (a := getpixel _ (x, y)). set (b := getpixel _ (x + 1, y)%nat).
  rewrite !Z.gtb_ltb.
  destruct (Z.ltb_spec b a) as [Hlt|Hge].
  - apply Z.ltb_lt. by apply Hmono.
  - apply Z.ltb_ge. destruct (decide (a = b)) as [->|Hne]; [lia|].
    assert (a < b) as Hab by lia. apply Hmono in Hab. lia.
Qed.

(** X7. For a positive hash size (PIL refuses the resize to height 0, so
    there is no hash of size 0), every character of a hash is "0" or "1",
    it stands at an index [i] below N * N, and it is "1" exactly when, in the
    resized luminance image, the pixel in column [i mod N] of row [i / N] is
    brighter than its right neighbour. *)
Theorem dhash_alphabet (img : image) (hash_size : nat) (i : nat) (c : ascii) :
  (0 < hash_size)%nat →
  String.get i (dhash img hash_size) = Some c →
  (c = "0"%char ∨ c = "1"%char) ∧ (i < hash_size * hash_size)%nat ∧
  (c = "1"%char
   ↔ getpixel (resize_LANCZOS (convert_L img) (hash_size + 1, hash_size)%nat)
              (i mod hash_size + 1, i / hash_size)%nat
     < getpixel (resize_LANCZOS (convert_L img) (hash_size + 1, hash_size)%nat)
                (i mod hash_size, i / hash_size)%nat).
Proof.
  intros Hpos. unfold dhash.
  change (map (fun d : bool => if d then "1" else "0")) with (map bit_string).
  rewrite join_bits_get. intros Hget.
  destruct (dhash_diff _ hash_size !! i) as [d|] eqn:Hd; [|done].
  simpl in Hget. injection Hget as <-.
  assert (i < hash_size * hash_size)%nat as Hi.
  { apply lookup_lt_Some in Hd. by rewrite dhash_diff_length in Hd. }
  split_and!; [destruct d; simpl; auto|done|].
  assert (i = i / hash_size * hash_size + i mod hash_size)%nat as Hdiv.
  { rewrite (Nat.div_mod_eq i hash_size) at 1. lia. }
  assert (i mod hash_size < hash_size)%nat as Hx
    by (apply Nat.mod_upper_bound; lia).
  assert (i / hash_size < hash_size)%nat as Hy
    by (apply Nat.Div0.div_lt_upper_bound; lia).
  rewrite Hdiv, dhash_diff_lookup in Hd by done. injection Hd as <-.
  destruct (Z.gtb_spec
              (getpixel (resize_LANCZOS (convert_L img)
                           (hash_size + 1, hash_size)%nat)
                 (i mod hash_size, i / hash_size)%nat)
              (getpixel (resize_LANCZOS (convert_L img)
                           (hash_size + 1, hash_size)%nat)
                 (i mod hash_size + 1, i / hash_size)%nat)) as [Hgt|Hle];
    simpl; split; try done; intros; lia.
Qed.

(** ** More on brands and the selection *)

Lemma item0_split_at_cons (sep : ascii → bool) (c : ascii) (s : string) :
  item0 (split_at sep (String c s))
  = if sep c then EmptyString else String c (item0 (split_at sep s)).
Proof.
  simpl. destruct (sep c); [done|].
  destruct (split_at sep s) as [|w ws] eqn:Hsplit; [|done].
  by apply split_at_nonempty in Hsplit.
Qed.

Lemma item0_split_at_app (sep : ascii → bool) (s t : string) :
  Forall (fun c => sep c = false) (String.list_ascii_of_string s) →
  item0 (split_at sep (s +:+ t)) = s +:+ item0 (split_at sep t).
Proof.
  induction s as [|c s IH]; intros Hfree; [done|].
  apply Forall_cons in Hfree as [Hc Hfree].
  change (String c s +:+ t) with (String c (s +:+ t)).
  rewrite item0_split_at_cons, Hc, IH by done. done.
Qed.

Lemma string_app_empty_r (s : string) : s +:+ EmptyString = s.
Proof.
  induction s as [|c s IH]; [done|].
  change (String c (s +:+ EmptyString) = String c s). by f_equal.
Qed.

Lemma item0_split_at_free (sep : ascii → bool) (s : string) :
  Forall (fun c => sep c = false) (String.list_ascii_of_string s) →
  item0 (split_at sep s) = s.
Proof.
  intros Hfree. rewrite <-(string_app_empty_r s) at 1.
  rewrite item0_split_at_app by done. apply string_app_empty_r.
Qed.

Lemma separator_free (s : string) :
  Forall (fun c => ¬ separator c) (String.list_ascii_of_string s) →
  Forall (fun c => is_dot c = false) (String.list_ascii_of_string s) ∧
  Forall (fun c => is_dash_or_underscore c = false) (String.list_ascii_of_string s).
Proof.
  intros Hfree. split; (eapply Forall_impl; [exact Hfree|]); simpl; intros c Hc.
  - apply bool_decide_eq_false. intros ->. apply Hc. by left.
  - unfold is_dash_or_underscore. apply orb_false_iff.
    split; apply bool_decide_eq_false; intros ->; apply Hc; unfold separator; auto.
Qed.

Lemma extract_brand_free (s : string) :
  Forall (fun c => ¬ separator c) (String.list_ascii_of_string s) →
  extract_brand s = s.
Proof.
  intros [Hdot Hdash]%separator_free. unfold extract_brand.
  by rewrite (item0_split_at_free is_dot), (item0_split_at_free _ s).
Qed.

(** X8. [extract_brand] is idempotent, returns a name without separators
    unchanged, and ignores everything from the first separator on: a
    separator-free name followed by '.', '-' or '_' and anything else has
    that name as its brand. *)
Theorem extract_brand_cut (domain : string) :
  extract_brand (extract_brand domain) = extract_brand domain ∧
  (∀ (s : string) (c : ascii) (r : string),
     Forall (fun c => ¬ separator c) (String.list_ascii_of_string s) →
     separator c →
     extract_brand s = s ∧ extract_brand (s +:+ String c r) = s).
Proof.
  split.
  - destruct (extract_brand_prefix domain) as (rest & _ & Hfree & _).
    by apply extract_brand_free.
  - intros s c r Hfree Hc. split; [by apply extract_brand_free|].
    pose proof (separator_free s Hfree) as [Hdot Hdash].
    unfold extract_brand.
    rewrite (item0_split_at_app is_dot) by done.
    rewrite item0_split_at_cons.
    destruct (is_dot c) eqn:Hcdot.
    + rewrite string_app_empty_r. by apply item0_split_at_free.
    + rewrite (item0_split_at_app is_dash_or_underscore) by done.
      rewrite item0_split_at_cons.
      assert (is_dash_or_underscore c = true) as ->.
      { unfold is_dot in Hcdot. apply bool_decide_eq_false in Hcdot.
        unfold is_dash_or_underscore. apply orb_true_iff.
        destruct Hc as [?|[->| ->]]; [done|by left|by right]. }
      apply string_app_empty_r.
Qed.

Lemma selected_domains_brands (df_domain : list string) :
  map extract_brand (selected_domains df_domain) = (brand_dict df_domain).*1.
Proof.
  destruct (brand_dict_spec df_domain) as [Hnd Hget].
  unfold selected_domains. rewrite map_map. apply map_ext_in.
  intros [k ds] Hin%list_elem_of_In.
  apply (dict_get_NoDup _ _ _ Hnd) in Hin. rewrite Hget in Hin.
  destruct (filter _ df_domain) as [|x ds'] eqn:Hf; [done|].
  injection Hin as <-. simpl.
  by apply filter_head_first in Hf as [Hx _].
Qed.

Lemma logo_filename_brand (d1 d2 : string) :
  logo_filename d1 = logo_filename d2 → extract_brand d1 = extract_brand d2.
Proof.
  unfold logo_filename, extract_brand. by intros ->%string_app_inv_tail.
Qed.

Lemma NoDup_map_inj_on {A B} (f : A → B) (l : list A) (x y : A) :
  NoDup (map f l) → x ∈ l → y ∈ l → f x = f y → x = y.
Proof.
  intros Hnd [i Hi]%list_elem_of_lookup [j Hj]%list_elem_of_lookup Heq.
  assert (i = j) as ->; [|congruence].
  apply (proj1 (NoDup_alt _) Hnd i j (f x)).
  - change (map f l) with (f <$> l). by rewrite list_lookup_fmap, Hi.
  - change (map f l) with (f <$> l). by rewrite list_lookup_fmap, Hj, Heq.
Qed.

(** X9. No two selected domains are written to the same file: the file names
    [logo_filename] of the selected domains are pairwise different, hence so
    are the paths the fetch tasks work on. *)
Theorem selected_domains_distinct_files (df_domain : list string) :
  NoDup (map logo_filename (selected_domains df_domain)) ∧
  NoDup (map (fun domain => os_path_join "logos" (logo_filename domain))
             (selected_domains df_domain)).
Proof.
  assert (NoDup (map extract_brand (selected_domains df_domain))) as Hbrands.
  { rewrite selected_domains_brands. apply brand_dict_spec. }
  assert (NoDup (selected_domains df_domain)) as Hnd.
  { by apply (NoDup_fmap_1 extract_brand). }
  split.
  - apply NoDup_fmap_2_strong; [|done].
    intros d1 d2 Hd1 Hd2 Heq%logo_filename_brand.
    by apply (NoDup_map_inj_on extract_brand (selected_domains df_domain)).
  - apply NoDup_fmap_2_strong; [|done].
    intros d1 d2 Hd1 Hd2 Heq%os_path_join_inj_name%logo_filename_brand.
    by apply (NoDup_map_inj_on extract_brand (selected_domains df_domain)).
Qed.

Lemma brand_dict_snoc (l : list string) (domain : string) :
  brand_dict (l ++ [domain])
  = defaultdict_append (brand_dict l) (extract_brand domain) domain.
Proof. unfold brand_dict. by rewrite fold_left_app. Qed.

Lemma defaultdict_append_firsts (d : list (string * list string))
    (brand domain : string) :
  Forall (fun kv => kv.2 ≠ []) d →
  map (fun kv => item0 kv.2) (defaultdict_append d brand domain)
  = if decide (brand ∈ d.*1) then map (fun kv => item0 kv.2) d
    else map (fun kv => item0 kv.2) d ++ [domain].
Proof.
  induction 1 as [|[b ds] d Hds _ IH].
  - rewrite decide_False; [done|]. apply not_elem_of_nil.
  - cbn [defaultdict_append]. destruct (decide (b = brand)) as [->|Hne].
    + rewrite decide_True by (simpl; left). simpl in *.
      destruct ds as [|x ds]; done.
    + cbn [map fmap list_fmap fst]. rewrite IH.
      destruct (decide (brand ∈ d.*1)) as [Hin|Hnin].
      * rewrite decide_True; [done|]. by right.
      * rewrite decide_False; [done|]. rewrite elem_of_cons.
        intros [?|?]; congruence.
Qed.

Lemma brand_dict_keys (l : list string) (brand : string) :
  brand ∈ (brand_dict l).*1 ↔ brand ∈ map extract_brand l.
Proof.
  destruct (brand_dict_spec l) as [Hnd Hget]. split.
  - intros ([k ds] & -> & Hin)%list_elem_of_fmap. simpl.
    apply (dict_get_NoDup _ _ _ Hnd) in Hin. rewrite Hget in Hin.
    destruct (filter (of_brand k) l) as [|x ds'] eqn:Hf; [done|].
    assert (x ∈ filter (of_brand k) l) as Hx by (rewrite Hf; left).
    apply list_elem_of_filter in Hx as [Hx Hxl].
    apply list_elem_of_fmap. by exists x.
  - intros (d & -> & Hd)%list_elem_of_fmap.
    specialize (Hget (extract_brand d)).
    destruct (filter (of_brand (extract_brand d)) l) as [|x ds] eqn:Hf.
    + assert (d ∈ filter (of_brand (extract_brand d)) l) as Hin
        by by apply list_elem_of_filter.
      rewrite Hf in Hin. by apply elem_of_nil in Hin.
    + apply dict_get_elem_of in Hget. apply list_elem_of_fmap.
      by exists (extract_brand d, x :: ds).
Qed.

(** Selection one domain at a time: a domain is added at the end when its
    brand is new, and dropped otherwise. *)
Lemma selected_domains_snoc (l : list string) (domain : string) :
  selected_domains (l ++ [domain])
  = if decide (extract_brand domain ∈ map extract_brand l)
    then selected_domains l
    else selected_domains l ++ [domain].
Proof.
  unfold selected_domains. rewrite brand_dict_snoc.
  rewrite defaultdict_append_firsts; last first.
  { apply Forall_forall. intros [k ds] Hin. simpl.
    by eapply brand_dict_values_nonempty. }
  destruct (decide (extract_brand domain ∈ (brand_dict l).*1)) as [Hin|Hnin].
  - rewrite decide_True; [done|]. by apply brand_dict_keys.
  - rewrite decide_False; [done|]. by rewrite <-brand_dict_keys.
Qed.

Lemma selected_domains_fixed (l : list string) :
  NoDup (map extract_brand l) → selected_domains l = l.
Proof.
  induction l as [|d l IH] using rev_ind; intros Hnd; [done|].
  change (map ?f ?l) with (f <$> l) in Hnd. rewrite fmap_app in Hnd.
  apply NoDup_app in Hnd as (Hnd & Hfresh & _).
  rewrite selected_domains_snoc, decide_False.
  - by rewrite IH.
  - intros Hin. apply (Hfresh _ Hin). left.
Qed.

(** X10. The selection keeps the input order: the selected domains are a
    subsequence of the input, there are as many of them as there are distinct
    brands, an input without repeated brands is selected unchanged, and
    selecting twice selects nothing less. *)
Theorem selected_domains_sublist (df_domain : list string) :
  selected_domains df_domain `sublist_of` df_domain ∧
  length (selected_domains df_domain)
  = length (remove_dups (map extract_brand df_domain)) ∧
  (NoDup (map extract_brand df_domain) → selected_domains df_domain = df_domain) ∧
  selected_domains (selected_domains df_domain) = selected_domains df_domain.
Proof.
  split_and!.
  - induction df_domain as [|d l IH] using rev_ind; [done|].
    rewrite selected_domains_snoc. case_decide.
    + by apply sublist_inserts_r.
    + by apply sublist_app.
  - rewrite <-(length_map extract_brand), selected_domains_brands.
    apply Permutation_length, NoDup_Permutation.
    + apply brand_dict_spec.
    + apply NoDup_remove_dups.
    + intros b. by rewrite brand_dict_keys, elem_of_remove_dups.
  - apply selected_domains_fixed.
  - apply selected_domains_fixed. rewrite selected_domains_brands.
    apply brand_dict_spec.
Qed.

(** ** More on the exact-duplicate phase *)

Lemma elem_of_download_logo (domain : string) (files : gset string) (p : string) :
  p ≠ os_path_join "logos" (logo_filename domain) →
  (p ∈ download_logo domain files ↔ p ∈ files).
Proof.
  drop_unused. intros Hne. unfold download_logo. case_match; set_solver.
Qed.

Lemma process_logo_frame (domain : string) (w w' : world) :
  process_logo domain "logos" w = Ok w' →
  (∀ p, p ≠ os_path_join "logos" (logo_filename domain) →
        (p ∈ fs w' ↔ p ∈ fs w)) ∧
  (∀ h p, hashes w !! h = Some p → hashes w' !! h = Some p) ∧
  (size (hashes w') ≤ S (size (hashes w)))%nat.
Proof.
  drop_unused.
  rewrite process_logo_eq. intros [= <-].
  destruct (hash_value_of domain "logos" w) as [h|]; [|simpl].
  - destruct (decide (is_Some (hashes w !! h))) as [Hsome|Hnone]; simpl.
    + split_and!; [|done|lia].
      intros p Hp. rewrite elem_of_difference, elem_of_download_logo by done.
      set_solver.
    + apply eq_None_not_Some in Hnone. split_and!.
      * intros p Hp. by apply elem_of_download_logo.
      * intros k p Hk. rewrite lookup_insert_ne; [done|]. congruence.
      * by rewrite map_size_insert_None.
  - split_and!; [|done|lia].
    intros p Hp. rewrite elem_of_difference, elem_of_download_logo by done.
    set_solver.
Qed.

(** X11. A run of the fetch pool touches only the files of the domains it
    processes, never changes or removes a registry entry that is already
    there, and adds at most one entry per domain. *)
Theorem process_all_frame (domains : list string) (w0 : world) :
  ∃ w, process_all domains "logos" w0 = Ok w ∧
    (∀ p, (∀ domain, domain ∈ domains →
             p ≠ os_path_join "logos" (logo_filename domain)) →
          (p ∈ fs w ↔ p ∈ fs w0)) ∧
    (∀ h p, hashes w0 !! h = Some p → hashes w !! h = Some p) ∧
    (size (hashes w) ≤ size (hashes w0) + length domains)%nat.
Proof.
  revert w0. induction domains as [|domain rest IH]; intros w0.
  - exists w0. split_and!; [done|done|done|simpl; lia].
  - rewrite process_all_cons.
    destruct (process_logo domain "logos" w0) as [w1|e] eqn:Hstep.
    2: { rewrite process_logo_eq in Hstep. done. }
    destruct (process_logo_frame _ _ _ Hstep) as (Hfs1 & Hreg1 & Hsize1).
    destruct (IH w1) as (w & Hrun & Hfs & Hreg & Hsize).
    exists w. split_and!; [done| | |simpl; lia].
    + intros p Hp. rewrite Hfs, Hfs1; [done| |].
      * apply Hp. left.
      * intros d Hd. apply Hp. by right.
    + intros h p Hh. by apply Hreg, Hreg1.
Qed.

Lemma process_logo_registry_sound (processed : list string) (domain : string)
    (w w' : world) :
  registry_sound processed w →
  logo_filename domain ∉ map logo_filename processed →
  process_logo domain "logos" w = Ok w' →
  registry_sound (domain :: processed) w'.
Proof.
  drop_unused.
  intros Hinv Hfresh. rewrite process_logo_eq. intros [= <-].
  assert (∀ h p, hashes w !! h = Some p →
            p ≠ os_path_join "logos" (logo_filename domain)) as Hother.
  { intros h p Hh Heq. destruct (Hinv h p Hh) as (_ & _ & d & Hd & ->).
    apply os_path_join_inj_name in Heq. apply Hfresh.
    apply list_elem_of_fmap. by exists d. }
  assert (∀ h p, hashes w !! h = Some p →
            (∃ img, Image_open p = Ok img ∧ dhash img 8 = h) ∧
            ∃ d, d ∈ domain :: processed ∧ p = os_path_join "logos" (logo_filename d))
    as Hold.
  { intros h p Hh. destruct (Hinv h p Hh) as (_ & Himg & d & Hd & ->).
    split; [done|]. exists d. split; [by right|done]. }
  destruct (hash_value_of domain "logos" w) as [h|] eqn:Hh.
  - apply hash_value_of_Some in Hh as (Hin & img & Himg & ->).
    destruct (decide (is_Some (hashes w !! dhash img 8))) as [Hsome|Hnone].
    + intros k p Hk. simpl in Hk |- *. split; [|by apply Hold].
      apply elem_of_difference. split.
      * apply elem_of_download_logo; [by eapply Hother|]. by apply (Hinv k p).
      * apply not_elem_of_singleton. by eapply Hother.
    + intros k p Hk. simpl in Hk |- *.
      apply lookup_insert_Some in Hk as [[<- <-]|[Hne Hk]].
      * split_and!; [done|by exists img|]. exists domain. split; [left|done].
      * split; [|by apply Hold].
        apply elem_of_download_logo; [by eapply Hother|]. by apply (Hinv k p).
  - intros k p Hk. simpl in Hk |- *. split; [|by apply Hold].
    apply elem_of_difference. split.
    + apply elem_of_download_logo; [by eapply Hother|]. by apply (Hinv k p).
    + apply not_elem_of_singleton. by eapply Hother.
Qed.

Lemma process_all_registry_sound (domains processed : list string) (w0 w : world) :
  registry_sound processed w0 →
  NoDup (map logo_filename (domains ++ processed)) →
  process_all domains "logos" w0 = Ok w →
  registry_sound (domains ++ processed) w.
Proof.
  drop_unused.
  revert processed w0. induction domains as [|domain rest IH];
    intros processed w0 Hinv Hnd Hrun.
  - by injection Hrun as <-.
  - rewrite process_all_cons in Hrun.
    destruct (process_logo domain "logos" w0) as [w1|] eqn:Hstep; [|done].
    simpl in Hnd. apply NoDup_cons in Hnd as [Hfresh Hnd].
    assert (registry_sound (domain :: processed) w1) as Hinv1.
    { eapply process_logo_registry_sound; [exact Hinv| |exact Hstep].
      intros Hin. apply Hfresh. change (map ?f ?l) with (f <$> l).
      rewrite fmap_app, elem_of_app. by right. }
    assert (registry_sound (rest ++ domain :: processed) w) as Hfinal.
    { eapply IH; [exact Hinv1| |exact Hrun].
      change (map ?f ?l) with (f <$> l) in Hnd |- *.
      rewrite fmap_app in Hnd |- *. rewrite fmap_cons.
      apply NoDup_app in Hnd as (Hnd1 & Hdisj & Hnd2).
      apply NoDup_app. split_and!; [done| |].
      - intros x Hx [->|Hx']%elem_of_cons.
        + apply Hfresh. change (map ?f ?l) with (f <$> l).
          rewrite fmap_app, elem_of_app. by left.
        + by apply (Hdisj x).
      - apply NoDup_cons. split; [|done].
        intros Hin. apply Hfresh. change (map ?f ?l) with (f <$> l).
        rewrite fmap_app, elem_of_app. by right. }
    intros h p Hh. destruct (Hfinal h p Hh) as (Hfs & Himg & d & Hd & ->).
    split_and!; [done..|]. exists d. split; [|done].
    rewrite elem_of_app, elem_of_cons in Hd.
    rewrite elem_of_app, elem_of_cons. destruct Hd as [?|[?|?]]; auto.
Qed.

(** X12. When the processed domains have pairwise different file names and
    the registry starts empty, every file the registry names at the end of
    the run is on disk, opens, has the hash it is registered under, and
    belongs to one of the processed domains: a registered file is never
    deleted by a later task. *)
Theorem registry_files_on_disk (domains : list string) (w0 : world) :
  hashes w0 = ∅ →
  NoDup (map logo_filename domains) →
  ∃ w, process_all domains "logos" w0 = Ok w ∧
    ∀ h p, hashes w !! h = Some p →
      p ∈ fs w ∧
      (∃ img, Image_open p = Ok img ∧ dhash img 8 = h) ∧
      ∃ domain, domain ∈ domains ∧
                p = os_path_join "logos" (logo_filename domain).
Proof.
  intros Hempty Hnd.
  destruct (process_all_registry domains w0) as (w & Hrun & _).
  exists w. split; [done|].
  assert (registry_sound (domains ++ []) w) as Hinv.
  { eapply process_all_registry_sound; [|by rewrite app_nil_r|exact Hrun].
    intros h p Hh. by rewrite Hempty, lookup_empty in Hh. }
  rewrite app_nil_r in Hinv. exact Hinv.
Qed.

(** X13. [process_logo] is not idempotent: when a domain's file has been
    registered under a new hash, processing the same domain once more (the
    file reading as before) deletes the file, although the registry still
    names it as the holder of its hash. *)
Theorem process_logo_twice (domain : string) (w : world) (h : string) :
  hash_value_of domain "logos" w = Some h →
  hashes w !! h = None →
  ∃ w1 w2,
    process_logo domain "logos" w = Ok w1 ∧
    os_path_join "logos" (logo_filename domain) ∈ fs w1 ∧
    process_logo domain "logos" w1 = Ok w2 ∧
    hashes w2 !! h = Some (os_path_join "logos" (logo_filename domain)) ∧
    os_path_join "logos" (logo_filename domain) ∉ fs w2.
Proof.
  drop_unused.
  intros Hh Hnone.
  pose proof (hash_value_of_Some _ _ _ Hh) as (Hin & img & Himg & ->).
  eexists _, _. split; [apply process_logo_eq|].
  rewrite Hh. rewrite decide_False by (rewrite Hnone; by intros [? ?]).
  split; [done|].
  split; [apply process_logo_eq|].
  assert (hash_value_of domain "logos"
            (World (download_logo domain (fs w))
               (<[dhash img 8 := os_path_join "logos" (logo_filename domain)]>
                  (hashes w)))
          = Some (dhash img 8)) as ->.
  { unfold hash_value_of. simpl. rewrite decide_True, Himg; [done|].
    clear -Hin. unfold download_logo in *. case_match; set_solver. }
  simpl. rewrite decide_True by (rewrite lookup_insert_eq; by eexists).
  simpl. split; [by rewrite lookup_insert_eq|]. set_solver.
Qed.

(** ** More on the near-duplicate phase *)

Lemma Qhalf_le (x y : Q) : (x <= y)%Q → (x / 2 <= y / 2)%Q.
Proof. intros Hxy. unfold Qdiv. change (/ 2)%Q with (1 # 2)%Q. lra. Qed.

Lemma Qdiv_pow2_succ (m : Z) (k : nat) :
  (inject_Z m / inject_Z (2 ^ Z.of_nat (S k))
   == inject_Z m / inject_Z (2 ^ Z.of_nat k) / 2)%Q.
Proof.
  assert (0 < inject_Z (2 ^ Z.of_nat k))%Q as Hpow.
  { change 0%Q with (inject_Z 0). rewrite <-Zlt_Qlt. lia. }
  rewrite Nat2Z.inj_succ, Z.pow_succ_r, inject_Z_mult by lia.
  change (inject_Z 2) with 2%Q. field. lra.
Qed.

Lemma Qdiv_times_100 (m : Z) (p : Q) :
  (inject_Z (100 * m) / p == inject_Z m / p * 100)%Q.
Proof.
  rewrite inject_Z_mult. change (inject_Z 100) with 100%Q.
  unfold Qdiv. ring.
Qed.

Section DoubleFacts.

Variable fl : Q → Q.
(** Rounding to nearest is monotone and leaves a double as it is. *)
Hypothesis fl_monotone : ∀ x y : Q, (x <= y)%Q → (fl x <= fl y)%Q.
Hypothesis fl_double : ∀ x : Q, double x → (fl x == x)%Q.

Lemma double_dyadic (m : Z) (k : nat) :
  Z.abs m < 2 ^ 53 → (k ≤ 1074)%nat →
  double (inject_Z m / inject_Z (2 ^ Z.of_nat k)).
Proof. intros Hm Hk. exists m, k. by split_and!. Qed.

Lemma fl_ge (x : Q) (m : Z) (k : nat) :
  Z.abs m < 2 ^ 53 → (k ≤ 1074)%nat →
  (inject_Z m / inject_Z (2 ^ Z.of_nat k) <= x)%Q →
  (inject_Z m / inject_Z (2 ^ Z.of_nat k) <= fl x)%Q.
Proof using fl_monotone fl_double.
  drop_unused.
  intros Hm Hk Hx. rewrite <-(fl_double _ (double_dyadic m k Hm Hk)).
  by apply fl_monotone.
Qed.

Lemma fl_le (x : Q) (m : Z) (k : nat) :
  Z.abs m < 2 ^ 53 → (k ≤ 1074)%nat →
  (x <= inject_Z m / inject_Z (2 ^ Z.of_nat k))%Q →
  (fl x <= inject_Z m / inject_Z (2 ^ Z.of_nat k))%Q.
Proof using fl_monotone fl_double.
  drop_unused.
  intros Hm Hk Hx. rewrite <-(fl_double _ (double_dyadic m k Hm Hk)).
  by apply fl_monotone.
Qed.

(** The remap keeps the order and the exactly representable bounds. *)
Lemma remap_double_monotone (c c' : Q) :
  (c <= c')%Q → (remap_double fl c <= remap_double fl c')%Q.
Proof using fl_monotone.
  drop_unused.
  intros Hc. unfold remap_double. apply fl_monotone.
  assert (fl (fl (c + 1) / 2) <= fl (fl (c' + 1) / 2))%Q as Hhalf.
  { apply fl_monotone, Qhalf_le, fl_monotone. lra. }
  lra.
Qed.

Lemma remap_double_ge (c : Q) (m : Z) (k : nat) :
  Z.abs m < 2 ^ 53 → Z.abs (100 * m) < 2 ^ 53 → (k < 1074)%nat →
  (inject_Z m / inject_Z (2 ^ Z.of_nat k) - 1 <= c)%Q →
  (inject_Z (100 * m) / inject_Z (2 ^ Z.of_nat (S k)) <= remap_double fl c)%Q.
Proof using fl_monotone fl_double.
  drop_unused.
  intros Hm Hm' Hk Hc. unfold remap_double.
  assert (inject_Z m / inject_Z (2 ^ Z.of_nat k) <= fl (c + 1))%Q as H1.
  { apply fl_ge; [done|lia|]. generalize dependent (inject_Z m / inject_Z (2 ^ Z.of_nat k))%Q.
    intros q Hq. lra. }
  assert (inject_Z m / inject_Z (2 ^ Z.of_nat (S k)) <= fl (fl (c + 1) / 2))%Q
    as H2.
  { apply fl_ge; [done|lia|]. rewrite Qdiv_pow2_succ. by apply Qhalf_le. }
  apply fl_ge; [done|lia|].
  rewrite Qdiv_times_100.
  generalize dependent (inject_Z m / inject_Z (2 ^ Z.of_nat (S k)))%Q.
  intros q Hq. lra.
Qed.

Lemma remap_double_le (c : Q) (m : Z) (k : nat) :
  Z.abs m < 2 ^ 53 → Z.abs (100 * m) < 2 ^ 53 → (k < 1074)%nat →
  (c <= inject_Z m / inject_Z (2 ^ Z.of_nat k) - 1)%Q →
  (remap_double fl c <= inject_Z (100 * m) / inject_Z (2 ^ Z.of_nat (S k)))%Q.
Proof using fl_monotone fl_double.
  drop_unused.
  intros Hm Hm' Hk Hc. unfold remap_double.
  assert (fl (c + 1) <= inject_Z m / inject_Z (2 ^ Z.of_nat k))%Q as H1.
  { apply fl_le; [done|lia|]. generalize dependent (inject_Z m / inject_Z (2 ^ Z.of_nat k))%Q.
    intros q Hq. lra. }
  assert (fl (fl (c + 1) / 2) <= inject_Z m / inject_Z (2 ^ Z.of_nat (S k)))%Q
    as H2.
  { apply fl_le; [done|lia|]. rewrite Qdiv_pow2_succ. by apply Qhalf_le. }
  apply fl_le; [done|lia|].
  rewrite Qdiv_times_100.
  generalize dependent (inject_Z m / inject_Z (2 ^ Z.of_nat (S k)))%Q.
  intros q Hq. lra.
Qed.

Lemma calculate_histogram_similarity_double_inv (files : gset string)
    (p1 p2 : string) (s : Q) :
  calculate_histogram_similarity_double fl files p1 p2 = Ok s →
  ∃ c, compareHist p1 p2 = Ok c ∧ s = remap_double fl c.
Proof.
  clear fl_monotone fl_double.
  unfold calculate_histogram_similarity_double, cv2_imread.
  destruct (decide (p1 ∈ files)) as [H1|]; [|done].
  destruct (cv2_decodes p1); [|done].
  destruct (decide (p2 ∈ files)) as [H2|]; [|done].
  destruct (cv2_decodes p2); [|done].
  destruct (compareHist p1 p2) as [c|err]; [|done].
  intros [= <-]. by exists c.
Qed.

(** X14. The score in double precision: it is the correlation that OpenCV
    returns, remapped by three rounded operations, and it does not decrease
    when the correlation grows.  The test "score > 49" of [check_similarity]
    passes for every correlation of at least -1/64 and fails for every
    correlation of at most -3/128; in between (around -0.02) rounding
    decides.  A correlation in [-1, 1] gives a score in [0, 100], and a
    correlation that is not negative a score of at least 50. *)
Theorem similarity_threshold (files : gset string) (p1 p2 : string) (s : Q) :
  calculate_histogram_similarity_double fl files p1 p2 = Ok s →
  ∃ c, compareHist p1 p2 = Ok c ∧ s = remap_double fl c ∧
       (∀ c', (c <= c')%Q → (s <= remap_double fl c')%Q) ∧
       ((- (1 # 64) <= c)%Q → (49 < s)%Q) ∧
       ((c <= - (3 # 128))%Q → (s < 49)%Q) ∧
       ((- (1) <= c)%Q ∧ (c <= 1)%Q → (0 <= s)%Q ∧ (s <= 100)%Q) ∧
       ((0 <= c)%Q → (50 <= s)%Q).
Proof using fl_monotone fl_double.
  drop_unused.
  intros (c & Hc & ->)%calculate_histogram_similarity_double_inv.
  exists c. split_and!; [done|done|..].
  - intros c' Hle. by apply remap_double_monotone.
  - intros Hlow.
    pose proof (remap_double_ge c 63 6) as Hge.
    eapply Qlt_le_trans; [|apply Hge; [done|done|lia|]].
    + by vm_compute.
    + eapply Qle_trans; [|exact Hlow]. by vm_compute.
  - intros Hup.
    pose proof (remap_double_le c 125 7) as Hle.
    eapply Qle_lt_trans; [apply Hle; [done|done|lia|]|].
    + eapply Qle_trans; [exact Hup|]. by vm_compute.
    + by vm_compute.
  - intros [Hlow Hup]. split.
    + pose proof (remap_double_ge c 0 0) as Hge.
      eapply Qle_trans; [|apply Hge; [done|done|lia|]].
      * by vm_compute.
      * eapply Qle_trans; [|exact Hlow]. by vm_compute.
    + pose proof (remap_double_le c 2 0) as Hle.
      eapply Qle_trans; [apply Hle; [done|done|lia|]|].
      * eapply Qle_trans; [exact Hup|]. by vm_compute.
      * by vm_compute.
  - intros Hpos.
    pose proof (remap_double_ge c 1 0) as Hge.
    eapply Qle_trans; [|apply Hge; [done|done|lia|]].
    + by vm_compute.
    + eapply Qle_trans; [|exact Hpos]. by vm_compute.
Qed.

End DoubleFacts.

Lemma submitted_pairs_length_le (files : list string) (checked : gset string) :
  (2 * length (submitted_pairs files checked)
   ≤ length files * (length files - 1))%nat.
Proof.
  revert checked. induction files as [|f rest IH]; intros checked; simpl; [lia|].
  destruct (decide (f ∈ checked)).
  - specialize (IH checked). nia.
  - rewrite length_app, length_map.
    specialize (IH ({[f]} ∪ checked)). nia.
Qed.

Lemma submitted_pairs_length (files : list string) (checked : gset string) :
  NoDup files → (∀ x, x ∈ checked → x ∉ files) →
  (2 * length (submitted_pairs files checked)
   = length files * (length files - 1))%nat.
Proof.
  revert checked. induction files as [|f rest IH]; intros checked Hnd Hfresh;
    simpl; [lia|].
  apply NoDup_cons in Hnd as [Hf Hnd].
  rewrite decide_False; last first.
  { intros Hin. apply (Hfresh f Hin). left. }
  rewrite length_app, length_map.
  assert (2 * length (submitted_pairs rest ({[f]} ∪ checked))
          = length rest * (length rest - 1))%nat as Hrest; [|nia].
  apply IH; [done|].
  intros x [->%elem_of_singleton|Hx]%elem_of_union; [done|].
  intros Hin. apply (Hfresh x Hx). by right.
Qed.

(** X15. The phase submits one comparison per unordered pair of listed
    files: n (n - 1) / 2 tasks for a listing of n different names, and never
    more than that. *)
Theorem submitted_pool_size (listing : list string) :
  (2 * length (submitted_pool listing)
   ≤ length listing * (length listing - 1))%nat ∧
  (NoDup listing →
   (2 * length (submitted_pool listing)
    = length listing * (length listing - 1))%nat).
Proof.
  unfold submitted_pool. rewrite length_map. split.
  - apply submitted_pairs_length_le.
  - intros Hnd. apply submitted_pairs_length; [done|set_solver].
Qed.

Lemma logos_ne_duplicates (a b : string) :
  os_path_join "logos" a ≠ os_path_join duplicates_folder b.
Proof. done. Qed.

Lemma listed_before_elem_of (listing : list string) (i j : string) :
  listed_before listing i j → i ∈ listing ∧ j ∈ listing.
Proof.
  intros (a & b & _ & Ha & Hb).
  split; by eapply list_elem_of_lookup_2.
Qed.

Lemma pool_step_moved_only (pairs : list (string * string))
    (names : list string) (files0 : gset string) cfg cfg' :
  (∀ i j, (i, j) ∈ pairs → j ∈ names) →
  pool_step "logos" cfg cfg' →
  Forall (task_ok pairs) cfg.2 ∧ moved_only names files0 cfg.1 →
  Forall (task_ok pairs) cfg'.2 ∧ moved_only names files0 cfg'.1.
Proof.
  drop_unused.
  intros Hnames Hstep [Hpool Hmoved].
  split.
  { eapply (pool_step_invariant "logos" pairs ∅); [exact Hstep|].
    split; [done|]. intros p Hp. by apply not_elem_of_empty in Hp. }
  destruct Hstep as [files pool k t files' t' Hk Hne Hstep]. simpl in *.
  pose proof (Forall_lookup_1 _ _ _ _ Hpool Hk) as Ht.
  destruct t as [i j|i j|]; [| |done]; simpl in Hstep, Ht.
  - assert (files' = files) as ->; [|done].
    destruct (calculate_histogram_similarity _ _ _) as [s|e];
      [destruct (near_duplicate s i j)|]; by injection Hstep as <- <-.
  - destruct Ht as [Hpair _]. pose proof (Hnames _ _ Hpair) as Hj.
    unfold shutil_move in Hstep.
    destruct (decide (os_path_join "logos" j ∈ files)) as [Hsrc|];
      injection Hstep as <- <-; [|done].
    destruct Hmoved as [Hout Hin]. split.
    + intros p Hp. destruct (decide (p = os_path_join "logos" j)) as [->|Hneq].
      * right. exists j. split_and!; [done|done|set_solver].
      * destruct (Hout p Hp) as [Hpf|(j' & Hj' & -> & Hdup)].
        -- left. set_solver.
        -- right. exists j'. split_and!; [done|done|].
           pose proof (logos_ne_duplicates j j'). set_solver.
    + intros p [->%elem_of_singleton|[Hp _]%elem_of_difference]%elem_of_union.
      * right. exists j. split_and!; [done|done|].
        destruct (Hin _ Hsrc) as [?|(j' & _ & Heq & _)]; [done|].
        by apply logos_ne_duplicates in Heq.
      * by apply Hin.
Qed.

Lemma pool_run_moved_only (pairs : list (string * string))
    (names : list string) (files0 : gset string) cfg cfg' :
  (∀ i j, (i, j) ∈ pairs → j ∈ names) →
  rtc (pool_step "logos") cfg cfg' →
  Forall (task_ok pairs) cfg.2 ∧ moved_only names files0 cfg.1 →
  Forall (task_ok pairs) cfg'.2 ∧ moved_only names files0 cfg'.1.
Proof.
  intros Hnames. induction 1 as [|x y z Hstep _ IH]; [done|].
  intros Hinv. apply IH. by eapply pool_step_moved_only.
Qed.

(** X16. In every run of the comparison pool over [logos/], files are only
    moved, never lost or invented: a path that was there before the run and
    is gone is a listed logo whose copy now is in [duplicates/], and a path
    that is new is such a copy of a logo that was there before.  Files that
    are not listed logos are untouched. *)
Theorem pool_run_moves_only (listing : list string) (files : gset string)
    (cfg : gset string * list task) :
  rtc (pool_step "logos") (files, submitted_pool listing) cfg →
  (∀ p, p ∈ files →
        p ∈ cfg.1 ∨
        ∃ j, j ∈ listing ∧ p = os_path_join "logos" j ∧
             os_path_join duplicates_folder j ∈ cfg.1) ∧
  (∀ p, p ∈ cfg.1 →
        p ∈ files ∨
        ∃ j, j ∈ listing ∧ p = os_path_join duplicates_folder j ∧
             os_path_join "logos" j ∈ files).
Proof.
  intros Hrun.
  destruct (pool_run_moved_only (submitted_pairs listing ∅) listing files
              _ _ (fun i j Hin => proj2 (listed_before_elem_of _ _ _
                                   (submitted_pairs_sound _ _ _ _ Hin))) Hrun)
    as [_ Hmoved]; [|exact Hmoved].
  split; simpl.
  - unfold submitted_pool. apply Forall_forall.
    intros t ([i j] & -> & Hin)%list_elem_of_fmap. done.
  - split; intros p Hp; by left.
Qed.

(** ** The run that takes the comparisons one after the other *)

Lemma check_similarity_effect (output_folder image1 image2 : string)
    (files : gset string) :
  check_similarity output_folder image1 image2 files
  = Ok (check_effect output_folder image1 image2 files).
Proof.
  unfold check_similarity, check_effect, near_pair,
    calculate_histogram_similarity, cv2_imread.
  destruct (decide (os_path_join output_folder image1 ∈ files)) as [H1|H1].
  - destruct (decide (os_path_join output_folder image2 ∈ files)) as [H2|H2].
    + rewrite decide_True by done.
      destruct (cv2_decodes (os_path_join output_folder image1)); [|done].
      destruct (cv2_decodes (os_path_join output_folder image2)); [|done].
      simpl.
      destruct (compareHist _ _) as [c|err]; simpl; [|done].
      destruct (near_duplicate _ image1 image2); [|done].
      unfold shutil_move. by rewrite decide_True.
    + rewrite decide_False by (intros [_ ?]; done).
      by destruct (cv2_decodes (os_path_join output_folder image1)).
  - by rewrite decide_False by (intros [? _]; done).
Qed.

Lemma fifo_effect (output_folder : string) (pairs : list (string * string))
    (files : gset string) :
  foldl (fun acc p => fs0 ← acc; check_similarity output_folder p.1 p.2 fs0)
        (Ok files) pairs
  = Ok (check_effects output_folder pairs files).
Proof.
  unfold check_effects.
  revert files. induction pairs as [|p pairs IH]; intros files; [done|].
  simpl. rewrite check_similarity_effect. apply IH.
Qed.

Lemma check_effects_cons (output_folder : string) (p : string * string)
    (pairs : list (string * string)) (files : gset string) :
  check_effects output_folder (p :: pairs) files
  = check_effects output_folder pairs (check_effect output_folder p.1 p.2 files).
Proof. done. Qed.

Lemma check_effects_app (output_folder : string)
    (pairs1 pairs2 : list (string * string)) (files : gset string) :
  check_effects output_folder (pairs1 ++ pairs2) files
  = check_effects output_folder pairs2 (check_effects output_folder pairs1 files).
Proof. unfold check_effects. apply foldl_app. Qed.

Lemma check_effect_logos (i j x : string) (files : gset string) :
  os_path_join "logos" x ∈ check_effect "logos" i j files
  ↔ os_path_join "logos" x ∈ files
    ∧ ¬ (x = j ∧ os_path_join "logos" i ∈ files ∧ near_pair "logos" i j = true).
Proof.
  drop_unused.
  unfold check_effect.
  pose proof (logos_ne_duplicates x j) as Hdup.
  destruct (decide (os_path_join "logos" i ∈ files
                    ∧ os_path_join "logos" j ∈ files)) as [[Hi Hj]|Hno].
  - destruct (near_pair "logos" i j) eqn:Hnear.
    + rewrite elem_of_union, elem_of_singleton, elem_of_difference,
        not_elem_of_singleton.
      split.
      * intros [?|[Hx Hne]]; [done|]. split; [done|].
        intros (-> & _ & _). done.
      * intros [Hx Hnot]. right. split; [done|].
        intros ->%os_path_join_inj_name. by apply Hnot.
    + split; [|by intros [? _]]. intros Hx. split; [done|].
      by intros (_ & _ & ?).
  - split; [|by intros [? _]]. intros Hx. split; [done|].
    intros (-> & Hi & _). by apply Hno.
Qed.

(** Comparing one file with each file of a list. *)
Lemma first_against_rest (i : string) (rest : list string) (x : string)
    (files : gset string) :
  i ∉ rest →
  os_path_join "logos" x
    ∈ check_effects "logos" (map (fun file2 => (i, file2)) rest) files
  ↔ os_path_join "logos" x ∈ files
    ∧ ¬ (x ∈ rest ∧ os_path_join "logos" i ∈ files
         ∧ near_pair "logos" i x = true).
Proof.
  revert files. induction rest as [|j rest IH]; intros files Hi.
  - split; [|by intros [? _]]. intros Hx. split; [done|].
    by intros [?%elem_of_nil _].
  - apply not_elem_of_cons in Hi as [Hij Hi].
    cbn [map]. rewrite check_effects_cons. cbn [fst snd].
    rewrite IH by done. rewrite !check_effect_logos.
    split.
    + intros [[Hx Hnj] Hnrest]. split; [done|].
      intros ([->|Hxr]%elem_of_cons & Hif & Hnear).
      * by apply Hnj.
      * apply Hnrest. split_and!; [done|done| |done].
        intros (-> & _). done.
    + intros [Hx Hnot]. split_and!; [done| |].
      * intros (-> & Hif & Hnear). apply Hnot. split_and!; [left|done|done].
      * intros (Hxr & [Hif _] & Hnear). apply Hnot.
        split_and!; [by right|done|done].
Qed.

(** Comparisons never add a file to the scanned folder, and only remove
    second files of the pairs. *)
Lemma fifo_logos_frame (pairs : list (string * string)) (x : string)
    (files : gset string) :
  (os_path_join "logos" x ∈ check_effects "logos" pairs files →
   os_path_join "logos" x ∈ files) ∧
  (x ∉ pairs.*2 → os_path_join "logos" x ∈ files →
   os_path_join "logos" x ∈ check_effects "logos" pairs files).
Proof.
  revert files. induction pairs as [|[i j] pairs IH]; intros files; [done|].
  rewrite check_effects_cons. cbn [fst snd fmap list_fmap].
  destruct (IH (check_effect "logos" i j files)) as [IH1 IH2]. split.
  - intros Hx%IH1. by apply check_effect_logos in Hx as [? _].
  - intros [Hne Hnot]%not_elem_of_cons Hx. apply IH2; [done|].
    apply check_effect_logos. split; [done|]. by intros (-> & _).
Qed.

Lemma submitted_pairs_seconds (files : list string) (checked : gset string)
    (x : string) :
  x ∈ (submitted_pairs files checked).*2 → x ∈ files.
Proof.
  intros ([i j] & -> & Hin)%list_elem_of_fmap.
  by apply submitted_pairs_sound, listed_before_elem_of in Hin as [_ ?].
Qed.

Lemma listed_before_cons (a : string) (rest : list string) (i x : string) :
  listed_before (a :: rest) i x ↔ (i = a ∧ x ∈ rest) ∨ listed_before rest i x.
Proof.
  split.
  - intros (n & m & Hlt & Hn & Hm).
    destruct m as [|m]; [lia|]. simpl in Hm.
    destruct n as [|n]; simpl in Hn.
    + left. injection Hn as ->. split; [done|]. by eapply list_elem_of_lookup_2.
    + right. exists n, m. split_and!; [lia|done|done].
  - intros [[-> Hx]|(n & m & Hlt & Hn & Hm)].
    + apply list_elem_of_lookup in Hx as [m Hm].
      exists 0%nat, (S m). split_and!; [lia|done|done].
    + exists (S n), (S m). split_and!; [lia|done|done].
Qed.

Lemma fifo_fixpoint (listing : list string) (checked : gset string)
    (files : gset string) (x : string) :
  NoDup listing → (∀ y, y ∈ checked → y ∉ listing) → x ∈ listing →
  os_path_join "logos" x
    ∈ check_effects "logos" (submitted_pairs listing checked) files
  ↔ os_path_join "logos" x ∈ files
    ∧ ¬ ∃ i, listed_before listing i x
             ∧ os_path_join "logos" i
                 ∈ check_effects "logos" (submitted_pairs listing checked) files
             ∧ near_pair "logos" i x = true.
Proof.
  revert checked files x.
  induction listing as [|a rest IH]; intros checked files x Hnd Hfresh Hx;
    [by apply elem_of_nil in Hx|].
  apply NoDup_cons in Hnd as [Ha Hnd]. cbn [submitted_pairs].
  rewrite decide_False; last first.
  { intros Hin. apply (Hfresh a Hin). left. }
  rewrite check_effects_app.
  set (files1 := check_effects "logos" (map (fun file2 => (a, file2)) rest) files).
  set (files' := check_effects "logos" (submitted_pairs rest ({[a]} ∪ checked))
                   files1).
  assert (∀ y, y ∈ {[a]} ∪ checked → y ∉ rest) as Hfresh'.
  { intros y [->%elem_of_singleton|Hy]%elem_of_union; [done|].
    intros Hin. apply (Hfresh y Hy). by right. }
  assert (os_path_join "logos" a ∈ files' ↔ os_path_join "logos" a ∈ files)
    as Hafix.
  { split.
    - intros H1%fifo_logos_frame%fifo_logos_frame. done.
    - intros H0. apply fifo_logos_frame.
      { intros Hin%submitted_pairs_seconds. done. }
      apply fifo_logos_frame; [|done].
      intros ([i j] & -> & Hin)%list_elem_of_fmap.
      apply list_elem_of_fmap in Hin as (j' & [= -> ->] & Hj'). done. }
  assert (∀ y, y ∈ rest →
            (os_path_join "logos" y ∈ files'
             ↔ os_path_join "logos" y ∈ files1
               ∧ ¬ ∃ i, listed_before rest i y
                        ∧ os_path_join "logos" i ∈ files'
                        ∧ near_pair "logos" i y = true)) as Hrest.
  { intros y Hy. apply (IH ({[a]} ∪ checked) files1 y Hnd Hfresh' Hy). }
  apply elem_of_cons in Hx as [->|Hx].
  - rewrite Hafix. split; [|by intros [? _]]. intros H0. split; [done|].
    intros (i & [[-> Hin]|Hb]%listed_before_cons & _); [done|].
    by apply listed_before_elem_of in Hb as [_ ?].
  - rewrite (Hrest x Hx). subst files1. rewrite first_against_rest by done.
    split.
    + intros [[H0 Hna] Hnrest]. split; [done|].
      intros (i & [[-> Hin]|Hb]%listed_before_cons & Hi & Hnear).
      * apply Hna. split_and!; [done| |done]. by apply Hafix.
      * apply Hnrest. by exists i.
    + intros [H0 Hnot]. split_and!; [done| |].
      * intros (Hin & Hafs & Hnear). apply Hnot. exists a.
        split_and!; [apply listed_before_cons; by left| |done].
        by apply Hafix.
      * intros (i & Hb & Hi & Hnear). apply Hnot. exists i.
        split_and!; [apply listed_before_cons; by right|done|done].
Qed.

(** X17. When the comparisons run one after the other over a folder that
    holds every listed file, a listed file is still in the folder at the end
    exactly when no file listed before it that is itself still there is a
    near-duplicate of it (both decode, score above 49, same three-character
    prefix): the run keeps the first file and drops the later ones close to
    it, then does the same with the next file kept. *)
Theorem move_similar_logos_fifo_kept (listing : list string)
    (files : gset string) :
  NoDup listing →
  (∀ j, j ∈ listing → os_path_join "logos" j ∈ files) →
  ∃ files',
    move_similar_logos_fifo "logos" listing files = Ok files' ∧
    ∀ j, j ∈ listing →
      (os_path_join "logos" j ∈ files'
       ↔ ¬ ∃ i, listed_before listing i j
                ∧ os_path_join "logos" i ∈ files'
                ∧ near_pair "logos" i j = true).
Proof.
  intros Hnd Hall. unfold move_similar_logos_fifo. rewrite fifo_effect.
  eexists. split; [done|].
  intros j Hj.
  rewrite (fifo_fixpoint listing ∅ files j Hnd) by (done || set_solver).
  split; [by intros [_ ?]|]. intros Hnot. split; [by apply Hall|done].
Qed.
(** ** The corruption sweep *)

Section SweepFacts.

Variable Image_open_header : string → result unit.
Variable isdir : string → bool.
Variable listdir : string → gset string → list string.

Ltac drop_sweep_vars :=
  try clear listdir; try clear isdir; try clear Image_open_header; drop_unused.

(** One turn of the loop on an entry that is there and is a file. *)
Lemma delete_corrupted_images_step (output_folder filename : string)
    (files : gset string) :
  os_path_join output_folder filename ∈ files →
  isdir (os_path_join output_folder filename) = false →
  try_except
    (_ ← Image_open_entry Image_open_header isdir files
           (os_path_join output_folder filename); Ok files)
    (fun _ => os_remove_entry isdir (os_path_join output_folder filename) files)
  = Ok (match Image_open_header (os_path_join output_folder filename) with
        | Ok _ => files
        | Raised _ => files ∖ {[os_path_join output_folder filename]}
        end).
Proof.
  drop_sweep_vars.
  intros Hin Hfile.
  unfold Image_open_entry, os_remove_entry, Image_open_at, os_remove.
  rewrite Hfile. cbn [andb]. rewrite !decide_True by done.
  by destruct (Image_open_header _).
Qed.

(** One turn of the loop on an entry that is missing or is a directory:
    [Image.open] raises, and so does the [os.remove] of the handler. *)
Lemma delete_corrupted_images_step_raises (output_folder filename : string)
    (files : gset string) :
  os_path_join output_folder filename ∉ files
  ∨ isdir (os_path_join output_folder filename) = true →
  try_except
    (_ ← Image_open_entry Image_open_header isdir files
           (os_path_join output_folder filename); Ok files)
    (fun _ => os_remove_entry isdir (os_path_join output_folder filename) files)
  = Raised (if decide (os_path_join output_folder filename ∈ files)
            then directory_error else FileNotFoundError).
Proof.
  drop_sweep_vars.
  intros Hbad.
  unfold Image_open_entry, os_remove_entry, Image_open_at, os_remove.
  destruct (decide (os_path_join output_folder filename ∈ files)) as [Hin|Hnin].
  - destruct Hbad as [Hnin|Hdir]; [done|].
    by rewrite Hdir, bool_decide_eq_true_2.
  - rewrite bool_decide_eq_false_2 by done. by rewrite andb_false_r.
Qed.

Lemma delete_corrupted_images_char (output_folder : string)
    (listing : list string) (files : gset string) :
  NoDup listing →
  (∀ f, f ∈ listing → os_path_join output_folder f ∈ files) →
  (∀ f, f ∈ listing → isdir (os_path_join output_folder f) = false) →
  ∃ files',
    delete_corrupted_images Image_open_header isdir output_folder listing files
    = Ok files' ∧
    ∀ p, p ∈ files'
         ↔ p ∈ files ∧ ¬ corrupted Image_open_header output_folder listing p.
Proof.
  drop_sweep_vars.
  revert files. induction listing as [|f rest IH]; intros files Hnd Hall Hfiles.
  - exists files. split; [done|]. intros p. split; [|by intros [? _]].
    intros Hp. split; [done|]. by intros (f & ?%elem_of_nil & _).
  - apply NoDup_cons in Hnd as [Hf Hnd]. cbn [delete_corrupted_images].
    rewrite delete_corrupted_images_step by (apply Hall || apply Hfiles; left).
    cbn [mbind result_bind rbind].
    set (filepath := os_path_join output_folder f).
    set (files1 := match Image_open_header filepath with
                   | Ok _ => files
                   | Raised _ => files ∖ {[filepath]}
                   end).
    assert (∀ p, p ∈ files1
                 ↔ p ∈ files
                   ∧ ¬ (p = filepath ∧ ∃ e, Image_open_header p = Raised e))
      as Hfiles1.
    { intros p. subst files1.
      destruct (Image_open_header filepath) as [u|e] eqn:Hopen.
      - split; [|by intros [? _]]. intros Hp. split; [done|].
        intros [-> [e He]]. congruence.
      - rewrite elem_of_difference, not_elem_of_singleton. split.
        + intros [Hp Hne]. split; [done|]. by intros [? _].
        + intros [Hp Hnot]. split; [done|]. intros ->. apply Hnot.
          split; [done|]. by exists e. }
    destruct (IH files1 Hnd) as (files' & Hrun & Hchar).
    { intros g Hg. apply Hfiles1. split; [apply Hall; by right|].
      intros [Heq%os_path_join_inj_name _]. by subst. }
    { intros g Hg. apply Hfiles. by right. }
    exists files'. split; [done|]. intros p. rewrite Hchar, Hfiles1.
    unfold corrupted. split.
    + intros [[Hp Hnf] Hnrest]. split; [done|].
      intros (g & [->|Hg]%elem_of_cons & -> & He).
      * by apply Hnf.
      * apply Hnrest. by exists g.
    + intros [Hp Hnot]. split_and!; [done| |].
      * intros [-> He]. apply Hnot. exists f. split_and!; [left|done|done].
      * intros (g & Hg & -> & He). apply Hnot. exists g.
        split_and!; [by right|done|done].
Qed.

(** X18. On a listing of different names that are all in the folder and
    none of which is a directory, the sweep returns, and the files left are
    those that were there minus the listed files that do not open; so every
    listed file that is left opens, and files outside the listing are
    untouched. *)
Theorem delete_corrupted_images_keeps (output_folder : string)
    (listing : list string) (files : gset string) :
  NoDup listing →
  (∀ f, f ∈ listing → os_path_join output_folder f ∈ files) →
  (∀ f, f ∈ listing → isdir (os_path_join output_folder f) = false) →
  ∃ files',
    delete_corrupted_images Image_open_header isdir output_folder listing files
    = Ok files' ∧
    (∀ p, p ∈ files'
          ↔ p ∈ files ∧ ¬ corrupted Image_open_header output_folder listing p) ∧
    (∀ f, f ∈ listing → os_path_join output_folder f ∈ files' →
          ∃ u, Image_open_header (os_path_join output_folder f) = Ok u) ∧
    (∀ p, (∀ f, f ∈ listing → p ≠ os_path_join output_folder f) →
          (p ∈ files' ↔ p ∈ files)).
Proof.
  drop_sweep_vars.
  intros Hnd Hall Hfiles.
  destruct (delete_corrupted_images_char output_folder listing files
              Hnd Hall Hfiles) as (files' & Hrun & Hchar).
  exists files'. split_and!; [done|done| |].
  - intros f Hf [_ Hok]%Hchar.
    destruct (Image_open_header (os_path_join output_folder f)) as [u|e] eqn:Hopen;
      [by exists u|].
    exfalso. apply Hok. exists f. split_and!; [done|done|by exists e].
  - intros p Hp. rewrite Hchar. split; [by intros [? _]|].
    intros Hin. split; [done|]. intros (f & Hf & -> & _). by apply (Hp f).
Qed.

(** The sweep on any listing of different names: it returns only when every
    listed entry is there and is a file, and the error it raises is the one
    of the first entry that is not. *)
Lemma delete_corrupted_images_cases (output_folder : string)
    (listing : list string) (files : gset string) :
  NoDup listing →
  match delete_corrupted_images Image_open_header isdir output_folder
          listing files with
  | Ok _ =>
      ∀ f, f ∈ listing →
        os_path_join output_folder f ∈ files
        ∧ isdir (os_path_join output_folder f) = false
  | Raised e =>
      (e = FileNotFoundError
       ∧ ∃ f, f ∈ listing ∧ os_path_join output_folder f ∉ files)
      ∨ (e = directory_error
         ∧ ∃ f, f ∈ listing ∧ os_path_join output_folder f ∈ files
                ∧ isdir (os_path_join output_folder f) = true)
  end.
Proof.
  drop_sweep_vars.
  revert files. induction listing as [|f rest IH]; intros files Hnd.
  { intros f Hf. by apply elem_of_nil in Hf. }
  apply NoDup_cons in Hnd as [Hf Hnd]. cbn [delete_corrupted_images].
  destruct (decide (os_path_join output_folder f ∈ files)) as [Hin|Hnin].
  - destruct (isdir (os_path_join output_folder f)) eqn:Hdir.
    + rewrite delete_corrupted_images_step_raises by (by right).
      rewrite decide_True by done. cbn [mbind result_bind rbind].
      right. split; [done|]. exists f. split_and!; [left|done|done].
    + rewrite delete_corrupted_images_step by done.
      cbn [mbind result_bind rbind].
      set (files1 := match Image_open_header (os_path_join output_folder f) with
                     | Ok _ => files
                     | Raised _ => files ∖ {[os_path_join output_folder f]}
                     end).
      assert (∀ g, g ∈ rest →
                (os_path_join output_folder g ∈ files1
                 ↔ os_path_join output_folder g ∈ files)) as Hsame.
      { intros g Hg. subst files1.
        destruct (Image_open_header (os_path_join output_folder f)); [done|].
        rewrite elem_of_difference, not_elem_of_singleton. split; [by intros [? _]|].
        intros Hgin. split; [done|]. intros Heq%os_path_join_inj_name.
        by subst. }
      specialize (IH files1 Hnd).
      destruct (delete_corrupted_images Image_open_header isdir output_folder
                  rest files1) as [files'|e].
      * intros g [->|Hg]%elem_of_cons; [done|].
        destruct (IH g Hg) as [Hg1 Hg2]. split; [by apply Hsame|done].
      * destruct IH as [[-> (g & Hg & Hgone)]|[-> (g & Hg & Hthere & Hgdir)]].
        -- left. split; [done|]. exists g. split; [by right|].
           by rewrite <-Hsame.
        -- right. split; [done|]. exists g. split_and!; [by right| |done].
           by rewrite <-Hsame.
  - rewrite delete_corrupted_images_step_raises by (by left).
    rewrite decide_False by done. cbn [mbind result_bind rbind].
    left. split; [done|]. exists f. split; [left|done].
Qed.

(** X19. The [os.remove] in the error handler of the sweep is not guarded:
    on a listing of different names the sweep returns if and only if every
    listed entry is in the folder and is not a directory.  Otherwise an
    error leaves the function: [FileNotFoundError] for an entry that is
    gone, the error of [os.remove] on a directory for an entry that is
    one. *)
Theorem delete_corrupted_images_returns (output_folder : string)
    (listing : list string) (files : gset string) :
  NoDup listing →
  ((∃ files',
      delete_corrupted_images Image_open_header isdir output_folder listing files
      = Ok files')
   ↔ ∀ f, f ∈ listing →
       os_path_join output_folder f ∈ files
       ∧ isdir (os_path_join output_folder f) = false) ∧
  (∀ e,
     delete_corrupted_images Image_open_header isdir output_folder listing files
     = Raised e →
     (e = FileNotFoundError
      ∧ ∃ f, f ∈ listing ∧ os_path_join output_folder f ∉ files)
     ∨ (e = directory_error
        ∧ ∃ f, f ∈ listing ∧ os_path_join output_folder f ∈ files
               ∧ isdir (os_path_join output_folder f) = true)).
Proof.
  drop_sweep_vars.
  intros Hnd.
  pose proof (delete_corrupted_images_cases output_folder listing files Hnd)
    as Hcases.
  split; [split|].
  - intros [files' Hrun]. by rewrite Hrun in Hcases.
  - intros Hall.
    destruct (delete_corrupted_images_char output_folder listing files Hnd)
      as (files' & Hrun & _); [apply Hall..|].
    by exists files'.
  - intros e Hrun. by rewrite Hrun in Hcases.
Qed.

(** *** The three phases in sequence *)

Lemma process_all_fs_frame (domains : list string) (w0 w : world) (p : string) :
  process_all domains "logos" w0 = Ok w →
  p ∈ fs w →
  p ∈ fs w0 ∨ ∃ domain, domain ∈ domains
                        ∧ p = os_path_join "logos" (logo_filename domain).
Proof.
  drop_sweep_vars.
  revert w0. induction domains as [|domain rest IH]; intros w0 Hrun Hp.
  - injection Hrun as <-. by left.
  - rewrite process_all_cons in Hrun.
    destruct (process_logo domain "logos" w0) as [w1|e] eqn:Hstep; [|done].
    destruct (IH w1 Hrun Hp) as [Hp1|(d & Hd & ->)].
    + destruct (decide (p = os_path_join "logos" (logo_filename domain)))
        as [->|Hne].
      * right. exists domain. split; [left|done].
      * left. by apply (proj1 (process_logo_frame _ _ _ Hstep) p Hne).
    + right. exists d. split; [by right|done].
Qed.

Lemma process_all_registry_kept (domains : list string) (w0 w : world)
    (h p : string) :
  process_all domains "logos" w0 = Ok w →
  hashes w0 !! h = Some p → hashes w !! h = Some p.
Proof.
  drop_sweep_vars.
  revert w0. induction domains as [|domain rest IH]; intros w0 Hrun Hh.
  - by injection Hrun as <-.
  - rewrite process_all_cons in Hrun.
    destruct (process_logo domain "logos" w0) as [w1|e] eqn:Hstep; [|done].
    apply (IH w1 Hrun).
    by apply (proj1 (proj2 (process_logo_frame _ _ _ Hstep))).
Qed.

(** The comparison pool adds nothing to [logos/], whatever the schedule. *)
Lemma pool_run_logos_frame (listing : list string) (files : gset string)
    (cfg : gset string * list task) (x : string) :
  rtc (pool_step "logos") (files, submitted_pool listing) cfg →
  os_path_join "logos" x ∈ cfg.1 → os_path_join "logos" x ∈ files.
Proof.
  drop_sweep_vars.
  intros Hrun Hx.
  destruct (pool_run_moved_only (submitted_pairs listing ∅) listing files
              _ _ (fun i j Hin => proj2 (listed_before_elem_of _ _ _
                                   (submitted_pairs_sound _ _ _ _ Hin))) Hrun)
    as [_ [_ Hnew]].
  { split; simpl.
    - unfold submitted_pool. apply Forall_forall.
      intros t ([i j] & -> & Hin)%list_elem_of_fmap. done.
    - split; intros p Hp; by left. }
  destruct (Hnew _ Hx) as [Hold|(j & _ & Heq & _)]; [done|].
  by apply logos_ne_duplicates in Heq.
Qed.

(** The sequential run is one of the runs. *)
Lemma download_logos_fifo_run (df_domain : list string) (w : world) :
  download_logos Image_open_header isdir listdir df_domain w
    (download_logos_fifo Image_open_header isdir listdir df_domain w).
Proof.
  destruct (process_all_registry (selected_domains df_domain) w)
    as (w1 & Hrun1 & _).
  destruct (fifo_pool_run "logos"
              (submitted_pairs (listdir "logos" (fs w1)) ∅) 0 (fs w1))
    as (files2 & Hfifo & Hpool).
  unfold download_logos_fifo. rewrite Hrun1. cbn [mbind result_bind rbind].
  unfold move_similar_logos_fifo. rewrite Hfifo. cbn [mbind result_bind rbind].
  eapply download_logos_intro; [done|exact Hrun1|exact Hpool|].
  by apply Forall_replicate.
Qed.


End SweepFacts.

(** ** The colour reports *)

Lemma min_key_from_spec (best : string * Z) (d : list (string * Z)) :
  ∃ v, (min_key_from best d, v) ∈ best :: d ∧
       ∀ kv, kv ∈ best :: d → v ≤ kv.2.
Proof.
  revert best. induction d as [|[k v] d IH]; intros best.
  - exists best.2. split; [destruct best; left|].
    intros kv ->%list_elem_of_singleton. done.
  - cbn [min_key_from]. destruct (Z.ltb_spec v best.2) as [Hlt|Hge].
    + destruct (IH (k, v)) as (m & Hin & Hmin). exists m. split.
      * by right.
      * intros kv [->|Hkv]%elem_of_cons; [|by apply Hmin].
        specialize (Hmin (k, v) ltac:(left)). simpl in Hmin. lia.
    + destruct (IH best) as (m & Hin & Hmin). exists m. split.
      * apply elem_of_cons in Hin as [Heq|Hin]; [rewrite Heq; left|].
        right. by right.
      * intros kv [->|[->|Hkv]%elem_of_cons]%elem_of_cons.
        -- apply Hmin. left.
        -- specialize (Hmin best ltac:(left)). simpl. lia.
        -- apply Hmin. by right.
Qed.

Lemma dict_set_elem_of {V} (d : list (string * V)) (k : string) (v : V)
    (kv : string * V) :
  kv ∈ dict_set d k v → kv = (k, v) ∨ kv ∈ d.
Proof.
  induction d as [|[k' v'] d IH]; simpl.
  - intros ->%list_elem_of_singleton. by left.
  - destruct (decide (k' = k)) as [->|Hne].
    + intros [->|Hin]%elem_of_cons; [by left|]. right. by right.
    + intros [->|Hin]%elem_of_cons; [right; left|].
      destruct (IH Hin) as [?|?]; [by left|]. right. by right.
Qed.

Lemma dict_set_keys {V} (d : list (string * V)) (k : string) (v : V) (x : string) :
  x ∈ (dict_set d k v).*1 ↔ x = k ∨ x ∈ d.*1.
Proof.
  drop_unused.
  induction d as [|[k' v'] d IH]; simpl.
  - rewrite list_elem_of_singleton, elem_of_nil. tauto.
  - destruct (decide (k' = k)) as [->|Hne]; simpl.
    + rewrite !elem_of_cons. tauto.
    + rewrite !elem_of_cons, IH. tauto.
Qed.

Lemma broad_color_in_palette (c : broad_color) : c ∈ BROAD_COLORS.*1.
Proof.
  change (BROAD_COLORS.*1) with [Red; Orange; Yellow; Green; Blue; White; Black].
  destruct c; repeat (first [apply list_elem_of_here | apply list_elem_of_further]).
Qed.

Section ReportFacts.

Variable webcolors_names : list string.
Variable name_to_rgb : string → rgb.
Variable rgb_to_name : rgb → option string.
Variable get_main_color : string → option rgb.
Variable str_of_color : option rgb → string.
Variable literal_eval : string → result rgb.
Variable Image_open_header : string → result unit.
Variable extract_main_colors_error : string → option exception.

Ltac drop_report_vars :=
  try clear extract_main_colors_error; try clear Image_open_header; try clear literal_eval; try clear str_of_color;
  try clear get_main_color; try clear rgb_to_name; drop_unused.

Lemma distances_spec (requested : rgb) :
  (∀ kv, kv ∈ distances webcolors_names name_to_rgb requested →
     kv.1 ∈ webcolors_names ∧ kv.2 = distance2 (name_to_rgb kv.1) requested) ∧
  (∀ n, n ∈ webcolors_names →
     n ∈ (distances webcolors_names name_to_rgb requested).*1).
Proof.
  drop_report_vars.
  unfold distances.
  assert (∀ names (d : list (string * Z)),
    (∀ kv, kv ∈ fold_left (fun d name =>
                  dict_set d name (distance2 (name_to_rgb name) requested)) names d →
       (kv.1 ∈ names ∧ kv.2 = distance2 (name_to_rgb kv.1) requested) ∨ kv ∈ d) ∧
    (∀ n, n ∈ names ∨ n ∈ d.*1 →
       n ∈ (fold_left (fun d name =>
              dict_set d name (distance2 (name_to_rgb name) requested)) names d).*1))
    as Hgen.
  { induction names as [|name names IH]; intros d; simpl.
    - split; [by right|]. intros n [?%elem_of_nil|?]; done.
    - destruct (IH (dict_set d name (distance2 (name_to_rgb name) requested)))
        as [IH1 IH2]. split.
      + intros kv Hkv. destruct (IH1 kv Hkv) as [[Hn Hv]|Hin].
        * left. split; [by right|done].
        * apply dict_set_elem_of in Hin as [->|Hin]; [|by right].
          left. split; [left|done].
      + intros n Hn. apply IH2. rewrite dict_set_keys.
        rewrite elem_of_cons in Hn. destruct Hn as [[->|Hn]|Hn]; auto. }
  destruct (Hgen webcolors_names []) as [H1 H2]. split.
  - intros kv Hkv. destruct (H1 kv Hkv) as [?|?%elem_of_nil]; done.
  - intros n Hn. apply H2. by left.
Qed.

(** X21. [closest_colour] raises [ValueError] when the list of colour names
    is empty; otherwise it returns one of the names, none of the names is
    closer to the requested colour, and when some name has exactly the
    requested colour, so has the name returned. *)
Theorem closest_colour_minimal (requested_colour : rgb) :
  (webcolors_names = [] →
   closest_colour webcolors_names name_to_rgb requested_colour
   = Raised (OtherException "ValueError")) ∧
  (webcolors_names ≠ [] →
   ∃ name,
     closest_colour webcolors_names name_to_rgb requested_colour = Ok name ∧
     name ∈ webcolors_names ∧
     (∀ n, n ∈ webcolors_names →
        distance2 (name_to_rgb name) requested_colour
        ≤ distance2 (name_to_rgb n) requested_colour) ∧
     (∀ n, n ∈ webcolors_names → name_to_rgb n = requested_colour →
        name_to_rgb name = requested_colour)).
Proof.
  destruct (distances_spec requested_colour) as [Hval Hkeys].
  unfold closest_colour. split.
  - intros Hnil. unfold distances. by rewrite Hnil.
  - intros Hne. destruct webcolors_names as [|n0 names] eqn:Hnames; [done|].
    rewrite <-Hnames in *.
    destruct (distances webcolors_names name_to_rgb requested_colour)
      as [|best d] eqn:Hd.
    { specialize (Hkeys n0). rewrite Hnames in Hkeys.
      by apply elem_of_nil in Hkeys; [|left]. }
    simpl. destruct (min_key_from_spec best d) as (v & Hin & Hmin).
    exists (min_key_from best d).
    destruct (Hval _ Hin) as [Hname Hv]. simpl in Hname, Hv.
    assert (∀ n, n ∈ webcolors_names →
              distance2 (name_to_rgb (min_key_from best d)) requested_colour
              ≤ distance2 (name_to_rgb n) requested_colour) as Hclosest.
    { intros n Hn. apply Hkeys, list_elem_of_fmap in Hn as ([k w] & -> & Hkw).
      destruct (Hval _ Hkw) as [_ Hw]. specialize (Hmin _ Hkw). simpl in *. lia. }
    split_and!; [done|done|done|].
    intros n Hn Heq. specialize (Hclosest n Hn). rewrite Heq in Hclosest.
    assert (distance2 requested_colour requested_colour = 0) as Hzero.
    { destruct requested_colour as [[r g] b]. unfold distance2.
      rewrite !Z.sub_diag. done. }
    pose proof (distance2_nonneg (name_to_rgb (min_key_from best d))
                  requested_colour).
    symmetry. apply distance2_zero. lia.
Qed.

Lemma groups_append_Some (color_groups : list (broad_color * list string))
    (c : broad_color) (logo : string) :
  c ∈ color_groups.*1 →
  ∃ groups',
    groups_append color_groups (Some c) logo = Ok groups' ∧
    groups'.*1 = color_groups.*1 ∧
    ∀ c', dict_get groups' c'
          = if decide (c' = c)
            then (fun logos => logos ++ [logo]) <$> dict_get color_groups c'
            else dict_get color_groups c'.
Proof.
  induction color_groups as [|[k logos] rest IH]; [by intros ?%elem_of_nil|].
  intros Hin. cbn [groups_append].
  destruct (decide (Some k = Some c)) as [[= ->]|Hne].
  - eexists. split_and!; [done|done|]. intros c'. simpl.
    destruct (decide (c = c')) as [->|Hne].
    + by rewrite decide_True.
    + by rewrite decide_False.
  - assert (k ≠ c) as Hkc by congruence.
    simpl in Hin. apply elem_of_cons in Hin as [?|Hin]; [done|].
    destruct (IH Hin) as (rest' & -> & Hkeys & Hget).
    exists ((k, logos) :: rest'). split_and!; [done| |].
    { change (k :: rest'.*1 = k :: rest.*1). by f_equal. }
    intros c'. simpl. destruct (decide (k = c')) as [->|Hne'].
    + by rewrite decide_False.
    + apply Hget.
Qed.

Lemma display_groups_fold (rows seen : list (string * string))
    (color_groups : list (broad_color * list string)) :
  color_groups.*1 = BROAD_COLORS.*1 →
  (∀ c, dict_get color_groups c
        = Some (map fst (filter (fun row => row_color literal_eval row = Some c)
                                seen))) →
  let groups' :=
    fold_left
      (fun color_groups row =>
         match (rgb_tuple ← literal_eval row.2;
                groups_append color_groups (closest_broad_color rgb_tuple) row.1) with
         | Ok color_groups' => color_groups'
         | Raised _ => color_groups
         end) rows color_groups in
  groups'.*1 = BROAD_COLORS.*1 ∧
  ∀ c, dict_get groups' c
       = Some (map fst (filter (fun row => row_color literal_eval row = Some c)
                               (seen ++ rows))).
Proof.
  revert seen color_groups.
  induction rows as [|[logo rgb_str] rows IH]; intros seen groups Hkeys Hget.
  - simpl. by rewrite app_nil_r.
  - replace (seen ++ (logo, rgb_str) :: rows)
      with ((seen ++ [(logo, rgb_str)]) ++ rows) by by rewrite <-app_assoc.
    cbn [fold_left]. apply IH.
    + cbn [fst snd]. destruct (literal_eval rgb_str) as [rgb_tuple|e]; [|done].
      cbn [mbind result_bind rbind].
      destruct (closest_broad_color_is_Some rgb_tuple) as [c Hc]. rewrite Hc.
      destruct (groups_append_Some groups c logo) as (g' & -> & Hk & _).
      { rewrite Hkeys. apply broad_color_in_palette. }
      by rewrite Hk.
    + intros c'. rewrite filter_app, map_app, filter_cons, filter_nil.
      cbn [fst snd].
      assert (row_color literal_eval (logo, rgb_str)
              = match literal_eval rgb_str with
                | Ok rgb_tuple => closest_broad_color rgb_tuple
                | Raised _ => None
                end) as Hrc by done.
      destruct (literal_eval rgb_str) as [rgb_tuple|e].
      * cbn [mbind result_bind rbind].
        destruct (closest_broad_color_is_Some rgb_tuple) as [c Hc].
        rewrite Hc in Hrc |- *.
        destruct (groups_append_Some groups c logo) as (g' & Happ & _ & Hg').
        { rewrite Hkeys. apply broad_color_in_palette. }
        rewrite Happ, Hg', Hget, Hrc.
        destruct (decide (c' = c)) as [->|Hne].
        -- by rewrite decide_True.
        -- rewrite decide_False by congruence. simpl. by rewrite app_nil_r.
      * rewrite Hget, Hrc. rewrite decide_False by done.
        simpl. by rewrite app_nil_r.
Qed.

(** X22. The groups of [display_color_analysis]: there is one group per
    broad colour, in palette order, and the group of a colour lists, in the
    order of the CSV, the logos of exactly those rows whose colour cell
    parses and is closest to that colour.  A row whose cell does not parse
    is listed nowhere, and no row is listed twice. *)
Theorem display_groups_rows (rows : list (string * string)) :
  (display_groups literal_eval rows).*1 = BROAD_COLORS.*1 ∧
  ∀ c, dict_get (display_groups literal_eval rows) c
       = Some (map fst (filter (fun row => row_color literal_eval row = Some c)
                               rows)).
Proof.
  apply (display_groups_fold rows [] (color_groups_init)); [done|].
  intros c. by destruct c.
Qed.

Lemma analysis_results_omap (m : method) (files : gset string)
    (listing : list string) :
  analysis_results webcolors_names name_to_rgb rgb_to_name get_main_color
    Image_open_header extract_main_colors_error m files listing
  = omap (fun filename =>
            match analyze_file webcolors_names name_to_rgb rgb_to_name
                    get_main_color Image_open_header extract_main_colors_error
                    m files filename with
            | Ok row => Some row
            | Raised _ => None
            end) listing.
Proof.
  unfold analysis_results.
  set (step := fun filename =>
                 match analyze_file webcolors_names name_to_rgb rgb_to_name
                         get_main_color Image_open_header
                         extract_main_colors_error m files filename with
                 | Ok row => Some row
                 | Raised _ => None
                 end).
  assert (∀ acc, fold_left
                   (fun results filename =>
                      match analyze_file webcolors_names name_to_rgb rgb_to_name
                              get_main_color Image_open_header
                              extract_main_colors_error m files filename with
                      | Ok row => results ++ [row]
                      | Raised _ => results
                      end) listing acc
                 = acc ++ omap step listing) as Hgen.
  { induction listing as [|f rest IH]; intros acc; simpl.
    - by rewrite app_nil_r.
    - rewrite IH. unfold step at 2.
      destruct (analyze_file _ _ _ _ _ _ _ _ f) as [row|e]; [|done].
      by rewrite <-app_assoc. }
  apply (Hgen []).
Qed.

(** X23. The colour analysis reads [analysis_color.csv] before it writes it.
    On a directory without that file it raises [FileNotFoundError], whatever
    the logos, and writes nothing; and when a run succeeds, the Markdown
    report of the next run groups the rows that this run wrote, not the
    results of the next run. *)
Theorem analyze_logos_color_lag (files1 files2 : gset string)
    (listing1 listing2 : list string) (st : reports) :
  (analysis_color_csv st = None →
   analyze_logos webcolors_names name_to_rgb rgb_to_name get_main_color
     str_of_color literal_eval Image_open_header extract_main_colors_error
     Color files1 listing1 st
   = Raised FileNotFoundError) ∧
  (∀ st1,
     analyze_logos webcolors_names name_to_rgb rgb_to_name get_main_color
       str_of_color literal_eval Image_open_header extract_main_colors_error
       Color files1 listing1 st
     = Ok st1 →
     ∃ st2,
       analyze_logos webcolors_names name_to_rgb rgb_to_name get_main_color
         str_of_color literal_eval Image_open_header extract_main_colors_error
         Color files2 listing2 st1
       = Ok st2 ∧
       color_analysis_md st2
       = Some (display_groups literal_eval
                 (map (fun r => (r.1.1, r.1.2))
                    (omap (color_cells str_of_color)
                       (analysis_results webcolors_names name_to_rgb rgb_to_name
                          get_main_color Image_open_header
                          extract_main_colors_error Color files1 listing1)))) ∧
       analysis_color_csv st2
       = Some (omap (color_cells str_of_color)
                 (analysis_results webcolors_names name_to_rgb rgb_to_name
                    get_main_color Image_open_header extract_main_colors_error
                    Color files2 listing2))).
Proof.
  unfold analyze_logos, display_color_analysis. split.
  - by intros ->.
  - intros st1. destruct (analysis_color_csv st) as [old|]; [|done].
    cbn [mbind result_bind rbind]. intros [= <-].
    cbn [analysis_color_csv mbind result_bind rbind].
    eexists. split_and!; done.
Qed.

(** The row that the loop of [analyze_logos] appends for a file, if any. *)
Lemma analyze_file_minimalism (files : gset string) (filename : string) :
  match analyze_file webcolors_names name_to_rgb rgb_to_name get_main_color
          Image_open_header extract_main_colors_error Minimalism files filename
  with
  | Ok row => Some row
  | Raised _ => None
  end
  = if opens Image_open_header files filename
       && clusters extract_main_colors_error filename
    then Some (MinimalismRow filename
                 (describe_logo_colors
                    (extract_main_colors (os_path_join "logos" filename))))
    else None.
Proof.
  unfold analyze_file, opens, clusters, extract_main_colors_call.
  destruct (Image_open_at Image_open_header files _) as [u|e]; [|done].
  by destruct (extract_main_colors_error _).
Qed.

Lemma analyze_file_emotion (files : gset string) (filename : string) :
  match analyze_file webcolors_names name_to_rgb rgb_to_name get_main_color
          Image_open_header extract_main_colors_error Emotion files filename
  with
  | Ok row => Some row
  | Raised _ => None
  end
  = if opens Image_open_header files filename
       && clusters extract_main_colors_error filename
    then match analyze_emotion (os_path_join "logos" filename) with
         | Ok emotion => Some (EmotionRow filename emotion)
         | Raised _ => None
         end
    else None.
Proof.
  unfold analyze_file, opens, clusters, extract_main_colors_call.
  destruct (Image_open_at Image_open_header files _) as [u|e]; [|done].
  destruct (extract_main_colors_error _); [done|].
  cbn [mbind result_bind rbind andb].
  by destruct (analyze_emotion _).
Qed.


End ReportFacts.

(** ** A directory listing that can be run *)

Lemma strip_prefix_spec (pre s r : string) :
  strip_prefix pre s = Some r ↔ s = pre +:+ r.
Proof.
  revert s. induction pre as [|c pre IH]; intros s; simpl.
  - split; [by intros [= ->]|by intros ->].
  - destruct s as [|c' s]; [done|].
    destruct (decide (c = c')) as [<-|Hne].
    + rewrite IH. split; [by intros ->|by intros [= ->]].
    + split; [done|]. intros [= ? _]. by destruct Hne.
Qed.

Lemma listdir_elements_spec (folder : string) (files : gset string) (f : string) :
  f ∈ listdir_elements folder files ↔ os_path_join folder f ∈ files.
Proof.
  unfold listdir_elements, os_path_join. rewrite list_elem_of_omap. split.
  - intros (s & Hs & Hstrip). apply strip_prefix_spec in Hstrip.
    rewrite string_app_assoc in Hstrip. subst s. by apply elem_of_elements.
  - intros Hin. exists (folder +:+ "/" +:+ f). split; [by apply elem_of_elements|].
    apply strip_prefix_spec. by rewrite string_app_assoc.
Qed.

Lemma listdir_elements_NoDup (folder : string) (files : gset string) :
  NoDup (listdir_elements folder files).
Proof.
  unfold listdir_elements.
  pose proof (NoDup_elements files) as Hnd.
  induction Hnd as [|s l Hnotin Hnd IH]; [constructor|].
  cbn [omap list_omap].
  destruct (strip_prefix (folder +:+ "/") s) as [r|] eqn:Hstrip; [|exact IH].
  constructor; [|exact IH].
  rewrite list_elem_of_omap. intros (s' & Hs' & Hstrip').
  apply strip_prefix_spec in Hstrip, Hstrip'. congruence.
Qed.

End External.

(** * Instances and examples

    The theorems with hypotheses, applied to the small world of the
    examples, and a few evaluations of the embedded functions. *)

Lemma closest_broad_color_total_witness :
  (0 ≤ 0 ≤ 255 ∧ 0 ≤ 138 ≤ 255 ∧ 0 ≤ 144 ≤ 255) ∧
  ∃ (i : nat) (name : broad_color) (p : rgb),
    closest_broad_color (0, 138, 144) = Some name ∧
    name ∈ [Red; Orange; Yellow; Green; Blue; White; Black] ∧
    BROAD_COLORS !! i = Some (name, p) ∧
    ∀ (j : nat) (name' : broad_color) (p' : rgb),
      BROAD_COLORS !! j = Some (name', p') →
      distance2 (0, 138, 144) p ≤ distance2 (0, 138, 144) p' ∧
      (distance2 (0, 138, 144) p' = distance2 (0, 138, 144) p → (i ≤ j)%nat).
Proof.
  split; [lia|]. apply (closest_broad_color_total 0 138 144); lia.
Defined.

Lemma check_similarity_moves_witness :
  NoDup example_listing ∧
  listed_before example_listing "abc_1.png" "abc_2.png" ∧
  "logos" ≠ duplicates_folder ∧
  calculate_histogram_similarity example_decodes example_compareHist
    example_files "logos/abc_1.png" "logos/abc_2.png"
  = Ok (((1 # 5) + 1) / 2 * 100)%Q ∧
  check_similarity example_decodes example_compareHist
    "logos" "abc_1.png" "abc_2.png" example_files
  = Ok ({[ "duplicates/abc_2.png" ]} ∪ example_files ∖ {[ "logos/abc_2.png" ]}).
Proof.
  assert (NoDup example_listing) as Hnd by (by apply (bool_decide_unpack _)).
  assert (listed_before example_listing "abc_1.png" "abc_2.png") as Hbefore.
  { exists 0%nat, 1%nat. split_and!; [lia|reflexivity|reflexivity]. }
  assert ("logos" ≠ duplicates_folder) as Hfolder by done.
  assert (calculate_histogram_similarity example_decodes example_compareHist
            example_files (os_path_join "logos" "abc_1.png")
            (os_path_join "logos" "abc_2.png")
          = Ok (((1 # 5) + 1) / 2 * 100)%Q) as Hsim by (vm_compute; reflexivity).
  split_and!; [done..|].
  apply (check_similarity_moves example_decodes example_compareHist
           example_listing "logos" "abc_1.png" "abc_2.png" example_files
           (((1 # 5) + 1) / 2 * 100)%Q Hnd Hbefore Hfolder Hsim);
    reflexivity.
Defined.

Lemma process_logo_registry_witness :
  hashes (World ∅ ∅) = ∅ ∧
  ∃ w, process_all unit example_convert_L example_resize example_getpixel example_Image_open
         example_fetch_ok ["abc.com"; "xyz.com"] "logos" (World ∅ ∅) = Ok w ∧
    ∀ h, hashes w !! h
         = dict_get (hashes_seen unit example_convert_L example_resize example_getpixel
                       example_Image_open example_fetch_ok
                       ["abc.com"; "xyz.com"] "logos" (World ∅ ∅)) h.
Proof.
  split; [reflexivity|].
  destruct (process_logo_registry unit example_convert_L example_resize example_getpixel
              example_Image_open example_fetch_ok ["abc.com"; "xyz.com"]
              (World ∅ ∅) eq_refl) as (_ & w & Hrun & Hreg & _).
  exists w. split; [exact Hrun|exact Hreg].
Defined.

Lemma earliest_of_prefix_group_survives_witness :
  NoDup example_listing ∧
  rtc (pool_step example_decodes example_compareHist "logos")
      (example_files, submitted_pool example_listing)
      (example_files_after, [Finished]) ∧
  "logos/abc_1.png" ∈ example_files_after.
Proof.
  assert (NoDup example_listing) as Hnd by (by apply (bool_decide_unpack _)).
  assert (rtc (pool_step example_decodes example_compareHist "logos")
              (example_files, submitted_pool example_listing)
              (example_files_after, [Finished])) as Hrun.
  { eapply rtc_l.
    { apply (pool_step_task example_decodes example_compareHist "logos"
               example_files [Submitted "abc_1.png" "abc_2.png"] 0
               (Submitted "abc_1.png" "abc_2.png")
               example_files (Moving "abc_1.png" "abc_2.png"));
        [reflexivity|discriminate|vm_compute; reflexivity]. }
    apply rtc_once.
    apply (pool_step_task example_decodes example_compareHist "logos"
             example_files [Moving "abc_1.png" "abc_2.png"] 0
             (Moving "abc_1.png" "abc_2.png")
             example_files_after Finished);
      [reflexivity|discriminate|vm_compute; reflexivity]. }
  split_and!; [exact Hnd|exact Hrun|].
  destruct (earliest_of_prefix_group_survives example_decodes
              example_compareHist "logos" example_listing example_files
              (example_files_after, [Finished]) Hnd Hrun) as (_ & Hfirst & _).
  apply (Hfirst 0%nat "abc_1.png"); [reflexivity| |vm_compute; reflexivity].
  intros a g Ha. lia.
Defined.

Example closest_broad_color_examples :
  closest_broad_color (255, 0, 0) = Some Red ∧
  closest_broad_color (250, 250, 250) = Some White ∧
  closest_broad_color (0, 138, 144) = Some Green.
Proof. by vm_compute. Qed.

Example describe_logo_colors_examples :
  describe_logo_colors [(255, 0, 0); (250, 0, 0); (0, 0, 0); (1, 1, 1); (2, 2, 2)]
  = true ∧
  describe_logo_colors
    [(255, 0, 0); (250, 250, 250); (0, 0, 0); (1, 1, 255); (2, 2, 2)]
  = false.
Proof. by vm_compute. Qed.

Example analyze_emotion_examples :
  analyze_emotion
    (fun _ => [(255, 0, 0); (250, 0, 0); (0, 0, 0); (1, 1, 1); (2, 2, 2)]) "a.png"
  = Ok "Energetic & Passionate" ∧
  analyze_emotion
    (fun _ => [(255, 0, 0); (0, 0, 250); (0, 0, 0); (1, 1, 1); (2, 2, 2)]) "a.png"
  = Ok "Balanced & Neutral" ∧
  analyze_emotion (fun _ => []) "a.png" = Raised ZeroDivisionError.
Proof. by vm_compute. Qed.

Example dhash_example :
  dhash unit example_convert_L example_resize
        (fun _ xy => Z.of_nat (xy.2 - xy.1)) tt 2
  = "0010".
Proof. by vm_compute. Qed.

(** The second logo is moved by the first pair; the pair (second, third) then
    finds its first file gone and is skipped, so the third logo stays. *)
Example move_similar_logos_fifo_example :
  ∃ files',
    move_similar_logos_fifo example_decodes example_compareHist3 "logos"
      example_listing3 example_files3 = Ok files' ∧
    "logos/abc_1.png" ∈ files' ∧
    "duplicates/abc_2.png" ∈ files' ∧
    ("logos/abc_2.png" ∉ files') ∧
    "logos/abc_3.png" ∈ files'.
Proof.
  eexists. split; [vm_compute; reflexivity|].
  split_and!; by vm_compute.
Qed.

(** ** Instances of the further properties *)

Lemma closest_broad_color_palette_witness :
  (Orange, (255, 165, 0)) ∈ BROAD_COLORS ∧
  closest_broad_color (255, 165, 0) = Some Orange.
Proof.
  assert ((Orange, (255, 165, 0)) ∈ BROAD_COLORS) as Hin.
  { unfold BROAD_COLORS. apply list_elem_of_further, list_elem_of_here. }
  split; [exact Hin|].
  exact (closest_broad_color_palette Orange (255, 165, 0) Hin).
Defined.

Lemma analyze_emotion_counts_witness :
  example_extract_main_colors "logos/xyz_1.png" ≠ [] ∧
  analyze_emotion example_extract_main_colors "logos/xyz_1.png"
  = Ok (emotion_label_Z
          (warm_clusters (example_extract_main_colors "logos/xyz_1.png")
           - cool_clusters (example_extract_main_colors "logos/xyz_1.png"))
          (Z.of_nat (length (distinct_buckets
                               (example_extract_main_colors "logos/xyz_1.png"))))).
Proof.
  assert (example_extract_main_colors "logos/xyz_1.png" ≠ []) as Hne by done.
  split; [exact Hne|].
  exact (analyze_emotion_counts example_extract_main_colors "logos/xyz_1.png" Hne).
Defined.

Lemma analyze_emotion_uniform_witness :
  example_extract_main_colors "logos/abc_1.png" ≠ [] ∧
  Forall (fun b => warmth b = 1)
    (buckets (example_extract_main_colors "logos/abc_1.png")) ∧
  analyze_emotion example_extract_main_colors "logos/abc_1.png"
  = Ok "Energetic & Passionate".
Proof.
  assert (example_extract_main_colors "logos/abc_1.png" ≠ []) as Hne by done.
  assert (Forall (fun b => warmth b = 1)
            (buckets (example_extract_main_colors "logos/abc_1.png"))) as Hwarm.
  { vm_compute. repeat constructor. }
  split_and!; [exact Hne|exact Hwarm|].
  exact (proj1 (analyze_emotion_uniform example_extract_main_colors
                  "logos/abc_1.png" Hne) Hwarm).
Defined.

Lemma dhash_nondecreasing_rows_witness :
  (∀ x y, (x < 8)%nat → (y < 8)%nat →
     example_getpixel (example_resize (example_convert_L tt) (8 + 1, 8)%nat) (x, y)
     ≤ example_getpixel (example_resize (example_convert_L tt) (8 + 1, 8)%nat)
         (x + 1, y)%nat) ∧
  dhash unit example_convert_L example_resize example_getpixel tt 8
  = foldr String.append EmptyString (replicate (8 * 8) "0").
Proof.
  assert (∀ x y, (x < 8)%nat → (y < 8)%nat →
     example_getpixel (example_resize (example_convert_L tt) (8 + 1, 8)%nat) (x, y)
     ≤ example_getpixel (example_resize (example_convert_L tt) (8 + 1, 8)%nat)
         (x + 1, y)%nat) as Hrows.
  { intros x y _ _. unfold example_getpixel. lia. }
  split; [exact Hrows|].
  exact (dhash_nondecreasing_rows unit example_convert_L example_resize
           example_getpixel tt 8 Hrows).
Defined.

Lemma dhash_order_invariant_witness :
  (∀ a b, a < b → a + 10 < b + 10) ∧
  (∀ x y, (x ≤ 8)%nat → (y < 8)%nat →
     example_getpixel_ramp
       (example_resize_ramp (example_convert_ramp 210) (8 + 1, 8)%nat) (x, y)
     = example_getpixel_ramp
         (example_resize_ramp (example_convert_ramp 200) (8 + 1, 8)%nat) (x, y)
       + 10) ∧
  dhash Z example_convert_ramp example_resize_ramp example_getpixel_ramp 210 8
  = dhash Z example_convert_ramp example_resize_ramp example_getpixel_ramp 200 8.
Proof.
  assert (∀ a b, a < b → a + 10 < b + 10) as Hmono by (intros a b; lia).
  assert (∀ x y, (x ≤ 8)%nat → (y < 8)%nat →
     example_getpixel_ramp
       (example_resize_ramp (example_convert_ramp 210) (8 + 1, 8)%nat) (x, y)
     = example_getpixel_ramp
         (example_resize_ramp (example_convert_ramp 200) (8 + 1, 8)%nat) (x, y)
       + 10) as Hpix.
  { intros x y _ _.
    unfold example_getpixel_ramp, example_resize_ramp, example_convert_ramp.
    simpl. lia. }
  split_and!; [exact Hmono|exact Hpix|].
  exact (dhash_order_invariant Z example_convert_ramp example_resize_ramp
           example_getpixel_ramp 200 210 8 (fun a => a + 10) Hmono Hpix).
Defined.

Lemma dhash_alphabet_witness :
  (0 < 8)%nat ∧
  String.get 3
    (dhash Z example_convert_ramp example_resize_ramp example_getpixel_ramp 200 8)
  = Some "1"%char ∧
  ("1"%char = "0"%char ∨ "1"%char = "1"%char) ∧ (3 < 8 * 8)%nat ∧
  ("1"%char = "1"%char
   ↔ example_getpixel_ramp
       (example_resize_ramp (example_convert_ramp 200) (8 + 1, 8)%nat)
       (3 mod 8 + 1, 3 / 8)%nat
     < example_getpixel_ramp
         (example_resize_ramp (example_convert_ramp 200) (8 + 1, 8)%nat)
         (3 mod 8, 3 / 8)%nat).
Proof.
  assert (0 < 8)%nat as Hpos by lia.
  assert (String.get 3
            (dhash Z example_convert_ramp example_resize_ramp
               example_getpixel_ramp 200 8)
          = Some "1"%char) as Hget by (vm_compute; reflexivity).
  split_and!; [exact Hpos|exact Hget|..];
    apply (dhash_alphabet Z example_convert_ramp example_resize_ramp
             example_getpixel_ramp 200 8 3 "1"%char Hpos Hget).
Defined.

Lemma registry_files_on_disk_witness :
  hashes (World ∅ ∅) = ∅ ∧
  NoDup (map logo_filename ["abc.com"; "xyz.com"]) ∧
  ∃ w,
    process_all unit example_convert_L example_resize example_getpixel
      example_Image_open example_fetch_ok ["abc.com"; "xyz.com"] "logos"
      (World ∅ ∅) = Ok w ∧
    ∀ h p, hashes w !! h = Some p →
      p ∈ fs w ∧
      (∃ img, example_Image_open p = Ok img
              ∧ dhash unit example_convert_L example_resize example_getpixel
                  img 8 = h) ∧
      ∃ domain, domain ∈ ["abc.com"; "xyz.com"] ∧
                p = os_path_join "logos" (logo_filename domain).
Proof.
  assert (NoDup (map logo_filename ["abc.com"; "xyz.com"])) as Hnd.
  { by apply (bool_decide_unpack _). }
  split_and!; [reflexivity|exact Hnd|].
  exact (registry_files_on_disk unit example_convert_L example_resize
           example_getpixel example_Image_open example_fetch_ok
           ["abc.com"; "xyz.com"] (World ∅ ∅) eq_refl Hnd).
Defined.

Lemma process_logo_twice_witness :
  hash_value_of unit example_convert_L example_resize example_getpixel
    example_Image_open example_fetch_ok "abc.com" "logos" (World ∅ ∅)
  = Some (foldr String.append EmptyString (replicate 64 "0")) ∧
  hashes (World ∅ ∅) !! foldr String.append EmptyString (replicate 64 "0")
  = None ∧
  ∃ w1 w2,
    process_logo unit example_convert_L example_resize example_getpixel
      example_Image_open example_fetch_ok "abc.com" "logos" (World ∅ ∅) = Ok w1 ∧
    os_path_join "logos" (logo_filename "abc.com") ∈ fs w1 ∧
    process_logo unit example_convert_L example_resize example_getpixel
      example_Image_open example_fetch_ok "abc.com" "logos" w1 = Ok w2 ∧
    hashes w2 !! foldr String.append EmptyString (replicate 64 "0")
    = Some (os_path_join "logos" (logo_filename "abc.com")) ∧
    os_path_join "logos" (logo_filename "abc.com") ∉ fs w2.
Proof.
  assert (hash_value_of unit example_convert_L example_resize example_getpixel
            example_Image_open example_fetch_ok "abc.com" "logos" (World ∅ ∅)
          = Some (foldr String.append EmptyString (replicate 64 "0"))) as Hhash.
  { vm_compute. reflexivity. }
  split_and!; [exact Hhash|reflexivity|].
  exact (process_logo_twice unit example_convert_L example_resize
           example_getpixel example_Image_open example_fetch_ok "abc.com"
           (World ∅ ∅) _ Hhash eq_refl).
Defined.

Lemma similarity_threshold_witness :
  (∀ x y : Q, (x <= y)%Q → (example_fl x <= example_fl y)%Q) ∧
  (∀ x : Q, double x → (example_fl x == x)%Q) ∧
  calculate_histogram_similarity_double example_decodes example_compareHist
    example_fl example_files "logos/abc_1.png" "logos/abc_2.png"
  = Ok (((1 # 5) + 1) / 2 * 100)%Q ∧
  ∃ c, example_compareHist "logos/abc_1.png" "logos/abc_2.png" = Ok c ∧
       (((1 # 5) + 1) / 2 * 100)%Q = remap_double example_fl c ∧
       (∀ c', (c <= c')%Q
              → (((1 # 5) + 1) / 2 * 100 <= remap_double example_fl c')%Q) ∧
       ((- (1 # 64) <= c)%Q → (49 < ((1 # 5) + 1) / 2 * 100)%Q) ∧
       ((c <= - (3 # 128))%Q → (((1 # 5) + 1) / 2 * 100 < 49)%Q) ∧
       ((- (1) <= c)%Q ∧ (c <= 1)%Q
        → (0 <= ((1 # 5) + 1) / 2 * 100)%Q ∧ (((1 # 5) + 1) / 2 * 100 <= 100)%Q) ∧
       ((0 <= c)%Q → (50 <= ((1 # 5) + 1) / 2 * 100)%Q).
Proof.
  assert (∀ x y : Q, (x <= y)%Q → (example_fl x <= example_fl y)%Q) as Hmono.
  { intros x y Hxy. exact Hxy. }
  assert (∀ x : Q, double x → (example_fl x == x)%Q) as Hexact.
  { intros x _. reflexivity. }
  assert (calculate_histogram_similarity_double example_decodes
            example_compareHist example_fl example_files
            "logos/abc_1.png" "logos/abc_2.png"
          = Ok (((1 # 5) + 1) / 2 * 100)%Q) as Hsim by (vm_compute; reflexivity).
  split_and!; [exact Hmono|exact Hexact|exact Hsim|].
  exact (similarity_threshold example_decodes example_compareHist example_fl
           Hmono Hexact example_files "logos/abc_1.png" "logos/abc_2.png" _
           Hsim).
Defined.

Lemma example_pool_run :
  rtc (pool_step example_decodes example_compareHist "logos")
      (example_files, submitted_pool example_listing)
      (example_files_after, [Finished]).
Proof.
  eapply rtc_l.
  { apply (pool_step_task example_decodes example_compareHist "logos"
             example_files [Submitted "abc_1.png" "abc_2.png"] 0
             (Submitted "abc_1.png" "abc_2.png")
             example_files (Moving "abc_1.png" "abc_2.png"));
      [reflexivity|discriminate|vm_compute; reflexivity]. }
  apply rtc_once.
  apply (pool_step_task example_decodes example_compareHist "logos"
           example_files [Moving "abc_1.png" "abc_2.png"] 0
           (Moving "abc_1.png" "abc_2.png")
           example_files_after Finished);
    [reflexivity|discriminate|vm_compute; reflexivity].
Qed.

Lemma pool_run_moves_only_witness :
  rtc (pool_step example_decodes example_compareHist "logos")
      (example_files, submitted_pool example_listing)
      (example_files_after, [Finished]) ∧
  (∀ p, p ∈ example_files →
        p ∈ example_files_after ∨
        ∃ j, j ∈ example_listing ∧ p = os_path_join "logos" j ∧
             os_path_join duplicates_folder j ∈ example_files_after) ∧
  (∀ p, p ∈ example_files_after →
        p ∈ example_files ∨
        ∃ j, j ∈ example_listing ∧ p = os_path_join duplicates_folder j ∧
             os_path_join "logos" j ∈ example_files).
Proof.
  split; [exact example_pool_run|].
  exact (pool_run_moves_only example_decodes example_compareHist
           example_listing example_files (example_files_after, [Finished])
           example_pool_run).
Defined.

Lemma example_listing3_NoDup : NoDup example_listing3.
Proof. by apply (bool_decide_unpack _). Qed.

Lemma example_listing3_files (j : string) :
  j ∈ example_listing3 → os_path_join "logos" j ∈ example_files3.
Proof.
  unfold example_listing3. rewrite !elem_of_cons, elem_of_nil.
  intros [->|[->|[->|[]]]]; by vm_compute.
Qed.

Lemma move_similar_logos_fifo_kept_witness :
  NoDup example_listing3 ∧
  (∀ j, j ∈ example_listing3 → os_path_join "logos" j ∈ example_files3) ∧
  ∃ files',
    move_similar_logos_fifo example_decodes example_compareHist3 "logos"
      example_listing3 example_files3 = Ok files' ∧
    ∀ j, j ∈ example_listing3 →
      (os_path_join "logos" j ∈ files'
       ↔ ¬ ∃ i, listed_before example_listing3 i j
                ∧ os_path_join "logos" i ∈ files'
                ∧ near_pair example_decodes example_compareHist3 "logos" i j
                  = true).
Proof.
  split_and!; [exact example_listing3_NoDup|exact example_listing3_files|].
  exact (move_similar_logos_fifo_kept example_decodes example_compareHist3
           example_listing3 example_files3 example_listing3_NoDup
           example_listing3_files).
Defined.

Lemma example_listing_NoDup : NoDup example_listing.
Proof. by apply (bool_decide_unpack _). Qed.

Lemma example_listing_files (f : string) :
  f ∈ example_listing → os_path_join "logos" f ∈ example_files.
Proof.
  unfold example_listing. rewrite !elem_of_cons, elem_of_nil.
  intros [->|[->|[]]]; by vm_compute.
Qed.

Lemma example_listing_no_dirs (f : string) :
  f ∈ example_listing → example_isdir (os_path_join "logos" f) = false.
Proof.
  unfold example_listing. rewrite !elem_of_cons, elem_of_nil.
  intros [->|[->|[]]]; by vm_compute.
Qed.

Lemma delete_corrupted_images_keeps_witness :
  NoDup example_listing ∧
  (∀ f, f ∈ example_listing → os_path_join "logos" f ∈ example_files) ∧
  (∀ f, f ∈ example_listing → example_isdir (os_path_join "logos" f) = false) ∧
  ∃ files',
    delete_corrupted_images example_Image_open_header example_isdir "logos"
      example_listing example_files = Ok files' ∧
    (∀ p, p ∈ files'
          ↔ p ∈ example_files
            ∧ ¬ corrupted example_Image_open_header "logos" example_listing p) ∧
    (∀ f, f ∈ example_listing → os_path_join "logos" f ∈ files' →
          ∃ u, example_Image_open_header (os_path_join "logos" f) = Ok u) ∧
    (∀ p, (∀ f, f ∈ example_listing → p ≠ os_path_join "logos" f) →
          (p ∈ files' ↔ p ∈ example_files)).
Proof.
  split_and!;
    [exact example_listing_NoDup|exact example_listing_files
    |exact example_listing_no_dirs|].
  exact (delete_corrupted_images_keeps example_Image_open_header example_isdir
           "logos" example_listing example_files example_listing_NoDup
           example_listing_files example_listing_no_dirs).
Defined.

Lemma delete_corrupted_images_returns_witness :
  NoDup example_listing3 ∧
  ((∃ files',
      delete_corrupted_images example_Image_open_header example_isdir "logos"
        example_listing3 example_files = Ok files')
   ↔ ∀ f, f ∈ example_listing3 →
       os_path_join "logos" f ∈ example_files
       ∧ example_isdir (os_path_join "logos" f) = false) ∧
  (∀ e,
     delete_corrupted_images example_Image_open_header example_isdir "logos"
       example_listing3 example_files = Raised e →
     (e = FileNotFoundError
      ∧ ∃ f, f ∈ example_listing3 ∧ os_path_join "logos" f ∉ example_files)
     ∨ (e = directory_error
        ∧ ∃ f, f ∈ example_listing3 ∧ os_path_join "logos" f ∈ example_files
               ∧ example_isdir (os_path_join "logos" f) = true)).
Proof.
  split; [exact example_listing3_NoDup|].
  exact (delete_corrupted_images_returns example_Image_open_header example_isdir
           "logos" example_listing3 example_files example_listing3_NoDup).
Defined.

